(** * Creator scraper: rate budget, scrape protocol, discovery loop, batch fan-out

    A shallow embedding of the orchestration core of the creator scraper
    (package [creatorscraper]) and the properties its specification states
    about it.

    - [RateLimiter]  : utils/rate_limiter.py   (token bucket)
    - [Parsers], [Schemas] : utils/parsers.py, models/schemas.py
    - [Instagram]    : sources/instagram.py    (API first, page fallback)
    - [Discovery]    : sources/instagram_discovery.py (Reels scrolling loop)
    - [Batch]        : run_scraper.py, tasks/worker.py (fan-out, aggregation)

    Floating point quantities (token counts, rates, wall-clock readings of
    [time.time()], engagement rates) are modelled as rationals [Q], that
    is, without rounding.  What is stated about them is therefore limited
    to what rounding to nearest preserves: order properties (bounds, the
    sign of a difference, a comparison that [min] has already decided)
    and evaluations at values that doubles represent exactly.  No
    equality between two differently computed levels is stated, since
    such levels can differ by one rounding in the program.  External
    collaborators (network, browser, database) are section variables or
    explicit observation scripts. *)

From Stdlib Require Import QArith Qminmax Lqa ZArith Lia List String Ascii Bool.
From stdpp Require Import base list gmap strings.

Import ListNotations.

(** ** Python-style results: a call either returns or raises. *)

Inductive raised (A : Type) : Type :=
| Ret (a : A)
| Raise (msg : string).
Arguments Ret {A} a.
Arguments Raise {A} msg.

(** ** utils/rate_limiter.py *)

Module RateLimiter.

Local Open Scope Q_scope.

(** [RateLimiter] instance fields.  [capacity] is an [int] in the source;
    [tokens] starts as that integer and becomes a float on the first
    refill. *)
Record t : Type := mk {
  rate : Q;
  capacity : Z;
  tokens : Q;
  last_update : Q
}.

(** [RateLimiter.__init__(rate, capacity)], constructed at clock reading [now]. *)
Definition init (r : Q) (cap : Z) (now : Q) : t :=
  {| rate := r; capacity := cap; tokens := inject_Z cap; last_update := now |}.

(** [RateLimiter.acquire(tokens=n)] executed when [time.time()] reads [now].
    The body runs under the lock, without suspension point, so it is one
    atomic state transition.  The arithmetic is exact where the program
    rounds to doubles; [min] and the comparison are exact in both. *)
Definition acquire (self : t) (now : Q) (n : Z) : bool * t :=
  let elapsed := now - last_update self in
  let refilled := Qmin (inject_Z (capacity self)) (tokens self + elapsed * rate self) in
  if Qle_bool (inject_Z n) refilled
  then (true,  {| rate := rate self; capacity := capacity self;
                  tokens := refilled - inject_Z n; last_update := now |})
  else (false, {| rate := rate self; capacity := capacity self;
                  tokens := refilled; last_update := now |}).

(** The delay computed in [wait_for_tokens] after a failed [acquire]:
    [(tokens - self.tokens) / self.rate].  Python raises
    [ZeroDivisionError] when [rate] is zero. *)
Definition wait_time (self : t) (n : Z) : raised Q :=
  if Qeq_bool (rate self) 0 then Raise "ZeroDivisionError"
  else Ret ((inject_Z n - tokens self) / rate self).

(** Outcome of the [wait_for_tokens] loop: the sleeps it performed, the final
    bucket and the final clock reading; [Spinning] when the iteration budget
    of the model is used up before an [acquire] succeeds. *)
Inductive wait_outcome : Type :=
| Acquired (sleeps : list Q) (self : t) (clock : Q)
| Failed (msg : string)
| Spinning.

(** [RateLimiter.wait_for_tokens(tokens=n)].  [asyncio.sleep(d)] resumes the
    caller [d] seconds later (immediately when [d <= 0]); the model advances
    the clock by exactly that much and computes without rounding.  In the
    program the refill after the computed delay can fall one rounding short
    of the request, and the loop then sleeps once more: the number of
    sleeps is stated below only where every value involved is exact in
    doubles. *)
Fixpoint wait_for_tokens (fuel : nat) (self : t) (clock : Q) (n : Z) : wait_outcome :=
  match fuel with
  | O => Spinning
  | S fuel' =>
      let '(ok, self') := acquire self clock n in
      if ok then Acquired [] self' clock
      else match wait_time self' n with
           | Raise msg => Failed msg
           | Ret d =>
               match wait_for_tokens fuel' self' (clock + Qmax 0 d) n with
               | Acquired sleeps s c => Acquired (d :: sleeps) s c
               | other => other
               end
           end
  end.

(** A sequence of [acquire] calls, each with the clock reading at which it
    runs; returns the success flag and the bucket after every call. *)
Fixpoint run (self : t) (calls : list (Q * Z)) : list (bool * t) :=
  match calls with
  | [] => []
  | (now, n) :: rest =>
      let r := acquire self now n in
      r :: run (snd r) rest
  end.

(** The data-model invariant of the bucket. *)
Definition in_range (self : t) : Prop :=
  0 <= tokens self /\ tokens self <= inject_Z (capacity self).

(** The clock does not run backwards over the calls, and every call asks
    for at least one token. *)
Fixpoint well_timed (t0 : Q) (calls : list (Q * Z)) : Prop :=
  match calls with
  | [] => True
  | (now, n) :: rest => t0 <= now /\ (1 <= n)%Z /\ well_timed now rest
  end.

(** C1 as the specification states it, for one bucket and one sequence of
    calls: the invariant holds after each call. *)
Definition stays_in_range (self : t) (calls : list (Q * Z)) : Prop :=
  Forall (fun res => in_range (snd res)) (run self calls).

(** Ten tokens taken at clock reading 100, one more asked at reading 95. *)
Definition stepping_back : list (Q * Z) := [(100, 10%Z); (95, 1%Z)].

(** Sample buckets and call sequences. *)

Definition sample_calls : list (Q * Z) := [(0, 1%Z); (5, 3%Z); (5, 30%Z); (4000, 2%Z)].

(** The hourly budget of the specification: ten tokens, ten per hour. *)
Definition hourly : t := init (10 # 3600) 10 0.

Definition burst (k : nat) : list (Q * Z) := repeat (0, 1%Z) k.

(** The bucket after ten immediate [acquire(1)] and one refused one. *)
Definition drained : t :=
  snd (List.last (run hourly (burst 11)) (false, hourly)).

End RateLimiter.

(** ** Helpers for Python's truthiness and defaults *)

(** [x or 0] on an optional integer: [None] and [0] both give [0]. *)
Definition or0 (x : option Z) : Z :=
  match x with
  | Some z => z
  | None => 0%Z
  end.

(** Truthiness of an optional string: [None] and [""] are falsy. *)
Definition truthy_str (s : option string) : bool :=
  match s with
  | Some EmptyString => false
  | Some _ => true
  | None => false
  end.

Definition lower_ascii (c : ascii) : ascii :=
  let n := nat_of_ascii c in
  if (65 <=? n)%nat && (n <=? 90)%nat then ascii_of_nat (n + 32) else c.

(** [str.lower()] is a method of Python's [str], not code of this
    repository: the functions that call it take it as it is, and what is
    proved about them holds for every function in its place. *)
Class StrLower := lower : string -> string.

(** A lowering function to run the definitions with, on text held as its
    UTF-8 bytes.  Besides [A-Z] only two code points have a lowercase that
    contains an ASCII character: U+212A KELVIN SIGN (bytes 226 132 170),
    which becomes [k], and U+0130 (bytes 196 176), which becomes [i]
    followed by U+0307 (bytes 204 135).  The function agrees with
    [str.lower()] on every string whose cased characters are among these;
    other cased letters are left as they are. *)
Fixpoint lower_utf8 (s : string) : string :=
  match s with
  | EmptyString => EmptyString
  | String c s1 =>
      match s1 with
      | EmptyString => String (lower_ascii c) EmptyString
      | String c1 s2 =>
          if Ascii.eqb c "196" && Ascii.eqb c1 "176"
          then String "i" (String "204" (String "135" (lower_utf8 s2)))
          else
            match s2 with
            | EmptyString => String (lower_ascii c) (lower_utf8 s1)
            | String c2 s3 =>
                if Ascii.eqb c "226" && Ascii.eqb c1 "132" && Ascii.eqb c2 "170"
                then String "k" (lower_utf8 s3)
                else String (lower_ascii c) (lower_utf8 s1)
            end
      end
  end.

#[global] Instance lower_utf8_instance : StrLower := lower_utf8.

(** ** utils/parsers.py *)

Module Parsers.

Local Open Scope Q_scope.

(** [parse_engagement_rate(likes, comments, followers)]; every argument may
    be [None] (the tests call it so). *)
Definition parse_engagement_rate (likes comments followers : option Z) : option Q :=
  match followers with
  | None => None
  | Some f =>
      if (f <=? 0)%Z then None
      else
        let total_engagement := (or0 likes + or0 comments)%Z in
        Some (Qmin 1 (inject_Z total_engagement / inject_Z f))
  end.

End Parsers.

(** ** models/schemas.py

    The records keep the fields the orchestration core reads or derives;
    descriptive pass-through fields (bio, avatar, contact e-mail, ...) are
    left out. *)

Module Schemas.

Local Open Scope Q_scope.

Record Post : Type := mkPost {
  url : string;
  timestamp : option Z;
  likes : option Z;
  comments : option Z;
  caption : option string;
  post_engagement_rate : option Q
}.

Record CreatorProfile : Type := mkProfile {
  source : string;
  profile_url : string;
  handle : option string;
  niche : option string;
  follower_count : option Z;
  engagement_rate : option Q;
  top_posts : option (list Post);
  recent_posts_sample : option (list Post)
}.

Record ScrapingResult : Type := mkResult {
  success : bool;
  profile : option CreatorProfile;
  error : option string;
  method_used : option string
}.

(** [str.startswith(('http://', 'https://'))] *)
Definition is_http (s : string) : bool :=
  String.prefix "http://" s || String.prefix "https://" s.

(** [validate_engagement_rate]: accepts [None] and values with [0 <= v <= 1]. *)
Definition validate_engagement_rate (v : option Q) : bool :=
  match v with
  | None => true
  | Some q => Qle_bool 0 q && Qle_bool q 1
  end.

(** [validate_posts]: a post list has at most ten entries. *)
Definition validate_posts (v : option (list Post)) : bool :=
  match v with
  | None => true
  | Some l => (length l <=? 10)%nat
  end.

(** [validate_source]: [v.lower()] must be one of the two platforms; the
    validator stores the lower-cased value. *)
Definition validate_source {L : StrLower} (v : string) : bool :=
  String.eqb (lower v) "instagram" || String.eqb (lower v) "linkedin".

(** [Post(...)]: field validators of the [Post] model. *)
Definition make_post (p : Post) : raised Post :=
  if negb (is_http (url p)) then Raise "URL must start with http:// or https://"
  else if negb (validate_engagement_rate (post_engagement_rate p))
       then Raise "Engagement rate must be between 0 and 1"
       else Ret p.

Definition sumZ (l : list Z) : Z := fold_right Z.add 0%Z l.

(** [CreatorProfile.calculate_engagement_rate], the root validator, on the
    dictionary [values] of the fields that passed their validators (a field
    that failed is absent and reads as [None]).  [values['top_posts']] holds
    [Post] objects, which have no method [get]: when no rate is given and
    the post list is not empty, the first turn of the [sum] raises
    [AttributeError], before the follower count is read, so the division
    below it is never reached and no rate is ever derived here. *)
Definition calculate_engagement_rate (values : CreatorProfile) : raised CreatorProfile :=
  match engagement_rate values with
  | Some _ => Ret values
  | None =>
      let posts := match top_posts values with Some l => l | None => [] end in
      match posts with
      | [] => Ret values
      | _ :: _ => Raise "'Post' object has no attribute 'get'"
      end
  end.

(** The dictionary [values] that the root validator receives: the fields
    whose validators passed; [source] holds the lower-cased value. *)
Definition validated_values {L : StrLower} (fields : CreatorProfile) : CreatorProfile :=
  {| source := lower (source fields); profile_url := profile_url fields;
     handle := handle fields; niche := niche fields;
     follower_count := follower_count fields;
     engagement_rate :=
       if validate_engagement_rate (engagement_rate fields)
       then engagement_rate fields else None;
     top_posts := if validate_posts (top_posts fields) then top_posts fields else None;
     recent_posts_sample :=
       if validate_posts (recent_posts_sample fields)
       then recent_posts_sample fields else None |}.

(** [CreatorProfile(...)] on fields whose left-out companions validate.
    The field validators run first and collect their errors; the root
    validator runs next, also when a field has failed, and an
    [AttributeError] it raises leaves the constructor as it is; otherwise
    the collected errors are raised as a [ValidationError] (the message of
    the first one is kept), and without any the profile is built. *)
Definition make_profile {L : StrLower} (fields : CreatorProfile)
    : raised CreatorProfile :=
  match calculate_engagement_rate (validated_values fields) with
  | Raise e => Raise e
  | Ret values =>
      if negb (validate_source (source fields))
      then Raise "Source must be either instagram or linkedin"
      else if negb (is_http (profile_url fields))
      then Raise "Profile URL must start with http:// or https://"
      else if negb (validate_engagement_rate (engagement_rate fields))
      then Raise "Engagement rate must be between 0 and 1"
      else if negb (validate_posts (top_posts fields)
                    && validate_posts (recent_posts_sample fields))
      then Raise "Posts list cannot exceed 10 items"
      else Ret values
  end.

(** The overall rate computed in [InstagramScraper._create_profile_from_api]
    (instagram.py, "Calculate overall engagement rate"). *)
Definition api_engagement_rate (posts : list Post) (follower_count : Z) : option Q :=
  match posts with
  | [] => None
  | _ :: _ =>
      if (0 <? follower_count)%Z
      then
        let total_engagement :=
          sumZ (map (fun post => (or0 (likes post) + or0 (comments post))%Z) posts) in
        Some (Qmin 1 (inject_Z total_engagement
                      / (inject_Z (follower_count * Z.of_nat (length posts)))))
      else None
  end.

(** The message of [ScrapingResult(success=False, error=..., method_used=...)]. *)
Definition failure (msg method : string) : ScrapingResult :=
  {| success := false; profile := None; error := Some msg; method_used := Some method |}.

Definition succeeded (p : CreatorProfile) (method : string) : ScrapingResult :=
  {| success := true; profile := Some p; error := None; method_used := Some method |}.

Definition counts_nonneg (p : Post) : Prop :=
  (0 <= or0 (likes p))%Z /\ (0 <= or0 (comments p))%Z.

(** A LinkedIn profile as [LinkedInScraper._create_profile_from_api] builds
    it: 500 connections, one article with 1000 likes and 10 comments, no
    engagement rate passed to the constructor. *)
Definition viral_article : Post :=
  {| url := "https://linkedin.com/posts/1"; timestamp := Some 1672531200%Z;
     likes := Some 1000%Z; comments := Some 10%Z;
     caption := Some "Test Article"; post_engagement_rate := None |}.

Definition viral_profile : CreatorProfile :=
  {| source := "linkedin"; profile_url := "https://www.linkedin.com/in/testuser/";
     handle := Some "testuser"; niche := None;
     follower_count := Some 500%Z; engagement_rate := None;
     top_posts := Some [viral_article];
     recent_posts_sample := Some [viral_article] |}.

(** The same profile passed with a mixed-case source and a rate of one
    half: the constructor accepts it. *)
Definition rated_profile : CreatorProfile :=
  {| source := "LinkedIn"; profile_url := "https://www.linkedin.com/in/testuser/";
     handle := Some "testuser"; niche := None;
     follower_count := Some 500%Z; engagement_rate := Some (1 # 2);
     top_posts := Some [viral_article];
     recent_posts_sample := Some [viral_article] |}.

End Schemas.

(** ** sources/instagram.py *)

Module Instagram.

Import Schemas.

Local Open Scope string_scope.

(** *** Handle extraction *)

Definition is_sep (c : ascii) : bool :=
  Ascii.eqb c "/"%char || Ascii.eqb c "?"%char.

(** The longest prefix matching [[^/?]*]. *)
Fixpoint take_run (s : string) : string :=
  match s with
  | EmptyString => EmptyString
  | String c s' => if is_sep c then EmptyString else String c (take_run s')
  end.

Fixpoint drop_chars (n : nat) (s : string) : string :=
  match n, s with
  | O, _ => s
  | S _, EmptyString => EmptyString
  | S n', String _ s' => drop_chars n' s'
  end.

(** [needle in s] *)
Fixpoint contains (needle s : string) : bool :=
  String.prefix needle s ||
  match s with
  | EmptyString => false
  | String _ s' => contains needle s'
  end.

(** An anchored match of [instagram\.com/([^/?]+)] at the head of [s];
    the greedy group is the whole run. *)
Definition match_here (s : string) : option string :=
  if String.prefix "instagram.com/" s
  then match take_run (drop_chars 14 s) with
       | EmptyString => None
       | g => Some g
       end
  else None.

(** [re.search(r'instagram\.com/([^/?]+)', s)]: leftmost match, group 1. *)
Fixpoint re_search (s : string) : option string :=
  match match_here s with
  | Some g => Some g
  | None =>
      match s with
      | EmptyString => None
      | String _ s' => re_search s'
      end
  end.

Fixpoint lstrip_slash (s : string) : string :=
  match s with
  | String c s' => if Ascii.eqb c "/"%char then lstrip_slash s' else s
  | EmptyString => EmptyString
  end.

Fixpoint rstrip_slash (s : string) : string :=
  match s with
  | EmptyString => EmptyString
  | String c s' =>
      match rstrip_slash s' with
      | EmptyString => if Ascii.eqb c "/"%char then EmptyString else String c EmptyString
      | r => String c r
      end
  end.

(** [str.strip('/')] *)
Definition strip_slash (s : string) : string := rstrip_slash (lstrip_slash s).

(** [InstagramScraper._extract_handle] *)
Definition _extract_handle (profile_url : string) : option string :=
  if contains "instagram.com/" profile_url
  then match re_search profile_url with
       | Some g => Some (strip_slash g)
       | None => None
       end
  else None.

(** *** Effects: an event trace, the lazily launched browser, exceptions *)

Inductive page_action : Type :=
| Launch | NewPage | SetHeaders | SetViewport
| Goto (url : string) | WaitTimeout | Evaluate | Close.

Inductive event : Type :=
| LogAttemptApi (handle : string)
| LogAttemptPlaywright (handle : string)
| RateWait (platform method : string)
| ApiGetUserId (handle : string)
| ApiGetUserProfile (user_id : string)
| ApiGetUserMedia (user_id : string)
| Page (a : page_action).

Record state : Type := mkState {
  trace : list event;
  browser : bool;
  page_open : bool
}.

Definition M (A : Type) : Type := state -> raised A * state.

Definition ret {A} (a : A) : M A := fun st => (Ret a, st).

Definition raise {A} (msg : string) : M A := fun st => (Raise msg, st).

Definition bind {A B} (m : M A) (k : A -> M B) : M B :=
  fun st =>
    match m st with
    | (Ret a, st') => k a st'
    | (Raise msg, st') => (Raise msg, st')
    end.

(** [try: m except Exception as e: h e] *)
Definition try_except {A} (m : M A) (h : string -> M A) : M A :=
  fun st =>
    match m st with
    | (Ret a, st') => (Ret a, st')
    | (Raise msg, st') => h msg st'
    end.

(** [try: m finally: fin]: [fin] always runs; when it raises, its exception
    replaces the outcome of [m]. *)
Definition try_finally {A} (m : M A) (fin : M unit) : M A :=
  fun st =>
    match m st with
    | (r, st') =>
        match fin st' with
        | (Ret _, st'') => (r, st'')
        | (Raise msg, st'') => (Raise msg, st'')
        end
    end.

Definition emit (e : event) : M unit :=
  fun st => (Ret tt, {| trace := trace st ++ [e]; browser := browser st;
                        page_open := page_open st |}).

Definition set_browser (b : bool) : M unit :=
  fun st => (Ret tt, {| trace := trace st; browser := b; page_open := page_open st |}).

Definition set_page_open (b : bool) : M unit :=
  fun st => (Ret tt, {| trace := trace st; browser := browser st; page_open := b |}).

Definition get_state : M state := fun st => (Ret st, st).

Notation "'do' x <- m ;; k" := (bind m (fun x => k))
  (at level 10, x name, m at level 99, k at level 200, only parsing).
Notation "'exec' m ;; k" := (bind m (fun _ => k))
  (at level 10, m at level 99, k at level 200, only parsing).

Section Scraper.

(** Raw dictionaries returned by the Graph API and by the page. *)
Context {ProfileData Media : Type}.

(** What the outside world answers during one call. *)
Record Env : Type := mkEnv {
  access_token : option string;
  (** [_get_user_id], [_get_user_profile], [_get_user_media] catch their own
      exceptions and answer [None] / [[]] instead. *)
  get_user_id : string -> option string;
  get_user_profile : string -> option ProfileData;
  get_user_media : string -> list Media;
  create_profile_from_api : ProfileData -> list Media -> string -> raised CreatorProfile;
  (** The browser: [None] when the action goes through, [Some msg] when it raises. *)
  page_step : page_action -> option string;
  (** [_extract_profile_data] catches its own exceptions and answers [None]. *)
  extract_profile_data : option ProfileData;
  create_profile_from_scraping : ProfileData -> string -> raised CreatorProfile
}.

Variable env : Env.

Definition lift {A} (r : raised A) : M A := fun st => (r, st).

Definition perform (a : page_action) : M unit :=
  exec emit (Page a) ;;
  match page_step env a with
  | None => ret tt
  | Some msg => raise msg
  end.

(** [platform_rate_limiter.wait_for_platform(platform, method)] *)
Definition wait_for_platform (platform method : string) : M unit :=
  emit (RateWait platform method).

(** [InstagramScraper._scrape_via_api] *)
Definition _scrape_via_api (handle : string) : M ScrapingResult :=
  try_except
    (exec wait_for_platform "instagram" "api" ;;
     exec emit (ApiGetUserId handle) ;;
     match get_user_id env handle with
     | None | Some EmptyString => ret (failure "Could not get user ID from API" "api")
     | Some user_id =>
         exec emit (ApiGetUserProfile user_id) ;;
         match get_user_profile env user_id with
         | None => ret (failure "Could not get profile data from API" "api")
         | Some profile_data =>
             exec emit (ApiGetUserMedia user_id) ;;
             let media_data := get_user_media env user_id in
             do profile <- lift (create_profile_from_api env profile_data media_data handle) ;;
             ret (succeeded profile "api")
         end
     end)
    (fun e => ret (failure e "api")).

(** [InstagramScraper._scrape_via_playwright] *)
Definition _scrape_via_playwright (profile_url : string) : M ScrapingResult :=
  exec set_page_open false ;;
  try_finally
    (try_except
       (exec wait_for_platform "instagram" "scraping" ;;
        do st <- get_state ;;
        exec (if browser st then ret tt else (exec perform Launch ;; set_browser true)) ;;
        exec perform NewPage ;;
        exec set_page_open true ;;
        exec perform SetHeaders ;;
        exec perform SetViewport ;;
        exec perform (Goto profile_url) ;;
        exec perform WaitTimeout ;;
        exec emit (Page Evaluate) ;;
        match extract_profile_data env with
        | None => ret (failure "Could not extract profile data" "scraping")
        | Some profile_data =>
            do profile <- lift (create_profile_from_scraping env profile_data profile_url) ;;
            ret (succeeded profile "scraping")
        end)
       (fun e => ret (failure e "scraping")))
    (do st <- get_state ;;
     if page_open st then perform Close else ret tt).

(** [InstagramScraper.scrape_profile] *)
Definition scrape_profile (profile_url : string) (use_api : bool) : M ScrapingResult :=
  try_except
    (let handle := _extract_handle profile_url in
     match handle with
     | None | Some EmptyString => ret (failure "Invalid Instagram profile URL" "none")
     | Some h =>
         let fallback :=
           exec emit (LogAttemptPlaywright h) ;;
           _scrape_via_playwright profile_url in
         if use_api && truthy_str (access_token env)
         then
           exec emit (LogAttemptApi h) ;;
           do result <- _scrape_via_api h ;;
           if success result then ret result else fallback
         else fallback
     end)
    (fun e => ret (failure e "none")).

End Scraper.

Arguments Env : clear implicits.

(** Observations on a trace. *)
Definition is_api_event (e : event) : bool :=
  match e with
  | LogAttemptApi _ | ApiGetUserId _
  | ApiGetUserProfile _ | ApiGetUserMedia _ => true
  | RateWait _ method => String.eqb method "api"
  | _ => false
  end.

Definition is_fallback_attempt (e : event) : bool :=
  match e with
  | LogAttemptPlaywright _ => true
  | _ => false
  end.

(** The wait on the scraping budget that opens [_scrape_via_playwright]. *)
Definition is_fallback_wait (e : event) : bool :=
  match e with
  | RateWait _ method => String.eqb method "scraping"
  | _ => false
  end.

Definition count_if {A} (p : A -> bool) (l : list A) : nat :=
  length (List.filter p l).

Definition fresh : state := {| trace := []; browser := false; page_open := false |}.

(** A small program logic for [M]: the events a computation appends all
    satisfy [E], and every value it returns satisfies [Q]. *)
Definition spec {A} (E : event -> Prop) (Q : A -> Prop) (m : M A) : Prop :=
  forall st, exists new,
    trace (snd (m st)) = (trace st ++ new)%list
    /\ Forall E new
    /\ forall a, fst (m st) = Ret a -> Q a.

Definition is_page_event (e : event) : Prop :=
  match e with
  | Page _ => True
  | _ => False
  end.

Definition api_phase (e : event) : Prop := is_api_event e = true.

(** A result is attributed to [method] when it is a success. *)
Definition by_method (method : string) (r : ScrapingResult) : Prop :=
  success r = true -> method_used r = Some method.

Definition push (e : event) (st : state) : state :=
  {| trace := (trace st ++ [e])%list; browser := browser st; page_open := page_open st |}.

(** The outer [except Exception] of [scrape_profile]. *)
Definition finish (x : raised ScrapingResult * state) : raised ScrapingResult * state :=
  match x with
  | (Ret a, s) => (Ret a, s)
  | (Raise msg, s) => (Ret (failure msg "none"), s)
  end.

(** A world with a token whose API lookup fails and whose page yields a
    profile. *)
Definition sample_profile : CreatorProfile :=
  {| source := "instagram"; profile_url := "https://www.instagram.com/username/";
     handle := Some "username"; niche := None; follower_count := Some 1000%Z;
     engagement_rate := None; top_posts := None; recent_posts_sample := None |}.

Definition sample_env : Env unit unit :=
  {| access_token := Some "test_token";
     get_user_id := fun _ => None;
     get_user_profile := fun _ => None;
     get_user_media := fun _ => [];
     create_profile_from_api := fun _ _ _ => Raise "unused";
     page_step := fun _ => None;
     extract_profile_data := Some tt;
     create_profile_from_scraping := fun _ _ => Ret sample_profile |}.

End Instagram.

(** ** sources/instagram_discovery.py *)

Module Discovery.

Local Open Scope Z_scope.

(** A creator dictionary as built by [_extract_creators_from_reels]:
    ['handle'] and ['profile_url'] are always present; ['follower_count']
    and ['niche'] are present only when the profile visit succeeded. *)
Record Creator : Type := mkCreator {
  handle : string;
  profile_url : string;
  follower_count : option Z;
  niche : option string
}.

(** [creator.get('niche') not in niches] *)
Definition niche_in (n : option string) (niches : list string) : bool :=
  match n with
  | None => false
  | Some x => existsb (String.eqb x) niches
  end.

(** Truthiness of [niches : Optional[List[str]]]. *)
Definition truthy_list {A} (l : option (list A)) : bool :=
  match l with
  | Some (_ :: _) => true
  | _ => false
  end.

(** [InstagramReelsDiscovery._passes_filters] *)
Definition _passes_filters (creator : Creator) (niches : option (list string))
    (min_followers max_followers : Z) : bool :=
  let fc := match follower_count creator with Some n => n | None => 0 end in
  if (fc <? min_followers) || (max_followers <? fc) then false
  else if truthy_list niches
          && negb (niche_in (niche creator) (match niches with Some l => l | None => [] end))
       then false
       else true.

(** [datetime] values are microsecond counts; [timedelta.seconds] is the
    seconds component of the normalised difference (days, seconds in
    [0, 86400), microseconds). *)
Definition td_seconds (delta_us : Z) : Z := (delta_us / 1000000) mod 86400.

Definition seconds (s : Z) : Z := s * 1000000.

Record Config : Type := mkConfig {
  max_creators : Z;
  niches : option (list string);
  min_followers : Z;
  max_followers : Z;
  scroll_duration : Z
}.

(** The loop variables of [_discover_from_reels] together with the
    instance attribute [self.discovered_creators] and a log of the page
    reloads performed ([page.reload()]), each with the clock reading of the
    stall test that triggered it. *)
Record Run : Type := mkRun {
  creators : list Creator;
  discovered_creators : gset string;
  last_scroll_time : Z;
  reloads : list Z
}.

(** The [for creator in new_creators] loop. *)
Fixpoint consume (cfg : Config) (new_creators : list Creator)
    (out : list Creator) (seen : gset string) : list Creator * gset string :=
  match new_creators with
  | [] => (out, seen)
  | creator :: rest =>
      if max_creators cfg <=? Z.of_nat (length out) then (out, seen)
      else if decide (handle creator ∈ seen) then consume cfg rest out seen
      else if negb (_passes_filters creator (niches cfg) (min_followers cfg) (max_followers cfg))
           then consume cfg rest out seen
           else consume cfg rest (out ++ [creator]) ({[handle creator]} ∪ seen)
  end.

(** What the page and the clock show during one iteration of the
    [while] loop. *)
Inductive scroll_obs : Type :=
| ScrollRaised (msg : string)
| Extracted (new_creators : list Creator).

Record Step : Type := mkStep {
  t_loop : Z;            (** [datetime.now()] in the loop condition *)
  obs : scroll_obs;      (** scroll, pause and [_extract_creators_from_reels] *)
  t_check : Z;           (** [datetime.now()] in the stall test *)
  reload_raises : bool;  (** [page.reload()] or the pause after it raises *)
  t_mark : Z;            (** [datetime.now()] stored in [last_scroll_time] *)
  recover_raises : bool  (** the pause in the [except] handler raises *)
}.

(** How one iteration of the loop body ends: normally, or with an
    exception that leaves the loop.  Either way it ends in the state it
    has reached, because [creators] and [self.discovered_creators] are
    updated in place by the inner loop. *)
Inductive body_result : Type :=
| Next (st : Run)
| Leaves (msg : string) (st : Run).

(** The [except Exception] handler of the loop body. *)
Definition handler (s : Step) (st : Run) : body_result :=
  if recover_raises s then Leaves "page closed" st else Next st.

(** One iteration of the loop body (the [try] block and its handler). *)
Definition body (cfg : Config) (s : Step) (st : Run) : body_result :=
  match obs s with
  | ScrollRaised _ => handler s st
  | Extracted new_creators =>
      let '(out, seen) := consume cfg new_creators (creators st) (discovered_creators st) in
      if 30 <? td_seconds (t_check s - last_scroll_time st)
      then
        let st1 := {| creators := out; discovered_creators := seen;
                      last_scroll_time := last_scroll_time st;
                      reloads := reloads st ++ [t_check s] |} in
        if reload_raises s then handler s st1
        else Next {| creators := out; discovered_creators := seen;
                     last_scroll_time := t_mark s;
                     reloads := reloads st1 |}
      else Next {| creators := out; discovered_creators := seen;
                   last_scroll_time := t_mark s;
                   reloads := reloads st |}
  end.

Inductive loop_result : Type :=
| Returned (st : Run)          (** the [while] condition failed *)
| Escaped (msg : string) (st : Run)
    (** an exception left the loop, in the state reached by then *)
| Running (st : Run).          (** the observation script ended first *)

(** The [while] loop of [_discover_from_reels]. *)
Fixpoint loop (cfg : Config) (start_time : Z) (world : list Step) (st : Run) : loop_result :=
  match world with
  | [] => Running st
  | s :: world' =>
      if (Z.of_nat (length (creators st)) <? max_creators cfg)
         && (td_seconds (t_loop s - start_time) <? scroll_duration cfg)
      then match body cfg s st with
           | Next st' => loop cfg start_time world' st'
           | Leaves msg st' => Escaped msg st'
           end
      else Returned st
  end.

(** [InstagramReelsDiscovery._discover_from_reels]: [creators = []],
    [start_time = last_scroll_time = datetime.now()], then the loop. *)
Definition _discover_from_reels (cfg : Config) (seen : gset string)
    (start_time : Z) (world : list Step) : loop_result :=
  loop cfg start_time world
       {| creators := []; discovered_creators := seen;
          last_scroll_time := start_time; reloads := [] |}.

(** One run as the page and the clock present it. *)
Record Session : Type := mkSession {
  open_raises : bool;   (** browser launch, page creation or navigation raises *)
  start_time : Z;
  steps : list Step;
  close_raises : bool   (** [page.close()] raises *)
}.

(** [InstagramReelsDiscovery.discover_creators]: the list returned and the
    engine's seen-set afterwards; [None] while the loop is still running. *)
Definition discover_creators (cfg : Config) (seen : gset string) (w : Session)
    : option (list Creator * gset string) :=
  if open_raises w then Some ([], seen)
  else match _discover_from_reels cfg seen (start_time w) (steps w) with
       | Running _ => None
       | Escaped _ st => Some ([], discovered_creators st)
       | Returned st =>
           if close_raises w then Some ([], discovered_creators st)
           else Some (creators st, discovered_creators st)
       end.

(** [creator_handles[:max_creators]] with Python's slice semantics. *)
Definition py_take {A} (n : Z) (l : list A) : list A :=
  if n <? 0 then firstn (Z.to_nat (Z.of_nat (length l) + n)) l
  else firstn (Z.to_nat n) l.

(** The loop at the end of [_extract_creators_from_hashtag]; [info] is the
    answer of [_get_creator_basic_info] (follower count and niche, [None]
    when the visit fails). *)
Fixpoint hashtag_consume (info : string -> option (Z * option string))
    (handles : list string) (out : list Creator) (seen : gset string)
    : list Creator * gset string :=
  match handles with
  | [] => (out, seen)
  | h :: rest =>
      if decide (h ∈ seen) then hashtag_consume info rest out seen
      else match info h with
           | None => hashtag_consume info rest out seen
           | Some (fc, n) =>
               let creator :=
                 {| handle := h;
                    profile_url := "https://www.instagram.com/" ++ h ++ "/";
                    follower_count := Some fc; niche := n |} in
               hashtag_consume info rest (out ++ [creator]) ({[h]} ∪ seen)
           end
  end.

Definition _extract_creators_from_hashtag (info : string -> option (Z * option string))
    (creator_handles : list string) (max_creators : Z) (seen : gset string)
    : list Creator * gset string :=
  hashtag_consume info (py_take max_creators creator_handles) [] seen.

Definition handles (l : list Creator) : list string := map handle l.

Definition passes (cfg : Config) (c : Creator) : Prop :=
  let fc := match follower_count c with Some n => n | None => 0 end in
  min_followers cfg <= fc <= max_followers cfg
  /\ (truthy_list (niches cfg) = true ->
      exists n l, niche c = Some n /\ niches cfg = Some l /\ In n l).

(** What holds of the output list and the seen-set throughout a run that
    started with the seen-set [seen0]. *)
Record inv (cfg : Config) (seen0 : gset string) (out : list Creator) (seen : gset string)
  : Prop := mkInv {
  inv_nodup : NoDup (handles out);
  inv_pass : Forall (passes cfg) out;
  inv_seen : forall h, h ∈ handles out -> h ∈ seen;
  inv_new : forall h, h ∈ handles out -> h ∉ seen0;
  inv_mono : seen0 ⊆ seen
}.

Definition inv_run (cfg : Config) (seen0 : gset string) (st : Run) : Prop :=
  inv cfg seen0 (creators st) (discovered_creators st).

Definition bounded (cfg : Config) (st : Run) : Prop :=
  Z.of_nat (length (creators st)) <= max_creators cfg.

Local Open Scope string_scope.
Local Open Scope Z_scope.

Definition creator (h : string) (followers : Z) : Creator :=
  {| handle := h; profile_url := "https://www.instagram.com/" ++ h ++ "/";
     follower_count := Some followers; niche := Some "Fitness" |}.

Definition quiet_step (t_from t_to : Z) (new_creators : list Creator) : Step :=
  {| t_loop := seconds t_from; obs := Extracted new_creators;
     t_check := seconds t_to; reload_raises := false;
     t_mark := seconds t_to; recover_raises := false |}.

Definition five_of_ten : Config :=
  {| max_creators := 5; niches := None; min_followers := 1000;
     max_followers := 1000000; scroll_duration := 300 |}.

(** Ten raw candidates over two scroll steps: three repeated handles, one
    account below and one above the follower bounds; then an empty step
    and the reading at which the scroll duration is used up. *)
Definition ten_candidates : Session :=
  {| open_raises := false; start_time := 0;
     steps :=
       [ quiet_step 0 10
           [creator "ana" 5000; creator "bo" 20000; creator "cy" 1000;
            creator "ana" 5000; creator "tiny" 500];
         quiet_step 10 20
           [creator "bo" 20000; creator "cy" 1000; creator "dee" 1000000;
            creator "huge" 2000000; creator "eli" 75000];
         quiet_step 20 30 [];
         quiet_step 300 301 [] ];
     close_raises := false |}.

Definition at_most (n : Z) (l : list Creator) : Prop := (Z.of_nat (length l) <= n)%Z.

(** A feed that shows nothing for forty seconds, in steps of ten, and the
    reading at which the scroll duration is used up. *)
Definition stalled_feed : list Step :=
  [ quiet_step 0 10 []; quiet_step 10 20 []; quiet_step 20 30 [];
    quiet_step 30 40 []; quiet_step 300 301 [] ].

(** A feed whose single step shows a new account but takes 31 seconds. *)
Definition slow_feed : list Step :=
  [ quiet_step 0 31 [creator "ana" 5000]; quiet_step 300 301 [] ].

(** A session whose only step accepts a new account, takes 31 seconds, and
    whose reload and recovery pause both raise. *)
Definition escaping_session : Session :=
  {| open_raises := false; start_time := 0;
     steps := [ {| t_loop := seconds 0; obs := Extracted [creator "ana" 5000];
                   t_check := seconds 31; reload_raises := true;
                   t_mark := seconds 31; recover_raises := true |} ];
     close_raises := false |}.

(** The reading of C9 in the specification: the output of a run does not
    depend on what earlier runs on the same engine have seen. *)
Definition seen_set_is_run_scoped : Prop :=
  forall (cfg : Config) (w1 w2 : Session) (out1 : list Creator) (seen1 : gset string),
    discover_creators cfg ∅ w1 = Some (out1, seen1) ->
    fst <$> discover_creators cfg seen1 w2 = fst <$> discover_creators cfg ∅ w2.

End Discovery.

(** ** run_scraper.py and tasks/worker.py *)

Module Batch.

Import Schemas.

Local Open Scope string_scope.

(** A row of the candidate list: a dictionary in which either key may be
    missing. *)
Record CreatorDict : Type := mkCreatorDict {
  c_source : option string;
  c_profile_url : option string
}.

Section Orchestrator.

(** Everything the units share: rate budgets, browser, database, clock. *)
Context {World : Type} {L : StrLower}.

Abbreviation unit_of A := (World -> raised A * World).

Record Services : Type := mkServices {
  use_api : bool;
  instagram_scrape_profile : string -> bool -> unit_of ScrapingResult;
  linkedin_scrape_profile : string -> bool -> unit_of ScrapingResult;
  upsert_creator : CreatorProfile -> unit_of bool
}.

Variable svc : Services.

(** [CreatorScraperOrchestrator.scrape_creator] *)
Definition scrape_creator (source profile_url : string) : unit_of ScrapingResult :=
  fun w =>
    let run scraper :=
      match scraper profile_url (use_api svc) w with
      | (Raise e, w1) => (Ret (failure e "none"), w1)
      | (Ret result, w1) =>
          match success result, profile result with
          | true, Some p =>
              match upsert_creator svc p w1 with
              | (Raise e, w2) => (Ret (failure e "none"), w2)
              | (Ret _, w2) => (Ret result, w2)
              end
          | _, _ => (Ret result, w1)
          end
      end in
    if String.eqb (lower source) "instagram" then run (instagram_scrape_profile svc)
    else if String.eqb (lower source) "linkedin" then run (linkedin_scrape_profile svc)
    else (Ret (failure ("Unsupported source: " ++ source) "none"), w).

(** The unit of work [scrape_with_semaphore(creator)]: the subscripts
    [creator['source']] and [creator['profile_url']] raise [KeyError] on a
    missing key, outside the [try] of [scrape_creator]. *)
Definition scrape_with_semaphore (creator : CreatorDict) : unit_of ScrapingResult :=
  fun w =>
    match c_source creator with
    | None => (Raise "'source'", w)
    | Some source =>
        match c_profile_url creator with
        | None => (Raise "'profile_url'", w)
        | Some profile_url => scrape_creator source profile_url w
        end
    end.

(** [asyncio.gather] with [return_exceptions=True].  The tasks finish in
    some completion order; each is run on the shared world at its turn and
    its outcome is stored in the slot of its position in [tasks].  The
    semaphore only restricts which completion orders can occur. *)
Fixpoint complete (tasks : list (unit_of ScrapingResult)) (order : list nat)
    (slots : list (option (raised ScrapingResult))) (w : World)
    : list (option (raised ScrapingResult)) * World :=
  match order with
  | [] => (slots, w)
  | i :: rest =>
      match tasks !! i with
      | Some task =>
          let '(r, w') := task w in
          complete tasks rest (<[i := Some r]> slots) w'
      | None => complete tasks rest slots w
      end
  end.

(** The result list of [gather]; [None] when some task never completes. *)
Fixpoint collect {A} (slots : list (option A)) : option (list A) :=
  match slots with
  | [] => Some []
  | None :: _ => None
  | Some a :: rest =>
      match collect rest with
      | Some l => Some (a :: l)
      | None => None
      end
  end.

Definition gather (tasks : list (unit_of ScrapingResult)) (order : list nat) (w : World)
    : option (list (raised ScrapingResult)) * World :=
  let '(slots, w') := complete tasks order (replicate (length tasks) None) w in
  (collect slots, w').

(** The shared world on which the [k]-th unit to complete runs: the units
    that completed before it have run on it, in completion order. *)
Definition world_at (tasks : list (unit_of ScrapingResult)) (order : list nat) (k : nat)
    (w : World) : World :=
  snd (complete tasks (take k order) (replicate (length tasks) None) w).

(** The "Handle exceptions" loop: one entry per gathered result. *)
Definition process_result (r : raised ScrapingResult) : ScrapingResult :=
  match r with
  | Raise e => failure e "none"
  | Ret result => result
  end.

(** [CreatorScraperOrchestrator.scrape_creators_batch] under the completion
    order [order]. *)
Definition scrape_creators_batch (creators : list CreatorDict) (order : list nat) (w : World)
    : option (list ScrapingResult) * World :=
  let tasks := map scrape_with_semaphore creators in
  match gather tasks order w with
  | (Some results, w') => (Some (map process_result results), w')
  | (None, w') => (None, w')
  end.

(** The counts reported by [main] in run_scraper.py. *)
Definition successful_of (results : list ScrapingResult) : nat :=
  length (List.filter success results).

Definition failed_of (results : list ScrapingResult) : nat :=
  (length results - successful_of results)%nat.

(** *** tasks/worker.py *)

(** An entry of [results['results']]. *)
Record JobResult : Type := mkJob {
  job_success : bool;
  job_error : option string;
  job_creator : option CreatorDict
}.

Record BatchReport : Type := mkReport {
  batch_success : bool;
  total_creators : nat;
  successful : nat;
  failed : nat;
  results : list JobResult
}.

(** [scrape_creator_profile(source, profile_url, use_api, store_raw)] *)
Variable scrape_creator_profile : string -> string -> bool -> bool -> unit_of JobResult.

Definition or_empty (s : option string) : string :=
  match s with
  | Some x => x
  | None => ""
  end.

Definition add_failed (rep : BatchReport) (r : JobResult) : BatchReport :=
  {| batch_success := batch_success rep; total_creators := total_creators rep;
     successful := successful rep; failed := S (failed rep);
     results := results rep ++ [r] |}.

Definition add_successful (rep : BatchReport) (r : JobResult) : BatchReport :=
  {| batch_success := batch_success rep; total_creators := total_creators rep;
     successful := S (successful rep); failed := failed rep;
     results := results rep ++ [r] |}.

(** The [for creator in creators] loop of [process_creator_batch]. *)
Fixpoint process_loop (api store_raw : bool) (creators : list CreatorDict)
    (rep : BatchReport) (w : World) : BatchReport * World :=
  match creators with
  | [] => (rep, w)
  | creator :: rest =>
      let source := lower (or_empty (c_source creator)) in
      let profile_url := or_empty (c_profile_url creator) in
      match source, profile_url with
      | EmptyString, _ | _, EmptyString =>
          process_loop api store_raw rest
            (add_failed rep {| job_success := false;
                               job_error := Some "Missing source or profile_url";
                               job_creator := Some creator |}) w
      | _, _ =>
          match scrape_creator_profile source profile_url api store_raw w with
          | (Ret result, w') =>
              process_loop api store_raw rest
                (if job_success result then add_successful rep result
                 else add_failed rep result) w'
          | (Raise e, w') =>
              process_loop api store_raw rest
                (add_failed rep {| job_success := false; job_error := Some e;
                                   job_creator := Some creator |}) w'
          end
      end
  end.

(** One turn of that loop as a function: the entry it appends for
    [creator] when it reaches it on world [w], and the world afterwards. *)
Definition process_one (api store_raw : bool) (creator : CreatorDict) (w : World)
    : JobResult * World :=
  let source := lower (or_empty (c_source creator)) in
  let profile_url := or_empty (c_profile_url creator) in
  match source, profile_url with
  | EmptyString, _ | _, EmptyString =>
      ({| job_success := false; job_error := Some "Missing source or profile_url";
          job_creator := Some creator |}, w)
  | _, _ =>
      match scrape_creator_profile source profile_url api store_raw w with
      | (Ret result, w') => (result, w')
      | (Raise e, w') =>
          ({| job_success := false; job_error := Some e;
              job_creator := Some creator |}, w')
      end
  end.

Definition record_entry (rep : BatchReport) (r : JobResult) : BatchReport :=
  if job_success r then add_successful rep r else add_failed rep r.

(** [process_creator_batch] *)
Definition process_creator_batch (creators : list CreatorDict) (api store_raw : bool)
    (w : World) : BatchReport * World :=
  let '(rep, w') :=
    process_loop api store_raw creators
      {| batch_success := true; total_creators := length creators;
         successful := 0; failed := 0; results := [] |} w in
  ({| batch_success := (failed rep =? 0)%nat; total_creators := total_creators rep;
      successful := successful rep; failed := failed rep; results := results rep |}, w').

(** The world on which [process_creator_batch] reaches its [i]-th
    candidate: the loop has run over the candidates before it. *)
Definition job_world_at (api store_raw : bool) (creators : list CreatorDict) (i : nat)
    (w : World) : World :=
  snd (process_loop api store_raw (take i creators)
         {| batch_success := true; total_creators := length creators;
            successful := 0; failed := 0; results := [] |} w).

(** A slot is either empty or holds what its own task produced on some
    state of the shared world. *)
Definition slots_ok (tasks : list (unit_of ScrapingResult)) (slots : list (option (raised ScrapingResult)))
  : Prop :=
  length slots = length tasks
  /\ forall i r, slots !! i = Some (Some r) ->
       exists t w_i, tasks !! i = Some t /\ r = fst (t w_i).

Definition filled (slots : list (option (raised ScrapingResult))) (i : nat) : Prop :=
  exists r, slots !! i = Some (Some r).

Definition missing_entry (c : CreatorDict) : JobResult :=
  {| job_success := false; job_error := Some "Missing source or profile_url"%string;
     job_creator := Some c |}.

Definition raised_entry (e : string) (c : CreatorDict) : JobResult :=
  {| job_success := false; job_error := Some e; job_creator := Some c |}.

(** The entry that [process_creator_batch] records for one candidate. *)
Definition entry_of (api store_raw : bool) (c : CreatorDict) (r : JobResult) : Prop :=
  let source := lower (or_empty (c_source c)) in
  let profile_url := or_empty (c_profile_url c) in
  ((source = EmptyString \/ profile_url = EmptyString) /\ r = missing_entry c)
  \/ (source <> EmptyString /\ profile_url <> EmptyString
      /\ exists w_i,
           match fst (scrape_creator_profile source profile_url api store_raw w_i) with
           | Ret x => r = x
           | Raise e => r = raised_entry e c
           end).

Definition successes (l : list JobResult) : nat := length (List.filter job_success l).

Definition failures (l : list JobResult) : nat :=
  length (List.filter (fun r => negb (job_success r)) l).

End Orchestrator.

Arguments Services : clear implicits.

(** A world that counts the requests made; Instagram profiles scrape,
    LinkedIn raises, the store accepts everything. *)
Definition sample_profile (u : string) : CreatorProfile :=
  {| source := "instagram"; profile_url := u; handle := None; niche := None;
     follower_count := Some 1000%Z; engagement_rate := None;
     top_posts := None; recent_posts_sample := None |}.

Definition sample_svc : Services nat :=
  {| use_api := true;
     instagram_scrape_profile := fun u _ n => (Ret (succeeded (sample_profile u) "scraping"), S n);
     linkedin_scrape_profile := fun _ _ n => (Raise "browser crashed", S n);
     upsert_creator := fun _ n => (Ret true, n) |}.

Definition sample_job : string -> string -> bool -> bool -> nat -> raised JobResult * nat :=
  fun src u _ _ n =>
    if String.eqb src "instagram"
    then (Ret {| job_success := true; job_error := None; job_creator := None |}, S n)
    else (Raise "worker crashed", S n).

Definition row (src u : string) : CreatorDict :=
  {| c_source := Some src; c_profile_url := Some u |}.

Definition five_creators : list CreatorDict :=
  [ row "instagram" "https://www.instagram.com/ana/";
    row "LinkedIn" "https://www.linkedin.com/in/bo/";
    {| c_source := None; c_profile_url := Some "https://www.instagram.com/cy/" |};
    row "Instagram" "https://www.instagram.com/dee/";
    row "tiktok" "https://www.tiktok.com/@eli" ].

Definition shuffled : list nat := [3; 0; 4; 1; 2]%nat.

End Batch.


(** ** utils/rate_limiter.py: [PlatformRateLimiter] *)

Module Registry.

Local Open Scope string_scope.

(** The dictionary key [f"{platform}_{method}"]. *)
Definition key (platform method : string) : string :=
  platform ++ "_" ++ method.

(** [PlatformRateLimiter._setup_default_limits]; every [RateLimiter(...)]
    reads the clock when it is constructed. *)
Definition _setup_default_limits (t1 t2 t3 t4 : Q) : gmap string RateLimiter.t :=
  <["linkedin_scraping" := RateLimiter.init (10 # 3600) 10 t4]>
  (<["linkedin_api" := RateLimiter.init (500 # 86400) 500 t3]>
   (<["instagram_scraping" := RateLimiter.init (20 # 3600) 20 t2]>
    (<["instagram_api" := RateLimiter.init (200 # 3600) 200 t1]> ∅))).

(** [PlatformRateLimiter.get_limiter(platform, method)], called when the
    clock reads [now]: the limiter returned and the dictionary afterwards. *)
Definition get_limiter (limiters : gmap string RateLimiter.t)
    (platform method : string) (now : Q) : RateLimiter.t * gmap string RateLimiter.t :=
  match limiters !! key platform method with
  | Some l => (l, limiters)
  | None =>
      let l := RateLimiter.init (10 # 3600) 10 now in
      (l, <[key platform method := l]> limiters)
  end.

(** The bucket object once [wait_for_tokens] has stopped: [acquire] updates
    it in place on every turn of the loop, also on the turn that ends in an
    exception. *)
Fixpoint bucket_after (fuel : nat) (self : RateLimiter.t) (clock : Q) (n : Z)
    : RateLimiter.t :=
  match fuel with
  | O => self
  | S fuel' =>
      let '(ok, self') := RateLimiter.acquire self clock n in
      if ok then self'
      else match RateLimiter.wait_time self' n with
           | Raise _ => self'
           | Ret d => bucket_after fuel' self' (clock + Qmax 0 d) n
           end
  end.

(** [PlatformRateLimiter.wait_for_platform(platform, method, tokens)]: the
    outcome of the wait and the dictionary afterwards, which holds the
    bucket object the wait has updated.  [created] is the clock reading of
    the constructor, should [get_limiter] make a bucket, [now] the reading
    of the first [acquire]. *)
Definition wait_for_platform (fuel : nat) (limiters : gmap string RateLimiter.t)
    (platform method : string) (n : Z) (created now : Q)
    : RateLimiter.wait_outcome * gmap string RateLimiter.t :=
  let '(l, limiters') := get_limiter limiters platform method created in
  (RateLimiter.wait_for_tokens fuel l now n,
   <[key platform method := bucket_after fuel l now n]> limiters').

End Registry.

(** ** Handle parsing: utils/parsers.py and sources/linkedin.py *)

Module Handles.

Import Instagram.

Local Open Scope string_scope.

(** [str.lstrip('@')] *)
Fixpoint lstrip_at (s : string) : string :=
  match s with
  | String c s' => if Ascii.eqb c "@"%char then lstrip_at s' else s
  | EmptyString => EmptyString
  end.

Definition in_range (lo hi : nat) (c : ascii) : bool :=
  (lo <=? nat_of_ascii c)%nat && (nat_of_ascii c <=? hi)%nat.

Definition is_alnum (c : ascii) : bool :=
  in_range 97 122 c || in_range 65 90 c || in_range 48 57 c.

(** The class [[a-zA-Z0-9._]]. *)
Definition is_ig_char (c : ascii) : bool :=
  is_alnum c || Ascii.eqb c "."%char || Ascii.eqb c "_"%char.

(** The class [[a-zA-Z0-9\-]]. *)
Definition is_li_char (c : ascii) : bool :=
  is_alnum c || Ascii.eqb c "-"%char.

(** After at least one class character: more class characters, then [$],
    which in Python matches at the end of the string and also just before
    a newline that ends the string. *)
Fixpoint class_then_end (cls : ascii -> bool) (s : string) : bool :=
  match s with
  | EmptyString => true
  | String c s' =>
      if cls c then class_then_end cls s'
      else Ascii.eqb c "010"%char && match s' with EmptyString => true | _ => false end
  end.

(** [re.match(r'^[cls]+$', s)] as a truth value. *)
Definition re_match_class (cls : ascii -> bool) (s : string) : bool :=
  match s with
  | EmptyString => false
  | String c s' => cls c && class_then_end cls s'
  end.

(** [parse_instagram_handle(url_or_handle)] *)
Definition parse_instagram_handle (url_or_handle : string) : option string :=
  match url_or_handle with
  | EmptyString => None
  | _ =>
      let handle := lstrip_at url_or_handle in
      let handle :=
        if contains "instagram.com" handle
        then match re_search handle with
             | Some g => g
             | None => handle
             end
        else handle in
      if re_match_class is_ig_char handle then Some handle else None
  end.

(** An anchored match of [<literal>([^/?]+)] at the head of [s]. *)
Definition match_lit_here (lit s : string) : option string :=
  if String.prefix lit s
  then match take_run (drop_chars (String.length lit) s) with
       | EmptyString => None
       | g => Some g
       end
  else None.

(** [re.search(<literal>([^/?]+), s)]: leftmost match, group 1. *)
Fixpoint re_search_lit (lit s : string) : option string :=
  match match_lit_here lit s with
  | Some g => Some g
  | None =>
      match s with
      | EmptyString => None
      | String _ s' => re_search_lit lit s'
      end
  end.

(** [LinkedInScraper._extract_handle] *)
Definition linkedin_extract_handle (profile_url : string) : option string :=
  if contains "linkedin.com/in/" profile_url
  then match re_search_lit "linkedin.com/in/" profile_url with
       | Some g => Some (strip_slash g)
       | None => None
       end
  else None.

(** [parse_linkedin_handle(url_or_handle)] *)
Definition parse_linkedin_handle (url_or_handle : string) : option string :=
  match url_or_handle with
  | EmptyString => None
  | _ =>
      match (if contains "linkedin.com/in/" url_or_handle
             then re_search_lit "linkedin.com/in/" url_or_handle
             else None) with
      | Some g => Some g
      | None =>
          if re_match_class is_li_char url_or_handle then Some url_or_handle else None
      end
  end.

(** No character of [s] is ['/'] or ['?']. *)
Fixpoint no_sep (s : string) : bool :=
  match s with
  | EmptyString => true
  | String c s' => negb (is_sep c) && no_sep s'
  end.

(** [needle] occurs in [s] at some offset. *)
Definition occurs (needle s : string) : Prop :=
  exists pre post, s = pre ++ needle ++ post.

(** Every character of [s] is in the class. *)
Fixpoint all_chars (cls : ascii -> bool) (s : string) : bool :=
  match s with
  | EmptyString => true
  | String c s' => cls c && all_chars cls s'
  end.

Definition newline : string := String "010"%char EmptyString.

End Handles.

(** ** Discovery by hashtag and the callers of discovery
    (sources/instagram_discovery.py, auto_scraper.py, cli.py) *)

Module DiscoveryCallers.

Import Discovery.

Local Open Scope Z_scope.

(** What one hashtag page shows. *)
Inductive tag_obs : Type :=
| TagGotoRaised (msg : string)
    (** navigation to the hashtag page raises *)
| TagScrollRaised (msg : string)
    (** scrolling or the handle extraction raises inside
        [_extract_creators_from_hashtag], before its loop *)
| TagHandles (creator_handles : list string)
             (info : string -> option (Z * option string)).

(** The [for hashtag in hashtags] loop of [discover_by_hashtag]. *)
Fixpoint hashtag_loop (max_creators_per_hashtag : Z) (tags : list tag_obs)
    (creators : list Creator) (seen : gset string) : list Creator * gset string :=
  match tags with
  | [] => (creators, seen)
  | TagGotoRaised _ :: rest | TagScrollRaised _ :: rest =>
      hashtag_loop max_creators_per_hashtag rest creators seen
  | TagHandles creator_handles info :: rest =>
      let '(hashtag_creators, seen') :=
        _extract_creators_from_hashtag info creator_handles max_creators_per_hashtag seen in
      hashtag_loop max_creators_per_hashtag rest (creators ++ hashtag_creators) seen'
  end.

(** [InstagramReelsDiscovery.discover_by_hashtag].  When the browser or the
    page cannot be opened the list is still empty; an exception of
    [page.close()] is caught and the collected list is returned all the
    same. *)
Definition discover_by_hashtag (open_raises : bool) (tags : list tag_obs)
    (max_creators_per_hashtag : Z) (seen : gset string) : list Creator * gset string :=
  if open_raises then ([], seen)
  else hashtag_loop max_creators_per_hashtag tags [] seen.

(** The "Remove duplicates" loop of [AutoScraperSystem.discover_creators] and of
    [discover_instagram_creators]. *)
Fixpoint dedupe (creators unique_creators : list Creator) (seen_handles : gset string)
    : list Creator :=
  match creators with
  | [] => unique_creators
  | creator :: rest =>
      if decide (handle creator ∈ seen_handles)
      then dedupe rest unique_creators seen_handles
      else dedupe rest (unique_creators ++ [creator]) ({[handle creator]} ∪ seen_handles)
  end.

Definition remove_duplicates (creators : list Creator) : list Creator :=
  dedupe creators [] ∅.

(** The candidates a step presents to the inner loop. *)
Definition extracted (s : Step) : list Creator :=
  match obs s with
  | Extracted new_creators => new_creators
  | ScrollRaised _ => []
  end.

(** Everything the feed showed during a session, in order. *)
Definition feed (world : list Step) : list Creator := concat (map extracted world).

(** The URL under which discovery files a handle. *)
Definition url_of (h : string) : string :=
  ("https://www.instagram.com/" ++ h ++ "/")%string.

(** [ten_candidates] with a page that fails to close. *)
Definition closing_fails : Session :=
  {| open_raises := false; start_time := start_time ten_candidates;
     steps := steps ten_candidates; close_raises := true |}.

Definition is_returned (r : loop_result) : bool :=
  match r with
  | Returned _ => true
  | _ => false
  end.

(** A creator as hashtag discovery files it. *)
Definition filed (seen : gset string) (c : Creator) : Prop :=
  profile_url c = url_of (handle c) /\ handle c ∉ seen.

(** Two hashtag pages that overlap, with a profile visit that fails. *)
Definition sample_info (h : string) : option (Z * option string) :=
  if String.eqb h "gone" then None else Some (1500, Some "Tech"%string).

Definition sample_tags : list tag_obs :=
  [ TagHandles ["ana"; "bo"; "gone"; "cy"]%string sample_info;
    TagGotoRaised "timeout";
    TagHandles ["bo"; "dee"; "ana"; "eli"]%string sample_info ].

Definition sample_filed : Creator :=
  {| handle := "ana"; profile_url := url_of "ana";
     follower_count := Some 1500; niche := Some "Tech"%string |}.

End DiscoveryCallers.

(** ** Callers of the batch: run_scraper.py (CSV entry point) and
    tasks/worker.py (one job per candidate) *)

Module BatchCallers.

Import Schemas Batch.

Local Open Scope string_scope.

Section Callers.

Context {World : Type} {L : StrLower}.

Variable svc : Services World.

(** [c['source'].lower() in [s.lower() for s in sources]] on a loaded row
    ([_load_creators_from_csv] only builds rows with both keys). *)
Definition source_matches (sources : list string) (c : string * string) : bool :=
  existsb (String.eqb (lower (fst c))) (map lower sources).

(** The "Filter by sources if specified" step: [None] and the empty list
    leave the rows as they are. *)
Definition filter_sources (sources : option (list string))
    (creators : list (string * string)) : list (string * string) :=
  match sources with
  | Some (s :: l) => List.filter (source_matches (s :: l)) creators
  | _ => creators
  end.

Definition to_dict (c : string * string) : CreatorDict :=
  {| c_source := Some (fst c); c_profile_url := Some (snd c) |}.

(** [CreatorScraperOrchestrator.scrape_creators_from_csv] on the rows that
    [_load_creators_from_csv] returned. *)
Definition scrape_creators_from_csv (loaded : list (string * string))
    (sources : option (list string)) (order : list nat) (w : World)
    : option (list ScrapingResult) * World :=
  match loaded with
  | [] => (Some [], w)
  | _ => scrape_creators_batch svc (map to_dict (filter_sources sources loaded)) order w
  end.

(** *** tasks/worker.py *)

(** The dictionary returned by a scraping job (without its timestamp). *)
Record WorkerResult : Type := mkWorkerResult {
  w_success : bool;
  w_profile : option CreatorProfile;
  w_error : option string;
  w_method_used : option string;
  w_db_saved : option bool;
  w_source : string;
  w_profile_url : string
}.

Definition worker_failure (e : option string) (method : option string)
    (source profile_url : string) : WorkerResult :=
  {| w_success := false; w_profile := None; w_error := e; w_method_used := method;
     w_db_saved := None; w_source := source; w_profile_url := profile_url |}.

(** [_scrape_profile_async]; [use_api] is the argument of the job, the
    scrapers and the store are those of [svc].  [store_raw] only ever
    writes the [raw] field of the profile, which the profile record of
    this development does not carry: profiles are compared up to [raw]. *)
Definition _scrape_profile_async (source profile_url : string) (api : bool) (w : World)
    : WorkerResult * World :=
  let run scraper :=
    match scraper profile_url api w with
    | (Raise e, w1) => (worker_failure (Some e) None source profile_url, w1)
    | (Ret result, w1) =>
        match success result, profile result with
        | true, Some p =>
            match upsert_creator svc p w1 with
            | (Raise e, w2) => (worker_failure (Some e) None source profile_url, w2)
            | (Ret db_success, w2) =>
                ({| w_success := true; w_profile := Some p; w_error := None;
                    w_method_used := method_used result; w_db_saved := Some db_success;
                    w_source := source; w_profile_url := profile_url |}, w2)
            end
        | _, _ =>
            (worker_failure (error result) (method_used result) source profile_url, w1)
        end
    end in
  if String.eqb (lower source) "instagram" then run (instagram_scrape_profile svc)
  else if String.eqb (lower source) "linkedin" then run (linkedin_scrape_profile svc)
  else (worker_failure (Some ("Unsupported source: " ++ source)) None source profile_url, w).

(** What surrounds the asynchronous part in [scrape_creator_profile]:
    connecting the store before it and closing the scrapers after it may
    raise ([Some msg]). *)
Variable connect_store : World -> option string.
Variable close_scrapers : World -> option string * World.

(** [scrape_creator_profile(source, profile_url, use_api, store_raw)] *)
Definition scrape_creator_profile (source profile_url : string) (api store_raw : bool)
    (w : World) : WorkerResult * World :=
  match connect_store w with
  | Some e => (worker_failure (Some e) None source profile_url, w)
  | None =>
      let '(result, w1) := _scrape_profile_async source profile_url api w in
      match close_scrapers w1 with
      | (Some e, w2) => (worker_failure (Some e) None source profile_url, w2)
      | (None, w2) => (result, w2)
      end
  end.

(** The entry of the batch report that a job result becomes. *)
Definition to_job (r : WorkerResult) : JobResult :=
  {| job_success := w_success r; job_error := w_error r; job_creator := None |}.

Definition job_of (source profile_url : string) (api store_raw : bool) (w : World)
    : raised JobResult * World :=
  let '(r, w') := scrape_creator_profile source profile_url api store_raw w in
  (Ret (to_job r), w').

End Callers.

(** The orchestrator configured with the [use_api] flag of a job. *)
Definition with_use_api {World : Type} (api : bool) (svc : Services World) : Services World :=
  {| use_api := api;
     instagram_scrape_profile := instagram_scrape_profile svc;
     linkedin_scrape_profile := linkedin_scrape_profile svc;
     upsert_creator := upsert_creator svc |}.

(** Successful results carry a profile, as every [ScrapingResult(success=True, ...)]
    built by the two scrapers does. *)
Definition well_formed_result (r : ScrapingResult) : Prop :=
  success r = true -> exists p, profile r = Some p.

Definition scrapers_well_formed {World : Type} (svc : Services World) : Prop :=
  forall u api w r,
    (fst (instagram_scrape_profile svc u api w) = Ret r -> well_formed_result r)
    /\ (fst (linkedin_scrape_profile svc u api w) = Ret r -> well_formed_result r).

Definition three_rows : list (string * string) :=
  [ ("Instagram", "https://www.instagram.com/ana/");
    ("linkedin", "https://www.linkedin.com/in/bo/");
    ("instagram", "https://www.instagram.com/cy/") ].

(** ["linKedin"] written with U+212A KELVIN SIGN for its fourth letter. *)
Definition kelvin_linkedin : string :=
  "lin" ++ String "226" (String "132" (String "170" "edin")).

(** The sample services with a store that refuses every record. *)
Definition refusing_svc : Services nat :=
  {| use_api := true;
     instagram_scrape_profile := instagram_scrape_profile sample_svc;
     linkedin_scrape_profile := linkedin_scrape_profile sample_svc;
     upsert_creator := fun _ n => (Ret false, n) |}.

End BatchCallers.

(** ** utils/proxy_manager.py *)

Module ProxyManager.

Record t : Type := mk {
  proxies : list string;
  current_index : nat;
  failed_proxies : gset string
}.

(** [ProxyManager.__init__(proxy_list)] *)
Definition init (proxy_list : option (list string)) : t :=
  {| proxies := match proxy_list with Some l => l | None => [] end;
     current_index := 0; failed_proxies := ∅ |}.

(** [[p for p in self.proxies if p not in self.failed_proxies]] *)
Definition working (self : t) : list string :=
  List.filter (fun p => bool_decide (p ∉ failed_proxies self)) (proxies self).

(** [get_next_proxy] *)
Definition get_next_proxy (self : t) : option string * t :=
  match working self with
  | [] => (None, self)
  | w :: ws =>
      ((w :: ws) !! (current_index self mod length (w :: ws)),
       {| proxies := proxies self; current_index := S (current_index self);
          failed_proxies := failed_proxies self |})
  end.

(** [get_random_proxy]; [pick] is the index drawn by [random.choice]. *)
Definition get_random_proxy (self : t) (pick : nat) : option string :=
  match working self with
  | [] => None
  | w :: ws => (w :: ws) !! (pick mod length (w :: ws))
  end.

(** [mark_proxy_failed] *)
Definition mark_proxy_failed (self : t) (proxy_url : string) : t :=
  {| proxies := proxies self; current_index := current_index self;
     failed_proxies := {[proxy_url]} ∪ failed_proxies self |}.

(** [reset_failed_proxies] *)
Definition reset_failed_proxies (self : t) : t :=
  {| proxies := proxies self; current_index := current_index self; failed_proxies := ∅ |}.

Definition get_proxy_count (self : t) : nat := length (proxies self).

Definition get_working_proxy_count (self : t) : nat := length (working self).

(** The loop of [test_all_proxies]; the list pairs every proxy of
    [self.proxies] with the answer of [test_proxy] for it. *)
Fixpoint test_loop (tested : list (string * bool)) (working_proxies : list string)
    (failed : gset string) : list string * gset string :=
  match tested with
  | [] => (working_proxies, failed)
  | (proxy, true) :: rest => test_loop rest (working_proxies ++ [proxy]) failed
  | (proxy, false) :: rest => test_loop rest working_proxies ({[proxy]} ∪ failed)
  end.

(** [test_all_proxies]; [answers] are the outcomes of [test_proxy], one per
    entry of [self.proxies]. *)
Definition test_all_proxies (self : t) (answers : list bool) : list string * t :=
  let '(working_proxies, failed) :=
    test_loop (combine (proxies self) answers) [] (failed_proxies self) in
  (working_proxies,
   {| proxies := proxies self; current_index := current_index self;
      failed_proxies := failed |}).

(** [n] consecutive calls of [get_next_proxy]. *)
Fixpoint next_n (n : nat) (self : t) : list (option string) :=
  match n with
  | O => []
  | S n' => fst (get_next_proxy self) :: next_n n' (snd (get_next_proxy self))
  end.

Definition three_proxies : t :=
  {| proxies := ["http://a:1"; "http://b:2"; "socks5://c:3"]%string;
     current_index := 7; failed_proxies := {["http://b:2"%string]} |}.

End ProxyManager.

(** ** utils/ua_rotation.py *)

Module UserAgent.

Import Instagram.

Local Open Scope string_scope.

Record t : Type := mk {
  agents : list string;
  current_index : nat
}.

(** [random.choice(seq)] with the drawn index [pick]; an empty sequence
    raises [IndexError]. *)
Definition choice (seq : list string) (pick : nat) : raised string :=
  match seq with
  | [] => Raise "IndexError"
  | a :: l =>
      match (a :: l) !! (pick mod length (a :: l)) with
      | Some x => Ret x
      | None => Raise "IndexError"
      end
  end.

(** [get_random_agent] *)
Definition get_random_agent (self : t) (pick : nat) : raised string :=
  choice (agents self) pick.

(** [get_next_agent]: the subscript raises [IndexError] when the index is
    out of range. *)
Definition get_next_agent (self : t) : raised string * t :=
  match agents self !! current_index self with
  | None => (Raise "IndexError", self)
  | Some agent =>
      (Ret agent,
       {| agents := agents self;
          current_index := S (current_index self) mod length (agents self) |})
  end.

Definition is_chrome (agent : string) : bool :=
  contains "Chrome" agent && negb (contains "Edg" agent).

Definition is_firefox (agent : string) : bool := contains "Firefox" agent.

(** [get_agent_for_platform(platform)] *)
Definition get_agent_for_platform {L : StrLower} (self : t) (platform : string) (pick : nat)
    : raised string :=
  if String.eqb (lower platform) "instagram"
  then match List.filter is_chrome (agents self) with
       | [] => get_random_agent self pick
       | chrome_agents => choice chrome_agents pick
       end
  else if String.eqb (lower platform) "linkedin"
  then match List.filter is_firefox (agents self) with
       | [] => get_random_agent self pick
       | firefox_agents => choice firefox_agents pick
       end
  else get_random_agent self pick.

(** [add_agent] *)
Definition add_agent (self : t) (agent : string) : t :=
  if bool_decide (agent ∈ agents self) then self
  else {| agents := agents self ++ [agent]; current_index := current_index self |}.

(** [list.remove(x)]: the first occurrence. *)
Fixpoint remove_first (x : string) (l : list string) : list string :=
  match l with
  | [] => []
  | y :: l' => if String.eqb x y then l' else y :: remove_first x l'
  end.

(** [remove_agent] *)
Definition remove_agent (self : t) (agent : string) : t :=
  if bool_decide (agent ∈ agents self)
  then {| agents := remove_first agent (agents self); current_index := current_index self |}
  else self.

(** The index is a valid subscript. *)
Definition index_ok (self : t) : Prop :=
  (current_index self < length (agents self))%nat.

Definition three_agents : t :=
  {| agents := ["Mozilla Chrome/120"; "Mozilla Firefox/121"; "Mozilla Chrome/120 Edg/120"];
     current_index := 2 |}.

End UserAgent.

(** * Properties *)

(** ** Rate budget *)

Module RateLimiterFacts.

Import RateLimiter.

Local Open Scope Q_scope.

Lemma init_in_range (r : Q) (cap : Z) (now : Q) :
  (0 <= cap)%Z -> in_range (init r cap now).
Proof.
  intros Hcap. unfold in_range, init; simpl. split.
  - change 0 with (inject_Z 0). rewrite <- Zle_Qle. exact Hcap.
  - apply Qle_refl.
Qed.

Lemma acquire_rate (self : t) (now : Q) (n : Z) :
  rate (snd (acquire self now n)) = rate self.
Proof. unfold acquire. destruct (Qle_bool _ _); reflexivity. Qed.

Lemma acquire_capacity (self : t) (now : Q) (n : Z) :
  capacity (snd (acquire self now n)) = capacity self.
Proof. unfold acquire. destruct (Qle_bool _ _); reflexivity. Qed.

Lemma acquire_last_update (self : t) (now : Q) (n : Z) :
  last_update (snd (acquire self now n)) = now.
Proof. unfold acquire. destruct (Qle_bool _ _); reflexivity. Qed.

(** The refill never exceeds the capacity and keeps a non-negative level
    non-negative when neither the clock nor the rate is negative. *)
Lemma refill_bounds (self : t) (now : Q) :
  in_range self -> 0 <= rate self -> last_update self <= now ->
  let refilled := Qmin (inject_Z (capacity self))
                       (tokens self + (now - last_update self) * rate self) in
  0 <= refilled /\ refilled <= inject_Z (capacity self).
Proof.
  intros [Hlo Hhi] Hrate Hclock refilled. subst refilled.
  assert (Hgain : 0 <= (now - last_update self) * rate self).
  { apply Qmult_le_0_compat; [lra | exact Hrate]. }
  split.
  - apply Q.min_glb; lra.
  - apply Q.le_min_l.
Qed.

(** One [acquire] preserves the invariant. *)
Lemma acquire_in_range (self : t) (now : Q) (n : Z) :
  in_range self -> 0 <= rate self -> last_update self <= now -> (1 <= n)%Z ->
  in_range (snd (acquire self now n)).
Proof.
  intros Hin Hrate Hclock Hn.
  destruct (refill_bounds self now Hin Hrate Hclock) as [Hlo Hhi].
  assert (Hn' : 1 <= inject_Z n).
  { change 1 with (inject_Z 1). rewrite <- Zle_Qle. exact Hn. }
  unfold acquire, in_range.
  destruct (Qle_bool (inject_Z n) _) eqn:Hok; simpl.
  - apply Qle_bool_iff in Hok. split; lra.
  - split; assumption.
Qed.

Lemma run_in_range (calls : list (Q * Z)) :
  forall self : t,
    in_range self -> 0 <= rate self -> well_timed (last_update self) calls ->
    Forall (fun res => in_range (snd res)) (run self calls).
Proof.
  induction calls as [| [now n] rest IH]; intros self Hin Hrate Hwt; simpl.
  - constructor.
  - destruct Hwt as (Hclock & Hn & Hrest).
    constructor.
    + apply acquire_in_range; assumption.
    + apply IH.
      * apply acquire_in_range; assumption.
      * rewrite acquire_rate. exact Hrate.
      * rewrite acquire_last_update. exact Hrest.
Qed.

(** What one [acquire(n)] with [n >= 1] guarantees of any bucket at any
    clock reading. *)
Lemma acquire_bounds (self : t) (now : Q) (n : Z) :
  (1 <= n)%Z ->
  tokens (snd (acquire self now n)) <= inject_Z (capacity self)
  /\ (fst (acquire self now n) = true -> 0 <= tokens (snd (acquire self now n))).
Proof.
  intros Hn.
  assert (Hn' : 1 <= inject_Z n).
  { change 1 with (inject_Z 1). rewrite <- Zle_Qle. exact Hn. }
  pose proof (Q.le_min_l (inject_Z (capacity self))
                (tokens self + (now - last_update self) * rate self)) as Hcap.
  unfold acquire.
  destruct (Qle_bool (inject_Z n) _) eqn:Hok; simpl.
  - apply Qle_bool_iff in Hok. split; [lra |]. intros _. lra.
  - split; [exact Hcap | discriminate].
Qed.

Lemma run_bounds (calls : list (Q * Z)) :
  forall self : t,
    Forall (fun c => (1 <= snd c)%Z) calls ->
    Forall (fun res => capacity (snd res) = capacity self
                       /\ tokens (snd res) <= inject_Z (capacity self)
                       /\ (fst res = true -> 0 <= tokens (snd res)))
           (run self calls).
Proof.
  induction calls as [| [now n] rest IH]; intros self Hn; simpl; [constructor |].
  apply Forall_cons in Hn. destruct Hn as [Hn Hrest]. simpl in Hn.
  destruct (acquire_bounds self now n Hn) as [Hhi Hlo].
  constructor.
  - split; [apply acquire_capacity |]. split; assumption.
  - specialize (IH (snd (acquire self now n)) Hrest).
    rewrite acquire_capacity in IH. exact IH.
Qed.

(** The claim fails as it is written.  A bucket of ten tokens drained at
    clock reading 100 and asked again at reading 95, the wall clock having
    been set back, is left with minus five tokens; and a bucket built with
    a negative rate is left with minus ten tokens by a call at reading 20. *)
Lemma tokens_negative_after_clock_step_back :
  ~ stays_in_range (init 1 10 100) stepping_back
  /\ ~ stays_in_range (init (-1) 10 0) [(20, 1%Z)].
Proof.
  unfold stays_in_range, stepping_back. split; intros H.
  - apply Forall_cons in H. destruct H as [_ H].
    apply Forall_cons in H. destruct H as [[Hlo _] _].
    vm_compute in Hlo. apply Hlo. reflexivity.
  - apply Forall_cons in H. destruct H as [[Hlo _] _].
    vm_compute in Hlo. apply Hlo. reflexivity.
Qed.

(** C1 (as the code has it). For every bucket and every finite sequence of
    [acquire(n)] calls with [n >= 1], at any clock readings, the capacity
    is unchanged, [tokens] never exceeds it after a call and is not
    negative after a successful call.  When moreover the rate is not
    negative, the bucket starts within [0, capacity] and the clock
    readings of successive calls do not decrease, [tokens] stays within
    [0, capacity] after each call. *)
Theorem acquire_keeps_tokens_in_range (self : t) (calls : list (Q * Z)) :
  Forall (fun c => (1 <= snd c)%Z) calls ->
  Forall (fun res => capacity (snd res) = capacity self
                     /\ tokens (snd res) <= inject_Z (capacity self)
                     /\ (fst res = true -> 0 <= tokens (snd res)))
         (run self calls)
  /\ (0 <= rate self -> in_range self -> well_timed (last_update self) calls ->
      Forall (fun res => in_range (snd res)) (run self calls)).
Proof.
  intros Hn. split; [exact (run_bounds calls self Hn) |].
  intros Hrate Hin Hwt. exact (run_in_range calls self Hin Hrate Hwt).
Qed.

Lemma acquire_keeps_tokens_in_range_witness :
  Forall (fun res => in_range (snd res)) (run (init (20 # 3600) 20 0) sample_calls)
  /\ Forall (fun res => tokens (snd res) <= 10) (run (init 1 10 100) stepping_back).
Proof.
  split.
  - apply (acquire_keeps_tokens_in_range (init (20 # 3600) 20 0) sample_calls).
    + repeat constructor; simpl; lia.
    + discriminate.
    + apply init_in_range. lia.
    + simpl. repeat split; try lia; discriminate.
  - assert (H : Forall (fun c : Q * Z => (1 <= snd c)%Z) stepping_back)
      by (repeat constructor; simpl; lia).
    destruct (acquire_keeps_tokens_in_range (init 1 10 100) stepping_back H) as [Hb _].
    rewrite Forall_forall in Hb |- *. intros res Hres.
    destruct (Hb res Hres) as (_ & Hhi & _). exact Hhi.
Defined.

Lemma failed_acquire_short (self : t) (now : Q) (n : Z) :
  fst (acquire self now n) = false ->
  tokens (snd (acquire self now n)) < inject_Z n.
Proof.
  unfold acquire. destruct (Qle_bool (inject_Z n) _) eqn:Hok; simpl; [discriminate |].
  intros _. apply Qnot_le_lt. intros Hle.
  apply Qle_bool_iff in Hle. congruence.
Qed.

(** C7. With capacity 10 and rate 10/3600, starting full, ten immediate
    [acquire(1)] succeed and the eleventh, with no time elapsed, fails; the
    [wait_for_tokens(1)] issued next computes a wait of 360 seconds and
    acquires after that single sleep.  For every limiter with a positive
    rate the wait computed after a refused [acquire(n)] is positive. *)
Theorem hourly_budget_burst_then_wait :
  map fst (run hourly (burst 11)) = repeat true 10 ++ [false]
  /\ (exists d self clock,
        wait_for_tokens 2 drained 0 1 = Acquired [d] self clock
        /\ d == 360 /\ clock == 360)
  /\ (forall (self : t) (now : Q) (n : Z),
        0 < rate self ->
        fst (acquire self now n) = false ->
        exists d, wait_time (snd (acquire self now n)) n = Ret d /\ 0 < d).
Proof.
  split; [| split].
  - vm_compute. reflexivity.
  - eexists _, _, _. split; [vm_compute; reflexivity |].
    split; vm_compute; reflexivity.
  - intros self now n Hrate Hfail.
    pose proof (failed_acquire_short self now n Hfail) as Hshort.
    unfold wait_time. rewrite acquire_rate.
    destruct (Qeq_bool (rate self) 0) eqn:Hz.
    + apply Qeq_bool_iff in Hz. rewrite Hz in Hrate. discriminate.
    + eexists. split; [reflexivity |].
      unfold Qdiv. apply Qmult_lt_0_compat; [lra |].
      apply Qinv_lt_0_compat. exact Hrate.
Qed.

Lemma hourly_budget_burst_then_wait_witness :
  exists d, wait_time (snd (acquire drained 0 1)) 1 = Ret d /\ 0 < d.
Proof.
  destruct hourly_budget_burst_then_wait as (_ & _ & Hwait).
  apply (Hwait drained 0 1%Z); vm_compute; reflexivity.
Defined.

End RateLimiterFacts.

(** ** Engagement rates *)

Module EngagementFacts.

Import Schemas Parsers.

Local Open Scope Q_scope.

Lemma clamp_in_unit (x : Q) : 0 <= x -> 0 <= Qmin 1 x /\ Qmin 1 x <= 1.
Proof.
  intros Hx. split.
  - apply Q.min_glb; lra.
  - apply Q.le_min_l.
Qed.

Lemma ratio_nonneg (a b : Z) : (0 <= a)%Z -> (0 < b)%Z -> 0 <= inject_Z a / inject_Z b.
Proof.
  intros Ha Hb. unfold Qdiv.
  apply Qmult_le_0_compat.
  - change 0 with (inject_Z 0). rewrite <- Zle_Qle. exact Ha.
  - apply Qinv_le_0_compat. change 0 with (inject_Z 0). rewrite <- Zle_Qle. lia.
Qed.

Lemma or0_nonneg (x : option Z) :
  (forall z, x = Some z -> (0 <= z)%Z) -> (0 <= or0 x)%Z.
Proof. destruct x as [z |]; simpl; intros H; [apply H; reflexivity | lia]. Qed.

(** [parse_engagement_rate] clamps: with non-negative counts its result,
    when there is one, lies in [0, 1]. *)
Lemma parse_engagement_rate_in_unit (likes comments followers : option Z) (q : Q) :
  (forall z, likes = Some z -> (0 <= z)%Z) ->
  (forall z, comments = Some z -> (0 <= z)%Z) ->
  parse_engagement_rate likes comments followers = Some q ->
  0 <= q /\ q <= 1.
Proof.
  intros Hl Hc. unfold parse_engagement_rate.
  destruct followers as [f |]; [| discriminate].
  destruct (f <=? 0)%Z eqn:Hf; [discriminate |].
  apply Z.leb_gt in Hf. intros [= <-].
  apply clamp_in_unit, ratio_nonneg; [| exact Hf].
  pose proof (or0_nonneg likes Hl). pose proof (or0_nonneg comments Hc). lia.
Qed.

Lemma total_engagement_nonneg (posts : list Post) :
  Forall counts_nonneg posts ->
  (0 <= sumZ (map (fun post => (or0 (likes post) + or0 (comments post))%Z) posts))%Z.
Proof.
  induction 1 as [| p rest [Hl Hc] _ IH]; simpl; lia.
Qed.

(** The overall rate of the Instagram API path clamps as well. *)
Lemma api_engagement_rate_in_unit (posts : list Post) (fc : Z) (q : Q) :
  Forall counts_nonneg posts ->
  api_engagement_rate posts fc = Some q ->
  0 <= q /\ q <= 1.
Proof.
  intros Hposts. unfold api_engagement_rate.
  destruct posts as [| p rest]; [discriminate |].
  destruct (0 <? fc)%Z eqn:Hf; [| discriminate].
  apply Z.ltb_lt in Hf. intros [= <-].
  apply clamp_in_unit, ratio_nonneg.
  - exact (total_engagement_nonneg (p :: rest) Hposts).
  - simpl length. lia.
Qed.

(** The tests of test_parsers.py that concern the rate. *)
Example parse_engagement_rate_test :
  (exists q, parse_engagement_rate (Some 100%Z) (Some 50%Z) (Some 1000%Z) = Some q
             /\ q == 15 # 100)
  /\ parse_engagement_rate (Some 100%Z) (Some 50%Z) (Some 0%Z) = None
  /\ parse_engagement_rate (Some 100%Z) (Some 50%Z) None = None.
Proof.
  split; [| split]; try reflexivity.
  eexists. split; [reflexivity | vm_compute; reflexivity].
Qed.

Lemma validate_engagement_rate_in_unit (q : Q) :
  validate_engagement_rate (Some q) = true -> 0 <= q /\ q <= 1.
Proof.
  simpl. intros H. apply andb_true_iff in H. destruct H as [H0 H1].
  split; apply Qle_bool_iff; assumption.
Qed.

(** What an accepted profile is: every field validator passed, the fields
    are those given (the source lower-cased), and either a rate was given
    or there is no post from which one could be derived. *)
Lemma make_profile_ret {L : StrLower} (fields p : CreatorProfile) :
  make_profile fields = Ret p ->
  validate_source (source fields) = true
  /\ is_http (profile_url fields) = true
  /\ validate_engagement_rate (engagement_rate fields) = true
  /\ validate_posts (top_posts fields) = true
  /\ validate_posts (recent_posts_sample fields) = true
  /\ p = {| source := lower (source fields); profile_url := profile_url fields;
            handle := handle fields; niche := niche fields;
            follower_count := follower_count fields;
            engagement_rate := engagement_rate fields;
            top_posts := top_posts fields;
            recent_posts_sample := recent_posts_sample fields |}
  /\ (engagement_rate fields = None ->
      top_posts fields = None \/ top_posts fields = Some []).
Proof.
  unfold make_profile, calculate_engagement_rate, validated_values. simpl.
  destruct (validate_source (source fields)) eqn:Hs;
    destruct (is_http (profile_url fields)) eqn:Hu;
    destruct (validate_engagement_rate (engagement_rate fields)) eqn:Hr;
    destruct (validate_posts (top_posts fields)) eqn:Ht;
    destruct (validate_posts (recent_posts_sample fields)) eqn:Hp;
    destruct (engagement_rate fields) as [q |] eqn:Hq;
    destruct (top_posts fields) as [[| post posts] |] eqn:Htop;
    simpl; try discriminate;
    intros [= <-]; repeat split; auto; discriminate.
Qed.

(** C6. Every derivation path that can populate an engagement rate yields a
    value in [0, 1].  The rate of a [Post] built by the Instagram API path
    is [parse_engagement_rate], the rate of the profile built there is the
    overall rate [min(1.0, total / (followers * len(posts)))]: both are 1
    when likes plus comments reach or exceed the denominator, both lie in
    [0, 1] for non-negative counts, and whatever the counts the [Post] or
    profile that is constructed carries a rate in [0, 1].  The root
    validator of [CreatorProfile] never populates the field: an accepted
    profile carries the rate that was passed, and a profile without a rate
    and with a post raises [AttributeError]. *)
Theorem derived_engagement_rate_in_unit {L : StrLower} :
  (forall (likes comments followers : option Z) (q : Q),
      (0 <= or0 likes)%Z -> (0 <= or0 comments)%Z ->
      parse_engagement_rate likes comments followers = Some q -> 0 <= q /\ q <= 1)
  /\ (forall (likes comments : option Z) (f : Z),
        (0 < f)%Z -> (f <= or0 likes + or0 comments)%Z ->
        exists q, parse_engagement_rate likes comments (Some f) = Some q /\ q == 1)
  /\ (forall (u : string) (ts likes comments followers : option Z)
             (cap : option string) (post : Post) (q : Q),
        make_post {| url := u; timestamp := ts; likes := likes; comments := comments;
                     caption := cap;
                     post_engagement_rate :=
                       parse_engagement_rate likes comments followers |} = Ret post ->
        post_engagement_rate post = Some q ->
        parse_engagement_rate likes comments followers = Some q /\ 0 <= q /\ q <= 1)
  /\ (forall (posts : list Post) (fc : Z) (q : Q),
        Forall counts_nonneg posts ->
        api_engagement_rate posts fc = Some q -> 0 <= q /\ q <= 1)
  /\ (forall (posts : list Post) (fc : Z),
        posts <> [] -> (0 < fc)%Z ->
        (fc * Z.of_nat (length posts)
         <= sumZ (map (fun post => or0 (likes post) + or0 (comments post)) posts))%Z ->
        exists q, api_engagement_rate posts fc = Some q /\ q == 1)
  /\ (forall (fields p : CreatorProfile),
        make_profile fields = Ret p ->
        engagement_rate p = engagement_rate fields
        /\ forall q, engagement_rate p = Some q -> 0 <= q /\ q <= 1)
  /\ (forall (fields : CreatorProfile) (post : Post) (posts : list Post),
        engagement_rate fields = None ->
        top_posts fields = Some (post :: posts) ->
        (length (post :: posts) <= 10)%nat ->
        make_profile fields = Raise "'Post' object has no attribute 'get'").
Proof.
  assert (Hone : forall a b : Z, (0 < b)%Z -> (b <= a)%Z ->
                   Qmin 1 (inject_Z a / inject_Z b) == 1).
  { intros a b Hb Hab. apply Q.min_l.
    assert (Hb' : 0 < inject_Z b) by (change 0 with (inject_Z 0); rewrite <- Zlt_Qlt; exact Hb).
    apply Qle_shift_div_l; [exact Hb' |]. rewrite Qmult_1_l, <- Zle_Qle. exact Hab. }
  split; [| split; [| split; [| split; [| split; [| split]]]]].
  - intros likes comments followers q Hl Hc.
    apply parse_engagement_rate_in_unit.
    + intros z ->. exact Hl.
    + intros z ->. exact Hc.
  - intros likes comments f Hf Hge. unfold parse_engagement_rate.
    destruct (f <=? 0)%Z eqn:Hle; [apply Z.leb_le in Hle; lia |].
    eexists. split; [reflexivity |]. apply Hone; assumption.
  - intros u ts likes comments followers cap post q.
    unfold make_post. simpl.
    destruct (is_http u); simpl; [| discriminate].
    destruct (validate_engagement_rate (parse_engagement_rate likes comments followers))
      eqn:Hv; simpl; [| discriminate].
    intros [= <-]. simpl. intros Hq. rewrite Hq in Hv.
    split; [exact Hq |]. apply validate_engagement_rate_in_unit. exact Hv.
  - intros posts fc q. apply api_engagement_rate_in_unit.
  - intros posts fc Hne Hfc Hge. unfold api_engagement_rate.
    destruct posts as [| post rest]; [contradiction |].
    destruct (0 <? fc)%Z eqn:Hpos; [| apply Z.ltb_ge in Hpos; lia].
    eexists. split; [reflexivity |]. apply Hone; [| exact Hge].
    simpl length. lia.
  - intros fields p Hp.
    destruct (make_profile_ret fields p Hp) as (_ & _ & Hr & _ & _ & -> & _). simpl.
    split; [reflexivity |]. intros q Hq. rewrite Hq in Hr.
    apply validate_engagement_rate_in_unit. exact Hr.
  - intros fields post posts Hrate Htop Hlen.
    unfold make_profile, calculate_engagement_rate, validated_values. simpl.
    rewrite Hrate, Htop. simpl.
    destruct (length posts <=? 9)%nat eqn:Hle; [reflexivity |].
    apply Nat.leb_gt in Hle. simpl in Hlen. lia.
Qed.

(** The article of the LinkedIn test, 1010 interactions for 500 followers:
    [parse_engagement_rate] gives 1, the overall rate of the API path gives
    1, and the constructor called without a rate raises instead of
    deriving 1010/500. *)
Example viral_rates :
  (exists q, parse_engagement_rate (Some 1000%Z) (Some 10%Z) (Some 500%Z) = Some q /\ q == 1)
  /\ (exists q, api_engagement_rate [viral_article] 500 = Some q /\ q == 1)
  /\ make_profile viral_profile = Raise "'Post' object has no attribute 'get'".
Proof.
  split; [| split].
  - eexists. split; [reflexivity | vm_compute; reflexivity].
  - eexists. split; [reflexivity | vm_compute; reflexivity].
  - reflexivity.
Qed.

End EngagementFacts.

(** ** Scrape protocol *)

Module InstagramFacts.

Import Schemas Instagram.

Local Open Scope string_scope.
Local Open Scope list_scope.

(** The handle tests of test_instagram.py, on the URLs whose expected
    value the code produces. *)
Example extract_handle_tests :
  _extract_handle "https://www.instagram.com/username/" = Some "username"
  /\ _extract_handle "https://instagram.com/username" = Some "username"
  /\ _extract_handle "https://www.instagram.com/username/?hl=en" = Some "username"
  /\ _extract_handle "" = None
  /\ _extract_handle "not-a-url" = None
  /\ _extract_handle "https://example.com" = None
  /\ _extract_handle "https://www.instagram.com/" = None.
Proof. repeat split; reflexivity. Qed.

Section Protocol.

Context {ProfileData Media : Type} (env : Env ProfileData Media).

Lemma spec_ret {A} E (Q : A -> Prop) (a : A) : Q a -> spec E Q (ret a).
Proof.
  intros HQ st. exists []. simpl. rewrite app_nil_r.
  repeat split; [constructor |]. intros a' [= <-]. exact HQ.
Qed.

Lemma spec_raise {A} E (Q : A -> Prop) msg : spec E Q (raise msg).
Proof.
  intros st. exists []. simpl. rewrite app_nil_r.
  repeat split; [constructor |]. intros a' [=].
Qed.

Lemma spec_lift {A} E (Q : A -> Prop) (r : raised A) :
  (forall a, r = Ret a -> Q a) -> spec E Q (lift r).
Proof.
  intros HQ st. exists []. simpl. rewrite app_nil_r.
  repeat split; [constructor | exact HQ].
Qed.

Lemma spec_emit E (e : event) : E e -> spec E (fun _ => True) (emit e).
Proof.
  intros He st. exists [e]. simpl. repeat split; auto.
Qed.

Lemma spec_get_state E : spec E (fun _ => True) get_state.
Proof.
  intros st. exists []. simpl. rewrite app_nil_r. repeat split; auto.
Qed.

Lemma spec_set_browser E b : spec E (fun _ => True) (set_browser b).
Proof.
  intros st. exists []. simpl. rewrite app_nil_r. repeat split; auto.
Qed.

Lemma spec_set_page_open E b : spec E (fun _ => True) (set_page_open b).
Proof.
  intros st. exists []. simpl. rewrite app_nil_r. repeat split; auto.
Qed.

Lemma spec_bind {A B} E (P : A -> Prop) (Q : B -> Prop) (m : M A) (k : A -> M B) :
  spec E P m -> (forall a, P a -> spec E Q (k a)) -> spec E Q (bind m k).
Proof.
  intros Hm Hk st. unfold bind.
  destruct (Hm st) as (new1 & Htr1 & HE1 & HP).
  destruct (m st) as [[a | msg] st1]; simpl in *.
  - destruct (Hk a (HP a eq_refl) st1) as (new2 & Htr2 & HE2 & HQ).
    exists (new1 ++ new2). rewrite Htr2, Htr1, app_assoc.
    repeat split; [apply Forall_app; auto | exact HQ].
  - exists new1. repeat split; auto. intros b [=].
Qed.

Lemma spec_try_except {A} E (Q : A -> Prop) (m : M A) (h : string -> M A) :
  spec E Q m -> (forall msg, spec E Q (h msg)) -> spec E Q (try_except m h).
Proof.
  intros Hm Hh st. unfold try_except.
  destruct (Hm st) as (new1 & Htr1 & HE1 & HQ1).
  destruct (m st) as [[a | msg] st1]; simpl in *.
  - exists new1. repeat split; auto.
  - destruct (Hh msg st1) as (new2 & Htr2 & HE2 & HQ2).
    exists (new1 ++ new2). rewrite Htr2, Htr1, app_assoc.
    repeat split; [apply Forall_app; auto | exact HQ2].
Qed.

Lemma spec_try_finally {A} E (Q : A -> Prop) (m : M A) (fin : M unit) :
  spec E Q m -> spec E (fun _ => True) fin -> spec E Q (try_finally m fin).
Proof.
  intros Hm Hf st. unfold try_finally.
  destruct (Hm st) as (new1 & Htr1 & HE1 & HQ1).
  destruct (m st) as [r st1]; simpl in *.
  destruct (Hf st1) as (new2 & Htr2 & HE2 & _).
  destruct (fin st1) as [[[] | msg] st2]; simpl in *;
    exists (new1 ++ new2); rewrite Htr2, Htr1, app_assoc;
    (repeat split; [apply Forall_app; auto |]); [exact HQ1 | intros a [=]].
Qed.

Lemma spec_perform (a : page_action) : spec is_page_event (fun _ => True) (perform env a).
Proof.
  unfold perform. eapply spec_bind; [apply spec_emit; exact I |].
  intros _ _. destruct (page_step env a); [apply spec_raise | apply spec_ret; exact I].
Qed.

(** [_scrape_via_api] only produces API-phase events, never raises, and a
    success it returns is attributed to the API. *)
Lemma scrape_via_api_spec (h : string) (st : state) :
  exists new r,
    trace (snd (_scrape_via_api env h st)) = trace st ++ new
    /\ Forall api_phase new
    /\ fst (_scrape_via_api env h st) = Ret r
    /\ by_method "api" r.
Proof.
  assert (Hspec : spec api_phase (by_method "api") (_scrape_via_api env h)).
  { unfold _scrape_via_api, wait_for_platform.
    apply spec_try_except.
    - eapply spec_bind; [apply spec_emit; reflexivity |]. intros _ _.
      eapply spec_bind; [apply spec_emit; reflexivity |]. intros _ _.
      destruct (get_user_id env h) as [[| c uid] |];
        try (apply spec_ret; intros [=]).
      eapply spec_bind; [apply spec_emit; reflexivity |]. intros _ _.
      destruct (get_user_profile env _) as [pd |];
        try (apply spec_ret; intros [=]).
      eapply spec_bind; [apply spec_emit; reflexivity |]. intros _ _.
      eapply spec_bind; [apply spec_lift; intros; exact I |]. intros p _.
      apply spec_ret. intros _. reflexivity.
    - intros msg. apply spec_ret. intros [=]. }
  destruct (Hspec st) as (new & Htr & HE & HQ).
  assert (Htotal : exists r, fst (_scrape_via_api env h st) = Ret r).
  { unfold _scrape_via_api, try_except.
    match goal with |- context [?m st] =>
      match m with bind _ _ => destruct (m st) as [[a | msg] st1] end end;
      simpl; eauto. }
  destruct Htotal as [r Hr]. exists new, r. repeat split; auto.
Qed.

(** [_scrape_via_playwright] waits on the scraping budget once, then only
    drives the page; a success it returns is attributed to scraping. *)
Lemma scrape_via_playwright_spec (url : string) (st : state) :
  exists new,
    trace (snd (_scrape_via_playwright env url st))
      = trace st ++ RateWait "instagram" "scraping" :: new
    /\ Forall is_page_event new
    /\ forall r, fst (_scrape_via_playwright env url st) = Ret r -> by_method "scraping" r.
Proof.
  set (rest :=
    (do st <- get_state ;;
     exec (if browser st then ret tt else (exec perform env Launch ;; set_browser true)) ;;
     exec perform env NewPage ;;
     exec set_page_open true ;;
     exec perform env SetHeaders ;;
     exec perform env SetViewport ;;
     exec perform env (Goto url) ;;
     exec perform env WaitTimeout ;;
     exec emit (Page Evaluate) ;;
     match extract_profile_data env with
     | None => ret (failure "Could not extract profile data" "scraping")
     | Some profile_data =>
         do profile <- lift (create_profile_from_scraping env profile_data url) ;;
         ret (succeeded profile "scraping")
     end)).
  assert (Hrest : spec is_page_event (by_method "scraping") rest).
  { unfold rest.
    eapply spec_bind; [apply spec_get_state |]. intros s _.
    eapply spec_bind.
    { destruct (browser s); [apply (spec_ret _ (fun _ => True)); exact I |].
      eapply spec_bind; [apply spec_perform |]. intros _ _. apply spec_set_browser. }
    intros _ _.
    eapply spec_bind; [apply spec_perform |]. intros _ _.
    eapply spec_bind; [apply spec_set_page_open |]. intros _ _.
    eapply spec_bind; [apply spec_perform |]. intros _ _.
    eapply spec_bind; [apply spec_perform |]. intros _ _.
    eapply spec_bind; [apply spec_perform |]. intros _ _.
    eapply spec_bind; [apply spec_perform |]. intros _ _.
    eapply spec_bind; [apply spec_emit; exact I |]. intros _ _.
    destruct (extract_profile_data env) as [pd |].
    - eapply spec_bind; [apply spec_lift; intros; exact I |]. intros p _.
      apply spec_ret. intros _. reflexivity.
    - apply spec_ret. intros [=]. }
  assert (Hfin : spec is_page_event (fun _ : unit => True)
                   (do st <- get_state ;;
                    if page_open st then perform env Close else ret tt)).
  { eapply spec_bind; [apply spec_get_state |]. intros s _.
    destruct (page_open s); [apply spec_perform | apply spec_ret; exact I]. }
  assert (Hguard : spec is_page_event (by_method "scraping")
                     (try_finally
                        (try_except rest (fun e => ret (failure e "scraping")))
                        (do st <- get_state ;;
                         if page_open st then perform env Close else ret tt))).
  { apply spec_try_finally; [| exact Hfin].
    apply spec_try_except; [exact Hrest |].
    intros msg. apply spec_ret. intros [=]. }
  (* the first two steps: reset the page flag, wait on the scraping budget *)
  set (st1 := {| trace := trace st ++ [RateWait "instagram" "scraping"];
                 browser := browser st; page_open := false |}).
  change (_scrape_via_playwright env url st)
    with (try_finally
            (try_except rest (fun e => ret (failure e "scraping")))
            (do st <- get_state ;;
             if page_open st then perform env Close else ret tt) st1).
  destruct (Hguard st1) as (new & Htr & HE & HQ).
  exists new. rewrite Htr. simpl. rewrite <- app_assoc. simpl.
  repeat split; auto.
Qed.

Lemma count_if_app {A} (p : A -> bool) (l1 l2 : list A) :
  count_if p (l1 ++ l2) = (count_if p l1 + count_if p l2)%nat.
Proof. unfold count_if. rewrite List.filter_app, length_app. reflexivity. Qed.

Lemma count_if_none {A} (p : A -> bool) (l : list A) :
  Forall (fun x => p x = false) l -> count_if p l = 0%nat.
Proof.
  unfold count_if. induction 1 as [| x l Hx _ IH]; simpl; [reflexivity |].
  rewrite Hx. exact IH.
Qed.

Lemma page_events_quiet (new : list event) :
  Forall is_page_event new ->
  count_if is_fallback_attempt new = 0%nat
  /\ count_if is_fallback_wait new = 0%nat
  /\ ~ Exists api_phase new.
Proof.
  intros H. repeat split.
  - apply count_if_none. eapply Forall_impl; [exact H |].
    intros [] Hp; simpl in *; tauto.
  - apply count_if_none. eapply Forall_impl; [exact H |].
    intros [] Hp; simpl in *; tauto.
  - rewrite Exists_exists. intros (e & Hin & Hapi).
    rewrite Forall_forall in H. specialize (H e Hin).
    destruct e; simpl in *; try tauto. discriminate.
Qed.

Lemma api_events_no_fallback (new : list event) :
  Forall api_phase new ->
  count_if is_fallback_attempt new = 0%nat
  /\ count_if is_fallback_wait new = 0%nat.
Proof.
  intros H. split; apply count_if_none; (eapply Forall_impl; [exact H |]);
    unfold api_phase; intros e He; destruct e; simpl in *;
    try discriminate; try reflexivity.
  apply String.eqb_eq in He. subst. reflexivity.
Qed.

(** C8. When no handle can be extracted from the URL, [scrape_profile]
    returns the failure "Invalid Instagram profile URL" with method "none"
    and leaves the state as it found it: no event at all is produced, so no
    rate-budget wait, no API sub-call and no page action precede the
    failure. *)
Theorem invalid_url_fails_without_network (url : string) (use_api : bool) (st : state) :
  truthy_str (_extract_handle url) = false ->
  scrape_profile env url use_api st
    = (Ret (failure "Invalid Instagram profile URL" "none"), st)
  /\ trace (snd (scrape_profile env url use_api st)) = trace st.
Proof.
  intros Hh. unfold scrape_profile, try_except.
  destruct (_extract_handle url) as [[| c h] |]; simpl in Hh; try discriminate;
    split; reflexivity.
Qed.

Lemma finish_trace x : trace (snd (finish x)) = trace (snd x).
Proof. destruct x as [[a | msg] s]; reflexivity. Qed.

Lemma finish_returns x : exists r, fst (finish x) = Ret r.
Proof. destruct x as [[a | msg] s]; simpl; eauto. Qed.

(** The control flow of [scrape_profile] once the handle is known. *)
Lemma scrape_profile_unfold (url : string) (use_api : bool) (st : state) (h : string) :
  _extract_handle url = Some h -> truthy_str (Some h) = true ->
  scrape_profile env url use_api st =
    if use_api && truthy_str (access_token env)
    then match _scrape_via_api env h (push (LogAttemptApi h) st) with
         | (Ret r, s2) =>
             if success r then (Ret r, s2)
             else finish (_scrape_via_playwright env url (push (LogAttemptPlaywright h) s2))
         | (Raise msg, s2) => (Ret (failure msg "none"), s2)
         end
    else finish (_scrape_via_playwright env url (push (LogAttemptPlaywright h) st)).
Proof.
  intros Hh Hne. unfold scrape_profile. rewrite Hh.
  destruct h as [| c h']; [discriminate |].
  unfold try_except, finish.
  destruct (use_api && truthy_str (access_token env)).
  - unfold bind at 1. unfold emit at 1. fold (push (LogAttemptApi (String c h')) st).
    unfold bind at 1.
    destruct (_scrape_via_api env (String c h') (push (LogAttemptApi (String c h')) st))
      as [[r | msg] s2]; [| reflexivity].
    destruct (success r); reflexivity.
  - reflexivity.
Qed.


End Protocol.

(** [test_scrape_profile_invalid_url] *)
Lemma invalid_url_fails_without_network_witness :
  scrape_profile sample_env "invalid-url" true fresh
    = (Ret (failure "Invalid Instagram profile URL" "none"), fresh)
  /\ trace (snd (scrape_profile sample_env "invalid-url" true fresh)) = trace fresh.
Proof.
  apply (invalid_url_fails_without_network sample_env "invalid-url" true fresh).
  reflexivity.
Defined.


(** In that world the token is set, the API lookup fails and the page
    succeeds: API first, then the one fallback. *)
Example api_failure_falls_through :
  let out := scrape_profile sample_env "https://www.instagram.com/username/" true fresh in
  fst out = Ret (succeeded sample_profile "scraping")
  /\ trace (snd out)
     = [LogAttemptApi "username"; RateWait "instagram" "api"; ApiGetUserId "username";
        LogAttemptPlaywright "username"; RateWait "instagram" "scraping";
        Page Launch; Page NewPage; Page SetHeaders; Page SetViewport;
        Page (Goto "https://www.instagram.com/username/"); Page WaitTimeout;
        Page Evaluate; Page Close].
Proof. split; reflexivity. Qed.

End InstagramFacts.

(** ** Discovery loop *)

Module DiscoveryFacts.

Import Discovery.

Local Open Scope Z_scope.

Lemma niche_in_spec (n : option string) (l : list string) :
  niche_in n l = true -> exists x, n = Some x /\ In x l.
Proof.
  destruct n as [x |]; simpl; [| discriminate].
  intros H. apply existsb_exists in H. destruct H as (y & Hin & Heq).
  apply String.eqb_eq in Heq. subst y. eauto.
Qed.

(** [_passes_filters] decides the candidate filter. *)
Lemma passes_filters_sound (cfg : Config) (c : Creator) :
  _passes_filters c (niches cfg) (min_followers cfg) (max_followers cfg) = true ->
  passes cfg c.
Proof.
  unfold _passes_filters, passes.
  destruct (follower_count c) as [fc |];
    (destruct (_ <? min_followers cfg) eqn:Hlo; [discriminate |]);
    (destruct (max_followers cfg <? _) eqn:Hhi; [discriminate |]);
    simpl; apply Z.ltb_ge in Hlo, Hhi;
    (destruct (truthy_list (niches cfg)) eqn:Ht; simpl;
     [ destruct (niche_in _ _) eqn:Hn; simpl; [| discriminate];
       intros _; split; [lia |]; intros _;
       apply niche_in_spec in Hn; destruct Hn as (x & Hx & Hin);
       destruct (niches cfg) as [l |]; [| discriminate]; eauto
     | intros _; split; [lia | discriminate] ]).
Qed.

Lemma inv_init (cfg : Config) (seen0 : gset string) : inv cfg seen0 [] seen0.
Proof. split; simpl; try constructor; set_solver. Qed.

(** The size bound is kept by the [break] test at the head of the inner loop. *)
Lemma consume_length (cfg : Config) (new_creators : list Creator) :
  forall out seen,
    Z.of_nat (length out) <= max_creators cfg ->
    Z.of_nat (length (fst (consume cfg new_creators out seen))) <= max_creators cfg.
Proof.
  induction new_creators as [| c rest IH]; intros out seen Hlen; simpl; [exact Hlen |].
  destruct (max_creators cfg <=? Z.of_nat (length out)) eqn:Hfull; [exact Hlen |].
  apply Z.leb_gt in Hfull.
  destruct (decide (handle c ∈ seen)); [apply IH; exact Hlen |].
  destruct (_passes_filters c _ _ _); simpl; [| apply IH; exact Hlen].
  apply IH. rewrite length_app. simpl. lia.
Qed.

Lemma consume_inv (cfg : Config) (seen0 : gset string) (new_creators : list Creator) :
  forall out seen,
    inv cfg seen0 out seen ->
    inv cfg seen0 (fst (consume cfg new_creators out seen))
                  (snd (consume cfg new_creators out seen)).
Proof.
  induction new_creators as [| c rest IH]; intros out seen Hinv; simpl; [exact Hinv |].
  destruct (max_creators cfg <=? Z.of_nat (length out)) eqn:Hfull; [exact Hinv |].
  apply Z.leb_gt in Hfull.
  destruct (decide (handle c ∈ seen)) as [Hin | Hnew]; [apply IH; exact Hinv |].
  destruct (_passes_filters c _ _ _) eqn:Hpass; simpl; [| apply IH; exact Hinv].
  apply IH. destruct Hinv as [Hnd Hp Hs Hn Hm].
  split; unfold handles in *.
  - rewrite map_app. simpl. apply NoDup_app. split; [exact Hnd |]. split.
    + intros h Hh Hh'. apply list_elem_of_singleton in Hh'. subst h.
      apply Hnew, Hs, Hh.
    + apply NoDup_singleton.
  - apply Forall_app. split; [exact Hp |].
    constructor; [| constructor]. apply passes_filters_sound. exact Hpass.
  - intros h. rewrite map_app. simpl. rewrite elem_of_app, list_elem_of_singleton.
    intros [Hh | ->]; [apply elem_of_union; right; apply Hs, Hh | set_solver].
  - intros h. rewrite map_app. simpl. rewrite elem_of_app, list_elem_of_singleton.
    intros [Hh | ->]; [exact (Hn h Hh) |]. set_solver.
  - set_solver.
Qed.

Lemma body_bounded (cfg : Config) (s : Step) (st : Run) :
  bounded cfg st ->
  match body cfg s st with
  | Next st' | Leaves _ st' => bounded cfg st'
  end.
Proof.
  unfold body, handler, bounded. intros Hlen.
  destruct (obs s) as [msg | new_creators].
  - destruct (recover_raises s); exact Hlen.
  - pose proof (consume_length cfg new_creators _ (discovered_creators st) Hlen) as Hc.
    destruct (consume cfg new_creators (creators st) (discovered_creators st))
      as [out seen]. simpl in Hc.
    destruct (30 <? _); [destruct (reload_raises s); [destruct (recover_raises s) |] |];
      exact Hc.
Qed.

Lemma loop_bounded (cfg : Config) (t0 : Z) (world : list Step) :
  forall st,
    bounded cfg st ->
    match loop cfg t0 world st with
    | Returned st' | Escaped _ st' | Running st' => bounded cfg st'
    end.
Proof.
  induction world as [| s world IH]; intros st Hb; simpl; [exact Hb |].
  destruct (_ && _); [| exact Hb].
  pose proof (body_bounded cfg s st Hb) as Hbody.
  destruct (body cfg s st) as [st' | msg st']; [apply IH |]; exact Hbody.
Qed.

Lemma body_inv (cfg : Config) (seen0 : gset string) (s : Step) (st : Run) :
  inv_run cfg seen0 st ->
  match body cfg s st with
  | Next st' | Leaves _ st' => inv_run cfg seen0 st'
  end.
Proof.
  unfold body, handler, inv_run. intros Hinv.
  destruct (obs s) as [msg | new_creators].
  - destruct (recover_raises s); exact Hinv.
  - pose proof (consume_inv cfg seen0 new_creators _ _ Hinv) as Hc.
    destruct (consume cfg new_creators (creators st) (discovered_creators st))
      as [out seen]. simpl in Hc.
    destruct (30 <? _); [destruct (reload_raises s); [destruct (recover_raises s) |] |];
      exact Hc.
Qed.

Lemma loop_inv (cfg : Config) (seen0 : gset string) (t0 : Z) (world : list Step) :
  forall st,
    inv_run cfg seen0 st ->
    match loop cfg t0 world st with
    | Returned st' | Escaped _ st' | Running st' => inv_run cfg seen0 st'
    end.
Proof.
  induction world as [| s world IH]; intros st Hinv; simpl; [exact Hinv |].
  destruct (_ && _); [| exact Hinv].
  pose proof (body_inv cfg seen0 s st Hinv) as Hb.
  destruct (body cfg s st) as [st' | msg st']; [apply IH |]; exact Hb.
Qed.

(** The loop is left as soon as the clock shows that the scroll duration
    is used up: a script that ends with such a reading never leaves the
    run pending. *)
Lemma loop_exits_when_time_is_up (cfg : Config) (t0 : Z) (late : Step) (world : list Step) :
  scroll_duration cfg <= td_seconds (t_loop late - t0) ->
  forall st, forall st', loop cfg t0 (world ++ [late]) st <> Running st'.
Proof.
  intros Hlate. induction world as [| s world IH]; intros st st'; simpl.
  - destruct (_ <? max_creators cfg); simpl; [| discriminate].
    destruct (td_seconds _ <? _) eqn:Ht; [| discriminate].
    apply Z.ltb_lt in Ht. lia.
  - destruct (_ && _); [| discriminate].
    destruct (body cfg s st); [apply IH | discriminate].
Qed.

(** A session whose script ends with such a reading always yields a result. *)
Lemma discover_creators_returns (cfg : Config) (seen : gset string) (w : Session)
    (world : list Step) (late : Step) :
  steps w = (world ++ [late])%list ->
  scroll_duration cfg <= td_seconds (t_loop late - start_time w) ->
  exists out seen', discover_creators cfg seen w = Some (out, seen').
Proof.
  intros Hsteps Hlate. unfold discover_creators, _discover_from_reels.
  destruct (open_raises w); [eauto |].
  rewrite Hsteps.
  pose proof (loop_exits_when_time_is_up cfg (start_time w) late world Hlate
                {| creators := []; discovered_creators := seen;
                   last_scroll_time := start_time w; reloads := [] |}) as Hexit.
  destruct (loop cfg (start_time w) (world ++ [late]) _) as [st | msg st | st].
  - destruct (close_raises w); eauto.
  - eauto.
  - exfalso. exact (Hexit st eq_refl).
Qed.

Local Open Scope string_scope.
Local Open Scope Z_scope.

(** C4. A discovery run configured with a non-negative [max_creators]
    returns at most that many candidates, with pairwise distinct handles,
    none of them seen before the run, each passing the follower bounds
    (an absent count reads as 0) and, when a niche list is configured, the
    niche membership test.  The run over [ten_candidates] with
    [max_creators = 5] returns exactly the five distinct passing accounts. *)
Theorem discovery_output_bounded_distinct_filtered
    (cfg : Config) (seen : gset string) (w : Session)
    (out : list Creator) (seen' : gset string) :
  (0 <= max_creators cfg)%Z ->
  discover_creators cfg seen w = Some (out, seen') ->
  at_most (max_creators cfg) out
  /\ NoDup (handles out)
  /\ Forall (passes cfg) out
  /\ (forall h, h ∈ handles out -> (h ∉ seen) /\ (h ∈ seen'))
  /\ fst <$> discover_creators five_of_ten ∅ ten_candidates
     = Some [creator "ana" 5000; creator "bo" 20000; creator "cy" 1000;
             creator "dee" 1000000; creator "eli" 75000].
Proof.
  intros Hmax Hrun.
  assert (Hgen : at_most (max_creators cfg) out /\ NoDup (handles out)
                 /\ Forall (passes cfg) out
                 /\ (forall h, h ∈ handles out -> (h ∉ seen) /\ (h ∈ seen'))).
  { assert (Hnil : at_most (max_creators cfg) [] /\ NoDup (handles [])
                   /\ Forall (passes cfg) []
                   /\ (forall h, h ∈ handles [] -> (h ∉ seen) /\ (h ∈ seen'))).
    { unfold at_most. simpl. repeat split; try lia; try constructor;
        apply elem_of_nil in H; contradiction. }
    unfold discover_creators in Hrun.
    destruct (open_raises w); [injection Hrun as <- <-; exact Hnil |].
    unfold _discover_from_reels in Hrun.
    pose proof (loop_inv cfg seen (start_time w) (steps w)
                  {| creators := []; discovered_creators := seen;
                     last_scroll_time := start_time w; reloads := [] |}
                  (inv_init cfg seen)) as Hinv.
    pose proof (loop_bounded cfg (start_time w) (steps w)
                  {| creators := []; discovered_creators := seen;
                     last_scroll_time := start_time w; reloads := [] |}
                  Hmax) as Hlen.
    destruct (loop cfg (start_time w) (steps w) _) as [st | msg st | st];
      [| injection Hrun as <- <-; exact Hnil | discriminate].
    destruct (close_raises w); injection Hrun as <- <-; [exact Hnil |].
    destruct Hinv as [Hnd Hp Hs Hn Hm].
    repeat split; auto. }
  destruct Hgen as (H1 & H2 & H3 & H4).
  split; [exact H1 |]. split; [exact H2 |]. split; [exact H3 |]. split; [exact H4 |].
  vm_compute. reflexivity.
Qed.

Lemma ten_candidates_return (seen : gset string) :
  exists out seen', discover_creators five_of_ten seen ten_candidates = Some (out, seen').
Proof.
  apply (discover_creators_returns five_of_ten seen ten_candidates
           (firstn 3 (steps ten_candidates)) (quiet_step 300 301 [])).
  - reflexivity.
  - vm_compute. discriminate.
Defined.

Lemma discovery_output_bounded_distinct_filtered_witness :
  exists out seen',
    discover_creators five_of_ten ∅ ten_candidates = Some (out, seen')
    /\ at_most 5 out /\ NoDup (handles out) /\ Forall (passes five_of_ten) out.
Proof.
  destruct (ten_candidates_return ∅) as (out & seen' & Hrun).
  exists out, seen'. split; [exact Hrun |].
  destruct (discovery_output_bounded_distinct_filtered five_of_ten ∅ ten_candidates
              out seen' ltac:(simpl; lia) Hrun) as (H1 & H2 & H3 & _).
  repeat split; assumption.
Defined.

(** What a completed run leaves in the engine, whatever its configuration. *)
Lemma run_seen (cfg : Config) (seen : gset string) (w : Session)
    (out : list Creator) (seen' : gset string) :
  discover_creators cfg seen w = Some (out, seen') ->
  (forall h, h ∈ handles out -> (h ∉ seen) /\ (h ∈ seen')) /\ seen ⊆ seen'.
Proof.
  unfold discover_creators, _discover_from_reels. intros Hrun.
  assert (Hnil : forall s : gset string, seen ⊆ s ->
            (forall h, h ∈ handles [] -> (h ∉ seen) /\ (h ∈ s)) /\ seen ⊆ s).
  { intros s Hs. split; [| exact Hs]. intros h Hh. apply elem_of_nil in Hh. contradiction. }
  destruct (open_raises w); [injection Hrun as <- <-; apply Hnil; set_solver |].
  pose proof (loop_inv cfg seen (start_time w) (steps w)
                {| creators := []; discovered_creators := seen;
                   last_scroll_time := start_time w; reloads := [] |}
                (inv_init cfg seen)) as Hinv.
  destruct (loop cfg (start_time w) (steps w) _) as [st | msg st | st];
    [| injection Hrun as <- <-; apply Hnil; apply Hinv | discriminate].
  destruct Hinv as [Hnd Hp Hs Hn Hm].
  destruct (close_raises w); injection Hrun as <- <-; [apply Hnil; exact Hm |].
  split; [| exact Hm]. intros h Hh. split; [exact (Hn h Hh) | exact (Hs h Hh)].
Qed.

(** One iteration reloads exactly when more than 30 seconds (seconds
    component) separate the stall test from the end of the previous
    iteration; what the step extracted plays no part. *)
Lemma body_reload_rule (cfg : Config) (s : Step) (st st' : Run) (new_creators : list Creator) :
  obs s = Extracted new_creators ->
  body cfg s st = Next st' ->
  reloads st' = if 30 <? td_seconds (t_check s - last_scroll_time st)
                then (reloads st ++ [t_check s])%list else reloads st.
Proof.
  unfold body, handler. intros ->.
  destruct (consume cfg new_creators (creators st) (discovered_creators st)) as [out seen].
  destruct (30 <? _).
  - destruct (reload_raises s).
    + destruct (recover_raises s); [discriminate |]. intros [= <-]. reflexivity.
    + intros [= <-]. reflexivity.
  - intros [= <-]. reflexivity.
Qed.

(** A reload does not end the run: the iteration completes unless the
    pause of the exception handler itself fails. *)
Lemma body_continues (cfg : Config) (s : Step) (st : Run) :
  recover_raises s = false -> exists st', body cfg s st = Next st'.
Proof.
  unfold body, handler. intros ->.
  destruct (obs s) as [msg | new_creators]; [eauto |].
  destruct (consume cfg new_creators (creators st) (discovered_creators st)) as [out seen].
  destruct (30 <? _); [destruct (reload_raises s) |]; eauto.
Qed.

(** C5 (fails on the code). Over [stalled_feed] no step extracts anything
    during forty seconds, yet the run ends without a single reload; over
    [slow_feed] the only step extracts a new account and is followed by a
    reload.  The stall clock is restarted at the end of every iteration, so
    it measures the length of one iteration, not the time since new content
    was last extracted. *)
Theorem stall_clock_restarts_every_step :
  (exists st,
      _discover_from_reels five_of_ten ∅ 0 stalled_feed = Returned st
      /\ creators st = [] /\ reloads st = [])
  /\ (exists st,
      _discover_from_reels five_of_ten ∅ 0 slow_feed = Returned st
      /\ handles (creators st) = ["ana"] /\ reloads st = [seconds 31]).
Proof.
  split; eexists; (split; [vm_compute; reflexivity |]); split; reflexivity.
Qed.


(** The hashtag entry point reads and extends the same set: it never
    emits a handle that is already in it. *)
Lemma hashtag_consume_seen (info : string -> option (Z * option string))
    (hs : list string) :
  forall (out : list Creator) (seen : gset string),
    seen ⊆ snd (hashtag_consume info hs out seen)
    /\ forall h, h ∈ handles (fst (hashtag_consume info hs out seen)) ->
         h ∈ handles out
         \/ ((h ∉ seen) /\ (h ∈ snd (hashtag_consume info hs out seen))).
Proof.
  induction hs as [| x rest IH]; intros out seen; simpl.
  - split; [reflexivity | auto].
  - destruct (decide (x ∈ seen)) as [Hin | Hnew]; [apply IH |].
    destruct (info x) as [[fc n] |]; [| apply IH].
    destruct (IH (out ++ [{| handle := x;
                             profile_url := "https://www.instagram.com/" ++ x ++ "/";
                             follower_count := Some fc; niche := n |}])%list
                 ({[x]} ∪ seen)) as [Hsub Hout].
    split; [etransitivity; [apply union_subseteq_r | exact Hsub] |].
    intros h Hh. destruct (Hout h Hh) as [Hold | [Hn Hs]].
    + unfold handles in Hold. rewrite map_app in Hold. simpl in Hold.
      apply elem_of_app in Hold. destruct Hold as [Hold | Hx]; [left; exact Hold |].
      apply list_elem_of_singleton in Hx. subst h. right. split; [exact Hnew |].
      apply Hsub, elem_of_union. left. apply elem_of_singleton. reflexivity.
    + right. split; [| exact Hs].
      intros Hc. apply Hn, elem_of_union. right. exact Hc.
Qed.

Lemma hashtag_skips_seen (info : string -> option (Z * option string))
    (creator_handles : list string) (n : Z) (seen : gset string) (h : string) :
  h ∈ handles (fst (_extract_creators_from_hashtag info creator_handles n seen)) ->
  h ∉ seen.
Proof.
  unfold _extract_creators_from_hashtag. intros Hh.
  destruct (hashtag_consume_seen info (py_take n creator_handles) [] seen) as [_ Hout].
  destruct (Hout h Hh) as [Hnil | [Hn _]]; [| exact Hn].
  apply elem_of_nil in Hnil. contradiction.
Qed.



(** A run that the loop leaves by an exception returns nothing, yet the
    handle accepted in that very iteration stays in the seen-set. *)
Example escaped_run_keeps_handles :
  exists seen',
    discover_creators five_of_ten ∅ escaping_session = Some ([], seen')
    /\ "ana" ∈ seen'.
Proof.
  eexists. split; [reflexivity |]. simpl.
  apply elem_of_union. left. apply elem_of_singleton. reflexivity.
Qed.

End DiscoveryFacts.

(** ** Batch fan-out *)

Module BatchFacts.

Import Schemas Batch.

Section Facts.

Context {World : Type} {L : StrLower} (svc : Services World).

Abbreviation task := (World -> raised ScrapingResult * World).
Abbreviation task_of A := (World -> raised A * World).

Lemma complete_spec (tasks : list task) (order : list nat) :
  forall slots w,
    slots_ok tasks slots ->
    slots_ok tasks (fst (complete tasks order slots w))
    /\ forall i, (i < length tasks)%nat ->
         i ∈ order \/ filled slots i ->
         filled (fst (complete tasks order slots w)) i.
Proof.
  induction order as [| j rest IH]; intros slots w Hok; simpl.
  - split; [exact Hok |]. intros i _ [Hin | Hf]; [| exact Hf].
    apply elem_of_nil in Hin. contradiction.
  - destruct (tasks !! j) as [t |] eqn:Ht.
    + destruct (t w) as [r w'] eqn:Hrun.
      assert (Hok' : slots_ok tasks (<[j := Some r]> slots)).
      { destruct Hok as [Hlen Hval]. split; [rewrite length_insert; exact Hlen |].
        intros i r' Hi. destruct (decide (i = j)) as [-> | Hne].
        - rewrite list_lookup_insert_eq in Hi
            by (rewrite Hlen; apply lookup_lt_Some in Ht; exact Ht).
          injection Hi as <-. exists t, w. split; [exact Ht |]. rewrite Hrun. reflexivity.
        - rewrite list_lookup_insert_ne in Hi by congruence. exact (Hval i r' Hi). }
      destruct (IH (<[j := Some r]> slots) w' Hok') as [Hok'' Hfill].
      split; [exact Hok'' |].
      intros i Hi Hcase. apply Hfill; [exact Hi |].
      destruct Hcase as [Hin | [r0 Hr0]].
      * apply elem_of_cons in Hin. destruct Hin as [-> | Hin]; [| left; exact Hin].
        right. exists r. apply list_lookup_insert_eq.
        destruct Hok as [Hlen _]. rewrite Hlen. exact Hi.
      * right. destruct (decide (i = j)) as [-> | Hne].
        -- exists r. apply list_lookup_insert_eq.
           destruct Hok as [Hlen _]. rewrite Hlen. exact Hi.
        -- exists r0. rewrite list_lookup_insert_ne by congruence. exact Hr0.
    + destruct (IH slots w Hok) as [Hok'' Hfill].
      split; [exact Hok'' |].
      intros i Hi Hcase. apply Hfill; [exact Hi |].
      destruct Hcase as [Hin | Hf]; [| right; exact Hf].
      apply elem_of_cons in Hin. destruct Hin as [-> | Hin]; [| left; exact Hin].
      destruct (lookup_lt_is_Some_2 tasks j Hi) as [x Hx]. congruence.
Qed.

Lemma collect_spec {A} (slots : list (option A)) :
  (forall i, (i < length slots)%nat -> exists a, slots !! i = Some (Some a)) ->
  exists l, collect slots = Some l /\ slots = Some <$> l.
Proof.
  induction slots as [| s rest IH]; intros Hall; simpl.
  - exists []. split; reflexivity.
  - destruct (Hall 0%nat ltac:(simpl; lia)) as [a Ha]. simpl in Ha. injection Ha as ->.
    destruct IH as (l & Hl & Heq).
    { intros i Hi. apply (Hall (S i)). simpl. lia. }
    rewrite Hl. exists (a :: l). split; [reflexivity |]. rewrite fmap_cons, <- Heq. reflexivity.
Qed.

Lemma complete_untouched (tasks : list task) (order : list nat) :
  forall slots w i,
    i ∉ order -> fst (complete tasks order slots w) !! i = slots !! i.
Proof.
  induction order as [| j rest IH]; intros slots w i Hi; simpl; [reflexivity |].
  apply not_elem_of_cons in Hi. destruct Hi as [Hne Hi].
  destruct (tasks !! j) as [t |].
  - destruct (t w) as [r w']. rewrite IH by exact Hi.
    apply list_lookup_insert_ne. congruence.
  - apply IH. exact Hi.
Qed.

(** The slot of the [k]-th unit to complete holds what that unit produced
    on the world left by the units that completed before it. *)
Lemma complete_at (tasks : list task) (order : list nat) :
  forall slots w k i t,
    NoDup order -> length slots = length tasks ->
    order !! k = Some i -> tasks !! i = Some t ->
    fst (complete tasks order slots w) !! i
    = Some (Some (fst (t (snd (complete tasks (take k order) slots w))))).
Proof.
  induction order as [| j rest IH]; intros slots w k i t Hnd Hlen Hk Ht; [discriminate |].
  apply NoDup_cons in Hnd. destruct Hnd as [Hj Hnd].
  destruct k as [| k]; simpl in Hk.
  - injection Hk as ->. cbn [take complete]. rewrite Ht.
    destruct (t w) as [r w'] eqn:Hrun. rewrite complete_untouched by exact Hj.
    cbn [snd]. rewrite Hrun. cbn [fst].
    apply list_lookup_insert_eq. rewrite Hlen. eapply lookup_lt_Some. exact Ht.
  - cbn [take complete]. destruct (tasks !! j) as [tj |].
    + destruct (tj w) as [r w'].
      apply IH; [exact Hnd | rewrite length_insert; exact Hlen | exact Hk | exact Ht].
    + apply IH; assumption.
Qed.

(** What [scrape_creators_batch] returns when every task completes: one
    entry per creator, at the creator's own position, being the result its
    unit returned, or the failure made of the exception it raised. *)
Lemma batch_spec (creators : list CreatorDict) (order : list nat) (w : World) :
  order ≡ₚ seq 0 (length creators) ->
  exists results w',
    scrape_creators_batch svc creators order w = (Some results, w')
    /\ length results = length creators
    /\ forall i c, creators !! i = Some c ->
         exists k,
           order !! k = Some i
           /\ results !! i
              = Some (match fst (scrape_with_semaphore svc c
                                   (world_at (map (scrape_with_semaphore svc) creators)
                                             order k w)) with
                      | Ret r => r
                      | Raise e => failure e "none"
                      end).
Proof.
  intros Hperm. unfold scrape_creators_batch, gather, world_at.
  set (tasks := map (scrape_with_semaphore svc) creators).
  assert (Hn : length tasks = length creators) by (unfold tasks; apply length_map).
  assert (Hnd : NoDup order) by (rewrite Hperm; apply NoDup_seq).
  assert (Hinit : slots_ok tasks (replicate (length tasks) None)).
  { split; [apply length_replicate |].
    intros i r Hi. apply lookup_replicate in Hi. destruct Hi as [[=] _]. }
  destruct (complete_spec tasks order _ w Hinit) as [[Hlen Hval] Hfill].
  pose proof (complete_at tasks order (replicate (length tasks) None) w) as Hat.
  destruct (complete tasks order (replicate (length tasks) None) w) as [slots w'].
  simpl in Hlen, Hval, Hfill, Hat.
  destruct (collect_spec slots) as (l & Hl & Heq).
  { intros i Hi. apply Hfill; [lia |]. left.
    rewrite Hperm. apply elem_of_seq. lia. }
  rewrite Hl. exists (map process_result l), w'.
  assert (Hll : length l = length creators).
  { rewrite <- Hn, <- Hlen, Heq. rewrite length_fmap. reflexivity. }
  split; [reflexivity |]. split; [rewrite length_map; exact Hll |].
  intros i c Hc.
  assert (Hi : (i < length creators)%nat) by (eapply lookup_lt_Some; eauto).
  assert (Hin : i ∈ order) by (rewrite Hperm; apply elem_of_seq; lia).
  apply list_elem_of_lookup_1 in Hin. destruct Hin as [k Hk].
  exists k. split; [exact Hk |].
  assert (Ht : tasks !! i = Some (scrape_with_semaphore svc c)).
  { unfold tasks. change (map (scrape_with_semaphore svc) creators)
      with (scrape_with_semaphore svc <$> creators).
    rewrite list_lookup_fmap, Hc. reflexivity. }
  specialize (Hat k i _ Hnd (length_replicate _ _) Hk Ht).
  rewrite Heq, list_lookup_fmap in Hat.
  destruct (l !! i) as [r |] eqn:Hr; [| discriminate].
  simpl in Hat. injection Hat as Hat.
  change (map process_result l) with (process_result <$> l).
  rewrite list_lookup_fmap, Hr. simpl. rewrite Hat. reflexivity.
Qed.

Lemma counts_add_up (results : list ScrapingResult) :
  (successful_of results + failed_of results = length results)%nat.
Proof.
  unfold failed_of, successful_of.
  pose proof (List.filter_length_le success results). lia.
Qed.

(** C10. When every unit completes, whatever the completion order, the
    list returned by [scrape_creators_batch] has one entry per candidate,
    and for every index i its i-th entry is the outcome of the unit of the
    i-th candidate: the very result that [scrape_with_semaphore] returned
    for that candidate, on the world it met at its turn [k] in the
    completion order, or the failure carrying the exception it raised. *)
Theorem batch_results_in_input_order
    (creators : list CreatorDict) (order : list nat) (w : World) :
  order ≡ₚ seq 0 (length creators) ->
  exists results w',
    scrape_creators_batch svc creators order w = (Some results, w')
    /\ length results = length creators
    /\ forall i c, creators !! i = Some c ->
         exists k,
           order !! k = Some i
           /\ results !! i
              = Some (match fst (scrape_with_semaphore svc c
                                   (world_at (map (scrape_with_semaphore svc) creators)
                                             order k w)) with
                      | Ret r => r
                      | Raise e => failure e "none"
                      end).
Proof. exact (batch_spec creators order w). Qed.

(** The units of [scrape_creators_batch] raise only on a missing key. *)
Lemma scrape_with_semaphore_raises (c : CreatorDict) (w : World) (e : string) :
  fst (scrape_with_semaphore svc c w) = Raise e ->
  c_source c = None \/ c_profile_url c = None.
Proof.
  unfold scrape_with_semaphore, scrape_creator.
  destruct (c_source c) as [src |]; [| auto].
  destruct (c_profile_url c) as [u |]; [| auto].
  intros H. exfalso. revert H.
  destruct (String.eqb (lower src) "instagram").
  - destruct (instagram_scrape_profile svc u (use_api svc) w) as [[r | msg] w1];
      [| discriminate].
    destruct (success r); [| discriminate].
    destruct (profile r) as [p |]; [| discriminate].
    destruct (upsert_creator svc p w1) as [[ok | msg] w2]; discriminate.
  - destruct (String.eqb (lower src) "linkedin"); [| discriminate].
    destruct (linkedin_scrape_profile svc u (use_api svc) w) as [[r | msg] w1];
      [| discriminate].
    destruct (success r); [| discriminate].
    destruct (profile r) as [p |]; [| discriminate].
    destruct (upsert_creator svc p w1) as [[ok | msg] w2]; discriminate.
Qed.

Variable scrape_creator_profile : string -> string -> bool -> bool -> task_of JobResult.

Lemma successes_failures (l : list JobResult) :
  (successes l + failures l = length l)%nat.
Proof.
  unfold successes, failures. induction l as [| r l IH]; simpl; [reflexivity |].
  destruct (job_success r); simpl; lia.
Qed.

Lemma process_loop_spec (api store_raw : bool) (creators : list CreatorDict) :
  forall (rep : BatchReport) (w : World),
    let rep' := fst (process_loop scrape_creator_profile api store_raw creators rep w) in
    exists new,
      results rep' = results rep ++ new
      /\ Forall2 (entry_of scrape_creator_profile api store_raw) creators new
      /\ successful rep' = (successful rep + successes new)%nat
      /\ failed rep' = (failed rep + failures new)%nat
      /\ total_creators rep' = total_creators rep.
Proof.
  induction creators as [| c rest IH]; intros rep w; simpl.
  - exists []. rewrite app_nil_r. repeat split; auto; try constructor; unfold successes, failures; simpl; lia.
  - assert (Hstep : forall (r : JobResult) (rep1 : BatchReport) (w1 : World),
               entry_of scrape_creator_profile api store_raw c r ->
               results rep1 = results rep ++ [r] ->
               successful rep1 = (successful rep + successes [r])%nat ->
               failed rep1 = (failed rep + failures [r])%nat ->
               total_creators rep1 = total_creators rep ->
               exists new,
                 results (fst (process_loop scrape_creator_profile api store_raw rest rep1 w1))
                   = results rep ++ new
                 /\ Forall2 (entry_of scrape_creator_profile api store_raw) (c :: rest) new
                 /\ successful (fst (process_loop scrape_creator_profile api store_raw rest rep1 w1))
                    = (successful rep + successes new)%nat
                 /\ failed (fst (process_loop scrape_creator_profile api store_raw rest rep1 w1))
                    = (failed rep + failures new)%nat
                 /\ total_creators (fst (process_loop scrape_creator_profile api store_raw rest rep1 w1))
                    = total_creators rep).
    { intros r rep1 w1 He Hr Hs Hf Ht.
      destruct (IH rep1 w1) as (new & Hn1 & Hn2 & Hn3 & Hn4 & Hn5).
      exists (r :: new). rewrite Hn1, Hr, <- app_assoc. simpl.
      split; [reflexivity |]. split; [constructor; assumption |].
      rewrite Hn3, Hn4, Hn5, Hs, Hf, Ht. unfold successes, failures. simpl.
      destruct (job_success r); simpl; repeat split; lia. }
    destruct (lower (or_empty (c_source c))) as [| a src] eqn:Hsrc.
    { apply (Hstep (missing_entry c)); try reflexivity;
        try (unfold successes, failures; simpl; lia).
      left. rewrite Hsrc. split; [left |]; reflexivity. }
    destruct (or_empty (c_profile_url c)) as [| b u] eqn:Hurl.
    { apply (Hstep (missing_entry c)); try reflexivity;
        try (unfold successes, failures; simpl; lia).
      left. rewrite Hurl. split; [right |]; reflexivity. }
    destruct (scrape_creator_profile (String a src) (String b u) api store_raw w)
      as [[x | e] w1] eqn:Hrun.
    + destruct (job_success x) eqn:Hx;
        apply (Hstep x); try reflexivity;
        try (unfold successes, failures; simpl; rewrite Hx; simpl; lia);
        right; rewrite Hsrc, Hurl; (repeat split; try discriminate);
        exists w; rewrite Hrun; reflexivity.
    + apply (Hstep (raised_entry e c)); try reflexivity;
        try (unfold successes, failures; simpl; lia).
      right. rewrite Hsrc, Hurl. repeat split; try discriminate.
      exists w. rewrite Hrun. reflexivity.
Qed.

Lemma process_loop_cons (api store_raw : bool) (c : CreatorDict)
    (rest : list CreatorDict) (rep : BatchReport) (w : World) :
  process_loop scrape_creator_profile api store_raw (c :: rest) rep w
  = process_loop scrape_creator_profile api store_raw rest
      (record_entry rep (fst (process_one scrape_creator_profile api store_raw c w)))
      (snd (process_one scrape_creator_profile api store_raw c w)).
Proof.
  cbn [process_loop]. unfold process_one, record_entry.
  destruct (lower (or_empty (c_source c))) as [| a src]; [reflexivity |].
  destruct (or_empty (c_profile_url c)) as [| b u]; [reflexivity |].
  destruct (scrape_creator_profile (String a src) (String b u) api store_raw w)
    as [[x | e] w1]; cbn [fst snd]; [| reflexivity].
  destruct (job_success x); reflexivity.
Qed.

Lemma record_entry_results (rep : BatchReport) (r : JobResult) :
  results (record_entry rep r) = results rep ++ [r].
Proof. unfold record_entry. destruct (job_success r); reflexivity. Qed.

(** The entry at position [i] is the one made for the [i]-th candidate on
    the world the loop has reached by then. *)
Lemma process_loop_lookup (api store_raw : bool) (creators : list CreatorDict) :
  forall (rep : BatchReport) (w : World) (i : nat) (c : CreatorDict),
    creators !! i = Some c ->
    results (fst (process_loop scrape_creator_profile api store_raw creators rep w))
      !! (length (results rep) + i)%nat
    = Some (fst (process_one scrape_creator_profile api store_raw c
                   (snd (process_loop scrape_creator_profile api store_raw
                           (take i creators) rep w)))).
Proof.
  induction creators as [| c0 rest IH]; intros rep w i c Hc; [discriminate |].
  rewrite process_loop_cons.
  set (e0 := fst (process_one scrape_creator_profile api store_raw c0 w)).
  set (w1 := snd (process_one scrape_creator_profile api store_raw c0 w)).
  destruct i as [| i]; simpl in Hc.
  - injection Hc as ->.
    destruct (process_loop_spec api store_raw rest (record_entry rep e0) w1)
      as (new & Hres & _).
    cbn zeta in Hres. rewrite Hres, record_entry_results, <- app_assoc.
    rewrite lookup_app_r by lia.
    replace (length (results rep) + 0 - length (results rep))%nat with 0%nat by lia.
    reflexivity.
  - specialize (IH (record_entry rep e0) w1 i c Hc).
    rewrite record_entry_results, length_app in IH. simpl length in IH.
    replace (length (results rep) + S i)%nat
      with (length (results rep) + 1 + i)%nat by lia.
    rewrite IH. cbn [take]. rewrite process_loop_cons. reflexivity.
Qed.

(** C2. Both batch entry points give one outcome per candidate.  When
    every unit of [scrape_creators_batch] completes, its list has the
    length of the input, the counts derived from it add up to that length,
    and every position holds the outcome of its own candidate's unit,
    whatever the other units did: the result the unit returned, or, for a
    unit that raised, a failure carrying the exception text, which counts
    as failed.  The report of [process_creator_batch] has
    [total_creators = len(creators)], one entry per candidate in input
    order, [successful] and [failed] counting the entries by their success
    flag, [successful + failed = total_creators], and every position holds
    the entry of its own candidate: the missing-key entry, the result the
    job returned on the world the loop had reached, or a failed entry
    carrying the text of the exception the job raised. *)
Theorem batch_one_outcome_per_candidate
    (creators : list CreatorDict) (order : list nat) (api store_raw : bool) (w : World) :
  order ≡ₚ seq 0 (length creators) ->
  (exists results w',
      scrape_creators_batch svc creators order w = (Some results, w')
      /\ length results = length creators
      /\ (successful_of results + failed_of results = length creators)%nat
      /\ forall i c, creators !! i = Some c ->
           exists k,
             order !! k = Some i
             /\ match fst (scrape_with_semaphore svc c
                             (world_at (map (scrape_with_semaphore svc) creators)
                                       order k w)) with
                | Ret r => results !! i = Some r
                | Raise e =>
                    results !! i = Some (failure e "none")
                    /\ success (failure e "none") = false
                end)
  /\ (let rep := fst (process_creator_batch scrape_creator_profile creators api store_raw w) in
      total_creators rep = length creators
      /\ length (results rep) = length creators
      /\ successful rep = successes (results rep)
      /\ failed rep = failures (results rep)
      /\ (successful rep + failed rep = total_creators rep)%nat
      /\ forall i c, creators !! i = Some c ->
           let w_i := job_world_at scrape_creator_profile api store_raw creators i w in
           let source := lower (or_empty (c_source c)) in
           let profile_url := or_empty (c_profile_url c) in
           results rep !! i
           = Some (match source, profile_url with
                   | EmptyString, _ | _, EmptyString => missing_entry c
                   | _, _ =>
                       match fst (scrape_creator_profile source profile_url
                                    api store_raw w_i) with
                       | Ret x => x
                       | Raise e => raised_entry e c
                       end
                   end)).
Proof.
  intros Hperm. split.
  - destruct (batch_spec creators order w Hperm) as (results & w' & Hrun & Hlen & Hpos).
    exists results, w'. split; [exact Hrun |]. split; [exact Hlen |].
    split; [rewrite <- Hlen; apply counts_add_up |].
    intros i c Hc. destruct (Hpos i c Hc) as (k & Hk & Hi). exists k.
    split; [exact Hk |].
    destruct (fst (scrape_with_semaphore svc c _)) as [r | e];
      [exact Hi | split; [exact Hi | reflexivity]].
  - unfold process_creator_batch, job_world_at.
    set (rep0 := {| batch_success := true; total_creators := length creators;
                    successful := 0; failed := 0; results := [] |}).
    pose proof (process_loop_spec api store_raw creators rep0 w) as Hspec.
    pose proof (process_loop_lookup api store_raw creators rep0 w) as Hlook.
    destruct (process_loop scrape_creator_profile api store_raw creators rep0 w)
      as [rep w'].
    cbn [fst snd] in *. cbn zeta in Hspec.
    destruct Hspec as (new & Hres & Hall & Hs & Hf & Ht).
    cbn [results successful failed total_creators rep0] in *.
    pose proof (Forall2_length _ _ _ Hall) as Hlen.
    pose proof (successes_failures new).
    rewrite Hres, Hs, Hf, Ht. simpl app.
    split; [reflexivity |]. split; [lia |]. split; [lia |]. split; [lia |].
    split; [lia |].
    intros i c Hc. specialize (Hlook i c Hc). rewrite Hres in Hlook. simpl in Hlook.
    rewrite Hlook. f_equal. unfold process_one, missing_entry, raised_entry.
    destruct (lower (or_empty (c_source c))) as [| a src]; [reflexivity |].
    destruct (or_empty (c_profile_url c)) as [| b u]; [reflexivity |].
    destruct (scrape_creator_profile (String a src) (String b u) api store_raw _)
      as [[x | e] w1]; reflexivity.
Qed.

End Facts.

Local Open Scope string_scope.
Local Open Scope list_scope.

Lemma shuffled_perm : shuffled ≡ₚ seq 0 (length five_creators).
Proof.
  unfold shuffled. simpl.
  change [3; 0; 4; 1; 2]%nat with ([3] ++ [0] ++ [4; 1; 2])%nat%list.
  etransitivity; [apply Permutation_app_swap_app |]. simpl. apply perm_skip.
  change [3; 4; 1; 2]%nat with ([3; 4] ++ [1] ++ [2])%nat.
  etransitivity; [apply Permutation_app_swap_app |]. simpl. apply perm_skip.
  change [3; 4; 2]%nat with ([3; 4] ++ [2] ++ [])%nat.
  etransitivity; [apply Permutation_app_swap_app |]. simpl. reflexivity.
Defined.

(** The same five candidates under two completion orders: same list. *)
Example five_creators_any_order :
  fst (scrape_creators_batch sample_svc five_creators shuffled 0%nat)
  = fst (scrape_creators_batch sample_svc five_creators (seq 0 5) 0%nat)
  /\ fst (scrape_creators_batch sample_svc five_creators shuffled 0%nat)
     = Some [ succeeded (sample_profile "https://www.instagram.com/ana/") "scraping";
              failure "browser crashed" "none";
              failure "'source'" "none";
              succeeded (sample_profile "https://www.instagram.com/dee/") "scraping";
              failure "Unsupported source: tiktok" "none" ].
Proof. split; reflexivity. Qed.

Lemma batch_results_in_input_order_witness :
  exists results w',
    scrape_creators_batch sample_svc five_creators shuffled 0%nat = (Some results, w')
    /\ length results = 5%nat
    /\ results !! 3%nat
       = Some (succeeded (sample_profile "https://www.instagram.com/dee/") "scraping")
    /\ results !! 1%nat = Some (failure "browser crashed" "none").
Proof.
  destruct (batch_results_in_input_order sample_svc five_creators shuffled 0%nat
              shuffled_perm) as (results & w' & Hrun & Hlen & Hpos).
  exists results, w'. split; [exact Hrun |]. split; [exact Hlen |]. split.
  - destruct (Hpos 3%nat (row "Instagram" "https://www.instagram.com/dee/") eq_refl)
      as (k & _ & Hr).
    rewrite Hr. reflexivity.
  - destruct (Hpos 1%nat (row "LinkedIn" "https://www.linkedin.com/in/bo/") eq_refl)
      as (k & _ & Hr).
    rewrite Hr. reflexivity.
Defined.

Lemma batch_one_outcome_per_candidate_witness :
  (exists results w',
      scrape_creators_batch sample_svc five_creators shuffled 0%nat = (Some results, w')
      /\ length results = 5%nat
      /\ results !! 2%nat = Some (failure "'source'" "none")
      /\ results !! 0%nat
         = Some (succeeded (sample_profile "https://www.instagram.com/ana/") "scraping"))
  /\ (let rep := fst (process_creator_batch sample_job five_creators true false 0%nat) in
      total_creators rep = 5%nat
      /\ length (results rep) = 5%nat
      /\ (successful rep + failed rep = total_creators rep)%nat
      /\ results rep !! 1%nat
         = Some (raised_entry "worker crashed" (row "LinkedIn" "https://www.linkedin.com/in/bo/"))).
Proof.
  destruct (batch_one_outcome_per_candidate sample_svc sample_job five_creators shuffled
              true false 0%nat shuffled_perm)
    as ((results & w' & Hrun & Hlen & _ & Hpos) & Htotal & Hlen' & _ & _ & Hsum & Hentry).
  split.
  - exists results, w'. split; [exact Hrun |]. split; [exact Hlen |]. split.
    + destruct (Hpos 2%nat _ eq_refl) as (k & _ & Hr).
      cbn in Hr. exact (proj1 Hr).
    + destruct (Hpos 0%nat _ eq_refl) as (k & _ & Hr).
      cbn in Hr. exact Hr.
  - split; [exact Htotal |]. split; [exact Hlen' |]. split; [exact Hsum |].
    rewrite (Hentry 1%nat _ eq_refl). reflexivity.
Defined.

(** The report of the worker on the five candidates: two successes, three
    failures, none of which stops the loop. *)
Example five_creators_report :
  let rep := fst (process_creator_batch sample_job five_creators true false 0%nat) in
  successful rep = 2%nat /\ failed rep = 3%nat /\ batch_success rep = false
  /\ map job_error (results rep)
     = [None; Some "worker crashed"; Some "Missing source or profile_url";
        None; Some "worker crashed"].
Proof. repeat split; reflexivity. Qed.

End BatchFacts.

(** ** Rate budget: requests above the capacity *)

Module RateLimiterMore.

Import RateLimiter RateLimiterFacts.

Local Open Scope Q_scope.

Lemma oversized_acquire_fails (self : t) (clock : Q) (n : Z) :
  (capacity self < n)%Z -> fst (acquire self clock n) = false.
Proof.
  intros Hn. unfold acquire.
  destruct (Qle_bool (inject_Z n) _) eqn:Hok; [| reflexivity].
  apply Qle_bool_iff in Hok.
  assert (Hcap : inject_Z (capacity self) < inject_Z n) by (rewrite <- Zlt_Qlt; exact Hn).
  pose proof (Q.le_min_l (inject_Z (capacity self))
                (tokens self + (clock - last_update self) * rate self)).
  lra.
Qed.

(** X3. A request larger than the capacity can never be served: with a
    non-zero rate [wait_for_tokens] sleeps and retries without end, with a
    zero rate its first delay computation divides by zero. *)
Theorem wait_for_tokens_oversized (self : t) (clock : Q) (n : Z) :
  (capacity self < n)%Z ->
  (~ rate self == 0 -> forall fuel, wait_for_tokens fuel self clock n = Spinning)
  /\ (rate self == 0 ->
      forall fuel, wait_for_tokens (S fuel) self clock n = Failed "ZeroDivisionError").
Proof.
  intros Hn. split.
  - intros Hrate fuel. revert self clock Hn Hrate.
    induction fuel as [| fuel IH]; intros self clock Hn Hrate; [reflexivity |].
    cbn [wait_for_tokens].
    pose proof (oversized_acquire_fails self clock n Hn) as Hfail.
    destruct (acquire self clock n) as [ok s1] eqn:Ha. simpl in Hfail. subst ok.
    assert (Hs1 : s1 = snd (acquire self clock n)) by (rewrite Ha; reflexivity).
    unfold wait_time.
    assert (Hr1 : rate s1 = rate self) by (rewrite Hs1; apply acquire_rate).
    rewrite Hr1.
    destruct (Qeq_bool (rate self) 0) eqn:Hz.
    { apply Qeq_bool_iff in Hz. contradiction. }
    rewrite IH; [reflexivity | |].
    + rewrite Hs1, acquire_capacity. exact Hn.
    + rewrite Hr1. exact Hrate.
  - intros Hrate fuel. cbn [wait_for_tokens].
    pose proof (oversized_acquire_fails self clock n Hn) as Hfail.
    destruct (acquire self clock n) as [ok s1] eqn:Ha. simpl in Hfail. subst ok.
    unfold wait_time.
    assert (Hr1 : rate s1 = rate self).
    { replace s1 with (snd (acquire self clock n)) by (rewrite Ha; reflexivity).
      apply acquire_rate. }
    rewrite Hr1.
    destruct (Qeq_bool (rate self) 0) eqn:Hz; [reflexivity |].
    apply Qeq_bool_neq in Hz. contradiction.
Qed.

Lemma wait_for_tokens_oversized_witness :
  wait_for_tokens 25 hourly 0 11 = Spinning.
Proof.
  apply (wait_for_tokens_oversized hourly 0 11).
  - vm_compute. reflexivity.
  - vm_compute. discriminate.
Defined.

End RateLimiterMore.

(** ** The registry of rate budgets *)

Module RegistryFacts.

Import Registry.

Local Open Scope string_scope.

Lemma get_limiter_grows
    (limiters : gmap string RateLimiter.t) (platform method : string) (now later : Q) :
  let l := fst (get_limiter limiters platform method now) in
  let limiters' := snd (get_limiter limiters platform method now) in
  limiters ⊆ limiters'
  /\ limiters' !! key platform method = Some l
  /\ (forall k, k <> key platform method -> limiters' !! k = limiters !! k)
  /\ get_limiter limiters' platform method later = (l, limiters').
Proof.
  unfold get_limiter.
  destruct (limiters !! key platform method) as [l0 |] eqn:Hk; simpl.
  - rewrite Hk. repeat split; auto.
  - rewrite lookup_insert_eq. repeat split.
    + apply insert_subseteq. exact Hk.
    + intros k Hne. apply lookup_insert_ne. congruence.
Qed.

(** X4. [get_limiter] never removes or replaces a bucket: the dictionary
    only grows, the bucket returned is the one stored under the key, and
    asking again for the same pair returns the same bucket and changes
    nothing. *)
Theorem get_limiter_append_only
    (limiters : gmap string RateLimiter.t) (platform method : string) (now later : Q) :
  let l := fst (get_limiter limiters platform method now) in
  let limiters' := snd (get_limiter limiters platform method now) in
  limiters ⊆ limiters'
  /\ limiters' !! key platform method = Some l
  /\ (forall k, k <> key platform method -> limiters' !! k = limiters !! k)
  /\ get_limiter limiters' platform method later = (l, limiters').
Proof. exact (get_limiter_grows limiters platform method now later). Qed.

Lemma append_assoc (a b c : string) : (a ++ b) ++ c = a ++ (b ++ c).
Proof.
  induction a as [| x a IH]; [reflexivity |].
  change (String x ((a ++ b) ++ c) = String x (a ++ (b ++ c))).
  rewrite IH. reflexivity.
Qed.

(** X5. The key does not keep platform and method apart: when a name
    contains an underscore, two different (platform, method) pairs read
    the same key and therefore share one bucket. *)
Theorem get_limiter_key_aliasing
    (limiters : gmap string RateLimiter.t) (p x m : string) (now later : Q) :
  key (p ++ "_" ++ x) m = key p (x ++ "_" ++ m)
  /\ fst (get_limiter (snd (get_limiter limiters (p ++ "_" ++ x) m now))
                      p (x ++ "_" ++ m) later)
     = fst (get_limiter limiters (p ++ "_" ++ x) m now).
Proof.
  assert (Hkey : key (p ++ "_" ++ x) m = key p (x ++ "_" ++ m)).
  { unfold key. rewrite !append_assoc. reflexivity. }
  split; [exact Hkey |].
  destruct (get_limiter_grows limiters (p ++ "_" ++ x) m now later)
    as (_ & Hl & _ & _).
  unfold get_limiter at 1. rewrite <- Hkey, Hl. reflexivity.
Qed.

(** X6. A pair that is not in the dictionary gets a full default bucket of
    ten tokens, so the first [wait_for_platform] on it, for up to ten
    tokens, returns without sleeping and leaves [10 - n] tokens under the
    key. *)
Theorem wait_for_unknown_platform
    (limiters : gmap string RateLimiter.t) (platform method : string)
    (n : Z) (created now : Q) (fuel : nat) :
  limiters !! key platform method = None ->
  (n <= 10)%Z ->
  (created <= now)%Q ->
  exists l',
    wait_for_platform (S fuel) limiters platform method n created now
      = (RateLimiter.Acquired [] l' now, <[key platform method := l']> limiters)
    /\ (RateLimiter.tokens l' == inject_Z (10 - n))%Q
    /\ RateLimiter.capacity l' = 10%Z
    /\ RateLimiter.last_update l' = now.
Proof.
  intros Hk Hn Hclock. unfold wait_for_platform, get_limiter. rewrite Hk.
  cbn [RateLimiter.wait_for_tokens bucket_after].
  unfold RateLimiter.acquire, RateLimiter.init; simpl.
  assert (Hlevel : (Qmin (inject_Z 10) (inject_Z 10 + (now - created) * (10 # 3600))
                    == inject_Z 10)%Q).
  { rewrite Q.min_l; [reflexivity |].
    assert (Hz : (0 <= (now - created) * (10 # 3600))%Q).
    { apply Qmult_le_0_compat; [lra | discriminate]. }
    lra. }
  assert (Hok : Qle_bool (inject_Z n)
                  (Qmin (inject_Z 10) (inject_Z 10 + (now - created) * (10 # 3600))) = true).
  { apply Qle_bool_iff. rewrite Hlevel. rewrite <- Zle_Qle. exact Hn. }
  rewrite Hok. eexists. split.
  - rewrite insert_insert_eq. reflexivity.
  - simpl. split; [| split; reflexivity].
    rewrite Hlevel. unfold Z.sub. rewrite inject_Z_plus, inject_Z_opp. ring.
Qed.

Lemma wait_for_unknown_platform_witness :
  exists l',
    wait_for_platform 1 (_setup_default_limits 0 0 0 0) "tiktok" "api" 3 4 5
      = (RateLimiter.Acquired [] l' 5,
         <[key "tiktok" "api" := l']> (_setup_default_limits 0 0 0 0))
    /\ (RateLimiter.tokens l' == inject_Z (10 - 3))%Q
    /\ RateLimiter.capacity l' = 10%Z
    /\ RateLimiter.last_update l' = 5%Q.
Proof.
  apply (wait_for_unknown_platform (_setup_default_limits 0 0 0 0) "tiktok" "api" 3 4 5 0).
  - vm_compute. reflexivity.
  - lia.
  - lra.
Defined.

End RegistryFacts.

(** ** Handles *)

Module HandleFacts.

Import Instagram Handles.

Local Open Scope string_scope.

(** The parser tests of test_parsers.py and the LinkedIn handle tests. *)
Example parse_handle_tests :
  parse_instagram_handle "https://www.instagram.com/username/" = Some "username"
  /\ parse_instagram_handle "https://instagram.com/username" = Some "username"
  /\ parse_instagram_handle "@username" = Some "username"
  /\ parse_instagram_handle "username" = Some "username"
  /\ parse_instagram_handle "" = None
  /\ parse_instagram_handle "invalid-url" = None
  /\ parse_linkedin_handle "https://www.linkedin.com/in/username/" = Some "username"
  /\ parse_linkedin_handle "https://linkedin.com/in/username" = Some "username"
  /\ parse_linkedin_handle "username" = Some "username"
  /\ parse_linkedin_handle "" = None
  /\ linkedin_extract_handle "https://www.linkedin.com/in/username/" = Some "username"
  /\ linkedin_extract_handle "https://example.com" = None.
Proof. repeat split; reflexivity. Qed.

Lemma app_cons (c : ascii) (a b : string) : String c a ++ b = String c (a ++ b).
Proof. reflexivity. Qed.

Lemma app_assoc' (a b c : string) : (a ++ b) ++ c = a ++ (b ++ c).
Proof.
  induction a as [| x a IH]; [reflexivity |].
  rewrite !app_cons, IH. reflexivity.
Qed.

Lemma prefix_split (p : string) :
  forall s, String.prefix p s = true -> s = p ++ drop_chars (String.length p) s.
Proof.
  induction p as [| a p IH]; intros s H; [reflexivity |].
  destruct s as [| b s]; [discriminate |].
  simpl in H. destruct (ascii_dec a b) as [-> | Hne]; [| discriminate].
  simpl String.length. simpl drop_chars. rewrite app_cons. f_equal. apply IH, H.
Qed.

Lemma take_run_no_sep (s : string) : no_sep (take_run s) = true.
Proof.
  induction s as [| c s IH]; simpl; [reflexivity |].
  destruct (is_sep c) eqn:Hc; simpl; [reflexivity |]. rewrite Hc. exact IH.
Qed.

Lemma take_run_split (s : string) : exists rest, s = take_run s ++ rest.
Proof.
  induction s as [| c s [rest IH]]; simpl.
  - exists "". reflexivity.
  - destruct (is_sep c); [exists (String c s); reflexivity |].
    exists rest. rewrite app_cons. f_equal. exact IH.
Qed.

Lemma no_sep_lstrip (s : string) : no_sep s = true -> lstrip_slash s = s.
Proof.
  destruct s as [| c s]; simpl; [reflexivity |].
  unfold is_sep. destruct (Ascii.eqb c "/"); simpl; [discriminate | reflexivity].
Qed.

Lemma no_sep_rstrip (s : string) : no_sep s = true -> rstrip_slash s = s.
Proof.
  induction s as [| c s IH]; simpl; [reflexivity |].
  intros H. apply andb_prop in H. destruct H as [Hc Hs].
  rewrite (IH Hs). destruct s as [| d s']; [| reflexivity].
  unfold is_sep in Hc. destruct (Ascii.eqb c "/"); simpl in *; [discriminate | reflexivity].
Qed.

Lemma no_sep_strip (s : string) : no_sep s = true -> strip_slash s = s.
Proof.
  intros H. unfold strip_slash. rewrite (no_sep_lstrip s H). apply no_sep_rstrip, H.
Qed.

Lemma match_here_sound (s g : string) :
  match_here s = Some g ->
  g <> "" /\ no_sep g = true /\ exists post, s = "instagram.com/" ++ g ++ post.
Proof.
  unfold match_here. destruct (String.prefix _ s) eqn:Hp; [| discriminate].
  apply prefix_split in Hp. simpl String.length in Hp.
  destruct (take_run (drop_chars 14 s)) as [| c r] eqn:Hr; [discriminate |].
  intros [= <-]. split; [discriminate |]. split.
  - rewrite <- Hr. apply take_run_no_sep.
  - destruct (take_run_split (drop_chars 14 s)) as [post Hpost].
    exists post. rewrite <- Hr, <- Hpost. exact Hp.
Qed.

Lemma re_search_sound (s g : string) :
  re_search s = Some g ->
  g <> "" /\ no_sep g = true /\ occurs ("instagram.com/" ++ g) s.
Proof.
  induction s as [| c s IH].
  - simpl. discriminate.
  - cbn [re_search]. destruct (match_here (String c s)) as [g' |] eqn:Hm.
    + intros [= <-]. destruct (match_here_sound _ _ Hm) as (H1 & H2 & post & H3).
      repeat split; auto. exists "", post. rewrite app_assoc'. exact H3.
    + intros H. destruct (IH H) as (H1 & H2 & pre & post & H3).
      repeat split; auto. exists (String c pre), post. rewrite app_cons. f_equal. exact H3.
Qed.

(** X7. A handle extracted from a profile URL is never empty, contains no
    ['/'] and no ['?'], and the URL contains ["instagram.com/"] followed by
    it; so the test [if not handle] of [scrape_profile] only rejects
    [None]. *)
Theorem extract_handle_sound (url h : string) :
  _extract_handle url = Some h ->
  h <> "" /\ no_sep h = true /\ occurs ("instagram.com/" ++ h) url
  /\ truthy_str (_extract_handle url) = true.
Proof.
  unfold _extract_handle. destruct (contains _ url); [| discriminate].
  destruct (re_search url) as [g |] eqn:Hs; [| discriminate].
  destruct (re_search_sound _ _ Hs) as (H1 & H2 & H3).
  rewrite (no_sep_strip g H2). intros [= <-].
  repeat split; auto. destruct g; [contradiction | reflexivity].
Qed.

Lemma extract_handle_sound_witness :
  "username" <> ""
  /\ no_sep "username" = true
  /\ occurs ("instagram.com/" ++ "username") "https://www.instagram.com/username/?hl=en"
  /\ truthy_str (_extract_handle "https://www.instagram.com/username/?hl=en") = true.
Proof.
  apply (extract_handle_sound "https://www.instagram.com/username/?hl=en" "username").
  reflexivity.
Defined.

Lemma app_nil_l' (s : string) : "" ++ s = s.
Proof. reflexivity. Qed.

Lemma prefix_app (p s : string) : String.prefix p (p ++ s) = true.
Proof.
  induction p as [| a p IH]; [rewrite app_nil_l'; destruct s; reflexivity |].
  rewrite app_cons. simpl. destruct (ascii_dec a a); [exact IH | contradiction].
Qed.

Lemma drop_app (p s : string) : drop_chars (String.length p) (p ++ s) = s.
Proof. induction p as [| a p IH]; [reflexivity | rewrite app_cons; exact IH]. Qed.

Lemma take_run_app (h post : string) :
  no_sep h = true -> take_run (h ++ String "/" post) = h.
Proof.
  induction h as [| c h IH]; intros H; [reflexivity |].
  simpl in H. apply andb_prop in H. destruct H as [Hc Hh].
  rewrite app_cons. simpl. apply negb_true_iff in Hc. rewrite Hc, (IH Hh). reflexivity.
Qed.

Lemma match_here_hit (h post : string) :
  h <> "" -> no_sep h = true ->
  match_here ("instagram.com/" ++ h ++ String "/" post) = Some h.
Proof.
  intros Hne Hh. unfold match_here. rewrite prefix_app.
  change 14%nat with (String.length "instagram.com/").
  rewrite drop_app, (take_run_app h post Hh).
  destruct h; [contradiction | reflexivity].
Qed.

Lemma match_here_first (c : ascii) (s : string) :
  c <> "i"%char -> match_here (String c s) = None.
Proof.
  intros Hc. unfold match_here.
  change (String.prefix "instagram.com/" (String c s))
    with (if ascii_dec "i" c then String.prefix "nstagram.com/" s else false).
  destruct (ascii_dec "i" c) as [<- | _]; [contradiction | reflexivity].
Qed.

Lemma re_search_skip (c : ascii) (s : string) :
  c <> "i"%char -> re_search (String c s) = re_search s.
Proof.
  intros Hc. cbn [re_search]. rewrite (match_here_first c s Hc). reflexivity.
Qed.

Lemma contains_skip (lit : string) (c : ascii) (s : string) :
  c <> "i"%char -> contains (String "i" lit) (String c s) = contains (String "i" lit) s.
Proof.
  intros Hc. cbn [contains].
  change (String.prefix (String "i" lit) (String c s))
    with (if ascii_dec "i" c then String.prefix lit s else false).
  destruct (ascii_dec "i" c) as [<- | _]; [contradiction | reflexivity].
Qed.

Lemma contains_here (lit s : string) : contains lit (lit ++ s) = true.
Proof.
  destruct (lit ++ s) eqn:Heq; cbn [contains];
    rewrite <- Heq, prefix_app; reflexivity.
Qed.

Lemma profile_url_round_trip (h : string) :
  h <> "" -> no_sep h = true ->
  _extract_handle ("https://www.instagram.com/" ++ h ++ "/") = Some h.
Proof.
  intros Hne Hh.
  unfold _extract_handle. rewrite !app_cons, app_nil_l'.
  rewrite !contains_skip by discriminate.
  rewrite !re_search_skip by discriminate.
  match goal with |- context [contains _ ?x] =>
    change x with ("instagram.com/" ++ h ++ String "/" "") end.
  rewrite contains_here.
  assert (Hs : re_search ("instagram.com/" ++ h ++ String "/" "") = Some h).
  { destruct ("instagram.com/" ++ h ++ String "/" "") eqn:Heq;
      cbn [re_search]; rewrite <- Heq, (match_here_hit h "" Hne Hh); reflexivity. }
  rewrite Hs, (no_sep_strip h Hh). reflexivity.
Qed.

(** X8. Round trip with discovery: the profile URL that discovery builds
    for a handle, ["https://www.instagram.com/<handle>/"], is parsed back to
    that handle by the scraper, for every non-empty handle without ['/']
    and ['?'] (the handles the page extraction lets through). *)
Theorem extract_handle_of_profile_url (h : string) :
  h <> "" -> no_sep h = true ->
  _extract_handle ("https://www.instagram.com/" ++ h ++ "/") = Some h.
Proof. exact (profile_url_round_trip h). Qed.

Lemma extract_handle_of_profile_url_witness :
  _extract_handle ("https://www.instagram.com/" ++ "ana.b_1" ++ "/") = Some "ana.b_1".
Proof.
  apply (extract_handle_of_profile_url "ana.b_1"); [discriminate | reflexivity].
Defined.

Lemma class_then_end_shape (cls : ascii -> bool) (s : string) :
  class_then_end cls s = true ->
  exists body, all_chars cls body = true /\ (s = body \/ s = body ++ newline).
Proof.
  induction s as [| c s IH]; simpl.
  - intros _. exists "". split; [reflexivity | left; reflexivity].
  - destruct (cls c) eqn:Hc.
    + intros H. destruct (IH H) as (body & Hb & Hs).
      exists (String c body). simpl. rewrite Hc, Hb. split; [reflexivity |].
      destruct Hs as [-> | ->]; [left | right]; reflexivity.
    + intros H. apply andb_prop in H. destruct H as [Hnl Hend].
      apply Ascii.eqb_eq in Hnl. subst c. destruct s; [| discriminate].
      exists "". split; [reflexivity | right; reflexivity].
Qed.

Lemma re_match_class_shape (cls : ascii -> bool) (s : string) :
  re_match_class cls s = true ->
  exists body, body <> "" /\ all_chars cls body = true
               /\ (s = body \/ s = body ++ newline).
Proof.
  destruct s as [| c s]; simpl; [discriminate |].
  intros H. apply andb_prop in H. destruct H as [Hc Hrest].
  destruct (class_then_end_shape cls s Hrest) as (body & Hb & Hs).
  exists (String c body). simpl. rewrite Hc, Hb.
  split; [discriminate |]. split; [reflexivity |].
  destruct Hs as [-> | ->]; [left | right]; reflexivity.
Qed.

(** X9. Whatever [parse_instagram_handle] accepts is a non-empty run of
    letters, digits, dots and underscores, possibly followed by one final
    newline (Python's [$] also matches just before a newline that ends the
    string); in particular it never returns a handle with ['@'], ['/'] or a
    space. *)
Theorem parse_instagram_handle_shape (s h : string) :
  parse_instagram_handle s = Some h ->
  exists body, body <> "" /\ all_chars is_ig_char body = true
               /\ (h = body \/ h = body ++ newline).
Proof.
  unfold parse_instagram_handle. destruct s as [| c s]; [discriminate |].
  match goal with |- context [re_match_class is_ig_char ?x] =>
    destruct (re_match_class is_ig_char x) eqn:Hm; [| discriminate];
    intros [= <-]; exact (re_match_class_shape _ _ Hm) end.
Qed.

Lemma parse_instagram_handle_shape_witness :
  exists body, body <> "" /\ all_chars is_ig_char body = true
               /\ ("user_1" ++ newline = body \/ "user_1" ++ newline = body ++ newline).
Proof.
  apply (parse_instagram_handle_shape ("@user_1" ++ newline) ("user_1" ++ newline)).
  reflexivity.
Defined.

Lemma occurs_contains (p q s : string) : occurs (p ++ q) s -> contains p s = true.
Proof.
  intros (pre & post & ->). induction pre as [| c pre IH].
  - rewrite app_nil_l', app_assoc'. apply contains_here.
  - rewrite app_cons. cbn [contains]. rewrite IH. apply orb_true_r.
Qed.

Lemma re_search_lstrip_at (s : string) : re_search (lstrip_at s) = re_search s.
Proof.
  induction s as [| c s IH]; [reflexivity |].
  simpl lstrip_at. destruct (Ascii.eqb c "@") eqn:Hc; [| reflexivity].
  apply Ascii.eqb_eq in Hc. subst c. rewrite IH.
  symmetry. apply re_search_skip. discriminate.
Qed.

(** X10. The two Instagram handle parsers agree wherever both succeed: on
    a URL for which the scraper's [_extract_handle] finds a handle,
    [parse_instagram_handle] returns either that same handle or nothing. *)
Theorem instagram_parsers_agree (url h : string) :
  _extract_handle url = Some h ->
  parse_instagram_handle url = (if re_match_class is_ig_char h then Some h else None).
Proof.
  intros Hx. unfold _extract_handle in Hx.
  destruct (contains "instagram.com/" url) eqn:Hc; [| discriminate].
  destruct (re_search url) as [g |] eqn:Hs; [| discriminate].
  destruct (re_search_sound _ _ Hs) as (Hne & Hsep & Hocc).
  rewrite (no_sep_strip g Hsep) in Hx. injection Hx as <-.
  unfold parse_instagram_handle.
  destruct url as [| c u]; [discriminate |].
  rewrite re_search_lstrip_at, Hs.
  assert (Hin : contains "instagram.com" (lstrip_at (String c u)) = true).
  { pose proof (re_search_lstrip_at (String c u)) as Hl. rewrite Hs in Hl.
    destruct (re_search_sound _ _ Hl) as (_ & _ & Hocc').
    apply (occurs_contains "instagram.com" ("/" ++ g)).
    destruct Hocc' as (pre & post & Heq). exists pre, post. rewrite Heq. reflexivity. }
  rewrite Hin. reflexivity.
Qed.

Lemma instagram_parsers_agree_witness :
  parse_instagram_handle "@https://www.instagram.com/user.name/?hl=en" = Some "user.name".
Proof.
  apply (instagram_parsers_agree "@https://www.instagram.com/user.name/?hl=en" "user.name").
  reflexivity.
Defined.

Lemma match_lit_here_no_sep (lit s g : string) :
  match_lit_here lit s = Some g -> no_sep g = true.
Proof.
  unfold match_lit_here. destruct (String.prefix lit s); [| discriminate].
  destruct (take_run _) as [| c r] eqn:Hr; [discriminate |].
  intros [= <-]. rewrite <- Hr. apply take_run_no_sep.
Qed.

Lemma re_search_lit_no_sep (lit s g : string) :
  re_search_lit lit s = Some g -> no_sep g = true.
Proof.
  induction s as [| c s IH]; cbn [re_search_lit].
  - destruct (match_lit_here lit "") eqn:Hm; [| discriminate].
    intros [= <-]. exact (match_lit_here_no_sep _ _ _ Hm).
  - destruct (match_lit_here lit (String c s)) eqn:Hm.
    + intros [= <-]. exact (match_lit_here_no_sep _ _ _ Hm).
    + exact IH.
Qed.

(** X11. On LinkedIn the scraper and the parser agree: every handle that
    [LinkedInScraper._extract_handle] extracts from a URL is exactly what
    [parse_linkedin_handle] returns for that URL. *)
Theorem linkedin_parsers_agree (url h : string) :
  linkedin_extract_handle url = Some h -> parse_linkedin_handle url = Some h.
Proof.
  unfold linkedin_extract_handle, parse_linkedin_handle.
  destruct (contains "linkedin.com/in/" url) eqn:Hc; [| discriminate].
  destruct (re_search_lit "linkedin.com/in/" url) as [g |] eqn:Hs; [| discriminate].
  rewrite (no_sep_strip g (re_search_lit_no_sep _ _ _ Hs)). intros [= <-].
  destruct url; [discriminate | reflexivity].
Qed.

Lemma linkedin_parsers_agree_witness :
  parse_linkedin_handle "https://www.linkedin.com/in/john-doe/" = Some "john-doe".
Proof.
  apply (linkedin_parsers_agree "https://www.linkedin.com/in/john-doe/" "john-doe").
  reflexivity.
Defined.

End HandleFacts.

(** ** Discovery: filter, feed order, hashtags, callers *)

Module DiscoveryMore.

Import Discovery DiscoveryFacts DiscoveryCallers.

Local Open Scope Z_scope.

Lemma niche_in_complete (x : string) (l : list string) :
  In x l -> niche_in (Some x) l = true.
Proof.
  intros Hin. simpl. apply existsb_exists. exists x. split; [exact Hin |].
  apply String.eqb_refl.
Qed.

(** [_passes_filters] accepts a candidate exactly when its follower
    count (0 when absent) lies within the inclusive bounds and, if a
    non-empty niche list is given, its niche is present and in that list;
    [None] and the empty list switch the niche test off. *)
Lemma passes_filters_iff (cfg : Config) (c : Creator) :
  _passes_filters c (niches cfg) (min_followers cfg) (max_followers cfg) = true
  <-> passes cfg c.
Proof.
  split; [apply passes_filters_sound |].
  unfold passes, _passes_filters. intros [[Hlo Hhi] Hn].
  destruct (follower_count c) as [fc |];
    (destruct (_ <? min_followers cfg) eqn:H1; [apply Z.ltb_lt in H1; lia |]);
    (destruct (max_followers cfg <? _) eqn:H2; [apply Z.ltb_lt in H2; lia |]);
    simpl;
    (destruct (truthy_list (niches cfg)) eqn:Ht; [| reflexivity]);
    destruct (Hn eq_refl) as (n & l & Hc & Hl & Hin);
    rewrite Hc, Hl; simpl; rewrite (proj2 (existsb_exists _ _));
    try reflexivity; exists n; (split; [exact Hin | apply String.eqb_refl]).
Qed.

Lemma consume_sublist (cfg : Config) (new_creators : list Creator) :
  forall out seen,
    exists add,
      fst (consume cfg new_creators out seen) = out ++ add
      /\ sublist add new_creators.
Proof.
  induction new_creators as [| c rest IH]; intros out seen; simpl.
  - exists []. rewrite app_nil_r. split; [reflexivity | constructor].
  - destruct (max_creators cfg <=? Z.of_nat (length out)).
    { exists []. rewrite app_nil_r. split; [reflexivity | apply sublist_nil_l]. }
    destruct (decide (handle c ∈ seen)).
    { destruct (IH out seen) as (add & H1 & H2). exists add.
      split; [exact H1 | apply sublist_cons; exact H2]. }
    destruct (_passes_filters c _ _ _); simpl.
    + destruct (IH (out ++ [c]) ({[handle c]} ∪ seen)) as (add & H1 & H2).
      exists (c :: add). rewrite H1, <- app_assoc. split; [reflexivity |].
      apply sublist_skip. exact H2.
    + destruct (IH out seen) as (add & H1 & H2). exists add.
      split; [exact H1 | apply sublist_cons; exact H2].
Qed.

Lemma body_sublist (cfg : Config) (s : Step) (st : Run) :
  match body cfg s st with
  | Next st' | Leaves _ st' =>
      exists add, creators st' = creators st ++ add /\ sublist add (extracted s)
  end.
Proof.
  unfold body, handler, extracted.
  destruct (obs s) as [msg | new_creators].
  - destruct (recover_raises s);
      exists []; rewrite app_nil_r; (split; [reflexivity | constructor]).
  - pose proof (consume_sublist cfg new_creators (creators st) (discovered_creators st))
      as (add & H1 & H2).
    destruct (consume cfg new_creators (creators st) (discovered_creators st))
      as [out seen]. simpl in H1.
    destruct (30 <? _); [destruct (reload_raises s); [destruct (recover_raises s) |] |];
      simpl; eauto.
Qed.

Lemma loop_sublist (cfg : Config) (t0 : Z) (world : list Step) :
  forall st,
    match loop cfg t0 world st with
    | Returned st' | Escaped _ st' | Running st' =>
        exists add, creators st' = creators st ++ add /\ sublist add (feed world)
    end.
Proof.
  induction world as [| s world IH]; intros st; simpl.
  - exists []. rewrite app_nil_r. split; [reflexivity | constructor].
  - assert (Hstay : exists add, creators st = creators st ++ add
                                /\ sublist add (feed (s :: world))).
    { exists []. rewrite app_nil_r. split; [reflexivity | apply sublist_nil_l]. }
    destruct (_ && _); [| exact Hstay].
    pose proof (body_sublist cfg s st) as Hb.
    destruct (body cfg s st) as [st1 | msg st1]; destruct Hb as (a1 & H1 & H2).
    + specialize (IH st1).
      destruct (loop cfg t0 world st1) as [st' | m st' | st'];
        destruct IH as (a2 & H3 & H4);
        exists (a1 ++ a2); rewrite H3, H1, <- app_assoc;
        (split; [reflexivity |]); unfold feed; simpl; apply sublist_app; assumption.
    + exists a1. split; [exact H1 |]. unfold feed. simpl.
      apply sublist_inserts_r. exact H2.
Qed.

(** X12. A discovery run invents nothing and keeps the order of the feed:
    the list it returns is a subsequence of the candidates the feed showed
    during the session. *)
Theorem discovery_output_follows_feed
    (cfg : Config) (seen : gset string) (w : Session)
    (out : list Creator) (seen' : gset string) :
  discover_creators cfg seen w = Some (out, seen') ->
  sublist out (feed (steps w)).
Proof.
  unfold discover_creators, _discover_from_reels.
  destruct (open_raises w); [intros [= <- _]; apply sublist_nil_l |].
  pose proof (loop_sublist cfg (start_time w) (steps w)
                {| creators := []; discovered_creators := seen;
                   last_scroll_time := start_time w; reloads := [] |}) as Hsub.
  destruct (loop cfg (start_time w) (steps w) _) as [st | msg st | st];
    [| intros [= <- _]; apply sublist_nil_l | discriminate].
  destruct (close_raises w); intros [= <- _]; [apply sublist_nil_l |].
  destruct Hsub as (add & Hc & Hs). simpl in Hc. rewrite Hc. exact Hs.
Qed.

Lemma discovery_output_follows_feed_witness :
  exists out, sublist out (feed (steps ten_candidates)) /\ length out = 5%nat.
Proof.
  destruct (ten_candidates_return ∅) as (out & seen' & Hrun).
  exists out. split.
  - exact (discovery_output_follows_feed five_of_ten ∅ ten_candidates out seen' Hrun).
  - assert (Hout : fst <$> discover_creators five_of_ten ∅ ten_candidates
                   = Some [creator "ana" 5000; creator "bo" 20000; creator "cy" 1000;
                           creator "dee" 1000000; creator "eli" 75000])
      by (vm_compute; reflexivity).
    rewrite Hrun in Hout. simpl in Hout. injection Hout as ->. reflexivity.
Defined.

(** X13. When [page.close()] raises after the loop has ended normally,
    [discover_creators] returns the empty list, but the handles the loop had
    accepted stay in the engine's seen-set: no later run on this engine
    returns any of them. *)
Theorem close_failure_loses_candidates
    (cfg : Config) (seen : gset string) (w : Session) (st : Run) :
  open_raises w = false -> close_raises w = true ->
  _discover_from_reels cfg seen (start_time w) (steps w) = Returned st ->
  discover_creators cfg seen w = Some ([], discovered_creators st)
  /\ forall h, h ∈ handles (creators st) ->
       (h ∈ discovered_creators st)
       /\ forall cfg' w' out' seen',
            discover_creators cfg' (discovered_creators st) w' = Some (out', seen') ->
            h ∉ handles out'.
Proof.
  intros Hopen Hclose Hloop.
  split; [unfold discover_creators; rewrite Hopen, Hloop, Hclose; reflexivity |].
  intros h Hh.
  pose proof (loop_inv cfg seen (start_time w) (steps w)
                {| creators := []; discovered_creators := seen;
                   last_scroll_time := start_time w; reloads := [] |}
                (inv_init cfg seen)) as Hinv.
  unfold _discover_from_reels in Hloop. rewrite Hloop in Hinv.
  destruct Hinv as [_ _ Hs _ _].
  split; [exact (Hs h Hh) |].
  intros cfg' w' out' seen' Hrun Hin.
  destruct (run_seen _ _ _ _ _ Hrun) as [Hnew _].
  destruct (Hnew h Hin) as [Hnot _]. exact (Hnot (Hs h Hh)).
Qed.

Lemma close_failure_loses_candidates_witness :
  exists st,
    _discover_from_reels five_of_ten ∅ (start_time closing_fails) (steps closing_fails)
      = Returned st
    /\ discover_creators five_of_ten ∅ closing_fails = Some ([], discovered_creators st).
Proof.
  destruct (_discover_from_reels five_of_ten ∅ (start_time closing_fails)
              (steps closing_fails)) as [st | msg st | st] eqn:Hloop.
  - exists st. split; [reflexivity |].
    exact (proj1 (close_failure_loses_candidates five_of_ten ∅ closing_fails st
                    eq_refl eq_refl Hloop)).
  - exfalso. apply (f_equal is_returned) in Hloop. vm_compute in Hloop. discriminate.
  - exfalso. apply (f_equal is_returned) in Hloop. vm_compute in Hloop. discriminate.
Defined.

Lemma firstn_le_length {A} (n : nat) (l : list A) : (length (firstn n l) <= n)%nat.
Proof. rewrite length_firstn. lia. Qed.

Lemma hashtag_consume_spec (info : string -> option (Z * option string))
    (hs : list string) :
  forall (out : list Creator) (seen0 seen : gset string),
    NoDup (handles out) ->
    (forall h, h ∈ handles out -> h ∈ seen) ->
    Forall (filed seen0) out ->
    seen0 ⊆ seen ->
    let r := hashtag_consume info hs out seen in
    NoDup (handles (fst r))
    /\ (forall h, h ∈ handles (fst r) -> h ∈ snd r)
    /\ Forall (filed seen0) (fst r)
    /\ seen ⊆ snd r
    /\ (length (fst r) <= length out + length hs)%nat.
Proof.
  induction hs as [| x rest IH]; intros out seen0 seen Hnd Hin Hf Hsub; simpl.
  - repeat split; auto. lia.
  - destruct (decide (x ∈ seen)) as [Hx | Hx].
    { destruct (IH out seen0 seen Hnd Hin Hf Hsub) as (H1 & H2 & H3 & H4 & H5).
      repeat split; auto. lia. }
    destruct (info x) as [[fc n] |].
    2:{ destruct (IH out seen0 seen Hnd Hin Hf Hsub) as (H1 & H2 & H3 & H4 & H5).
        repeat split; auto. lia. }
    set (c := {| handle := x; profile_url := _; follower_count := Some fc; niche := n |}).
    destruct (IH (out ++ [c]) seen0 ({[x]} ∪ seen)) as (H1 & H2 & H3 & H4 & H5).
    + unfold handles. rewrite map_app. simpl. apply NoDup_app. split; [exact Hnd |].
      split; [| apply NoDup_singleton].
      intros h Hh Hh'. apply list_elem_of_singleton in Hh'. subst h. exact (Hx (Hin x Hh)).
    + intros h. unfold handles. rewrite map_app. simpl.
      rewrite elem_of_app, list_elem_of_singleton.
      intros [Hh | ->]; apply elem_of_union; [right; exact (Hin h Hh) | left].
      apply elem_of_singleton. reflexivity.
    + apply Forall_app. split; [exact Hf |]. constructor; [| constructor].
      split; [reflexivity |]. simpl. intros Hc. exact (Hx (Hsub x Hc)).
    + etransitivity; [exact Hsub | apply union_subseteq_r].
    + repeat split; auto.
      * etransitivity; [apply union_subseteq_r | exact H4].
      * rewrite length_app in H5. simpl in H5. lia.
Qed.

(** X14. [_extract_creators_from_hashtag] returns pairwise distinct
    handles, none of which was in the seen-set, each filed under
    ["https://www.instagram.com/<handle>/"] and added to the seen-set; with a
    non-negative limit it returns at most that many. *)
Theorem hashtag_extraction_spec
    (info : string -> option (Z * option string))
    (creator_handles : list string) (n : Z) (seen : gset string) :
  let r := _extract_creators_from_hashtag info creator_handles n seen in
  NoDup (handles (fst r))
  /\ Forall (filed seen) (fst r)
  /\ (forall h, h ∈ handles (fst r) -> h ∈ snd r)
  /\ seen ⊆ snd r
  /\ (0 <= n -> Z.of_nat (length (fst r)) <= n).
Proof.
  unfold _extract_creators_from_hashtag.
  destruct (hashtag_consume_spec info (py_take n creator_handles) [] seen seen)
    as (H1 & H2 & H3 & H4 & H5); try (constructor; fail); try reflexivity.
  { intros h Hh. apply elem_of_nil in Hh. contradiction. }
  repeat split; auto.
  intros Hn. simpl in H5. unfold py_take in H5 |- *.
  destruct (n <? 0) eqn:Hneg; [apply Z.ltb_lt in Hneg; lia |].
  pose proof (firstn_le_length (Z.to_nat n) creator_handles). lia.
Qed.

Lemma hashtag_loop_spec (n : Z) (tags : list tag_obs) :
  forall (out : list Creator) (seen0 seen : gset string),
    NoDup (handles out) ->
    (forall h, h ∈ handles out -> h ∈ seen) ->
    Forall (filed seen0) out ->
    seen0 ⊆ seen ->
    let r := hashtag_loop n tags out seen in
    NoDup (handles (fst r))
    /\ (forall h, h ∈ handles (fst r) -> h ∈ snd r)
    /\ Forall (filed seen0) (fst r)
    /\ seen ⊆ snd r
    /\ (0 <= n ->
        Z.of_nat (length (fst r)) <= Z.of_nat (length out) + Z.of_nat (length tags) * n).
Proof.
  induction tags as [| t rest IH]; intros out seen0 seen Hnd Hin Hf Hsub.
  - simpl. repeat split; auto. lia.
  - assert (Hskip : let r := hashtag_loop n rest out seen in
              NoDup (handles (fst r))
              /\ (forall h, h ∈ handles (fst r) -> h ∈ snd r)
              /\ Forall (filed seen0) (fst r)
              /\ seen ⊆ snd r
              /\ (0 <= n ->
                  Z.of_nat (length (fst r))
                  <= Z.of_nat (length out) + Z.of_nat (length (t :: rest)) * n)).
    { destruct (IH out seen0 seen Hnd Hin Hf Hsub) as (H1 & H2 & H3 & H4 & H5).
      repeat split; auto. intros Hn. specialize (H5 Hn). simpl length. nia. }
    destruct t as [msg | msg | hs info]; [exact Hskip | exact Hskip |].
    cbn [hashtag_loop]. unfold _extract_creators_from_hashtag.
    destruct (hashtag_consume_spec info (py_take n hs) [] seen seen)
      as (E1 & E2 & E3 & E4 & E5); try (constructor; fail); try reflexivity.
    { intros h Hh. apply elem_of_nil in Hh. contradiction. }
    destruct (hashtag_consume info (py_take n hs) [] seen) as [tag_out seen1].
    simpl in E1, E2, E3, E4, E5.
    destruct (IH (out ++ tag_out) seen0 seen1) as (H1 & H2 & H3 & H4 & H5).
    + unfold handles. rewrite map_app. apply NoDup_app. split; [exact Hnd |].
      split; [| exact E1].
      intros h Hh Hh'. rewrite Forall_forall in E3.
      apply list_elem_of_fmap in Hh'. destruct Hh' as (c & -> & Hc).
      destruct (E3 c Hc) as [_ Hnot]. exact (Hnot (Hin _ Hh)).
    + intros h. unfold handles. rewrite map_app, elem_of_app.
      intros [Hh | Hh]; [apply E4, Hin, Hh | apply E2, Hh].
    + apply Forall_app. split; [exact Hf |].
      eapply Forall_impl; [exact E3 |]. intros c [Hu Hnot]. split; [exact Hu |].
      intros Hc. exact (Hnot (Hsub _ Hc)).
    + etransitivity; [exact Hsub | exact E4].
    + repeat split; auto.
      * etransitivity; [exact E4 | exact H4].
      * intros Hn. specialize (H5 Hn).
        assert (Hlen : Z.of_nat (length tag_out) <= n).
        { unfold py_take in E5. destruct (n <? 0) eqn:Hneg; [apply Z.ltb_lt in Hneg; lia |].
          pose proof (firstn_le_length (Z.to_nat n) hs). lia. }
        rewrite length_app in H5. simpl length. nia.
Qed.

Lemma hashtag_run_invariant
    (open_raises : bool) (tags : list tag_obs) (n : Z) (seen : gset string) :
  let r := discover_by_hashtag open_raises tags n seen in
  NoDup (handles (fst r))
  /\ Forall (filed seen) (fst r)
  /\ (forall h, h ∈ handles (fst r) -> h ∈ snd r)
  /\ seen ⊆ snd r
  /\ (0 <= n -> Z.of_nat (length (fst r)) <= Z.of_nat (length tags) * n).
Proof.
  unfold discover_by_hashtag. destruct open_raises; simpl.
  - repeat split; try constructor; try reflexivity; try nia.
    intros h Hh. apply elem_of_nil in Hh. contradiction.
  - destruct (hashtag_loop_spec n tags [] seen seen)
      as (H1 & H2 & H3 & H4 & H5); try (constructor; fail); try reflexivity.
    { intros h Hh. apply elem_of_nil in Hh. contradiction. }
    repeat split; auto.
Qed.

(** A page that fails is passed over: the loop goes on as if the hashtag
    had not been in the list. *)
Lemma hashtag_loop_skips (n : Z) (before after : list tag_obs) (t : tag_obs) :
  match t with TagHandles _ _ => False | _ => True end ->
  forall (out : list Creator) (seen : gset string),
    hashtag_loop n (before ++ t :: after) out seen
    = hashtag_loop n (before ++ after) out seen.
Proof.
  intros Ht. induction before as [| b before IH]; intros out seen.
  - destruct t; [reflexivity | reflexivity | contradiction].
  - cbn [app hashtag_loop]. destruct b as [msg | msg | hs info]; [apply IH | apply IH |].
    destruct (_extract_creators_from_hashtag info hs n seen). apply IH.
Qed.

(** X15. [discover_by_hashtag] over any list of hashtag pages returns
    pairwise distinct handles, none of them in the seen-set it started
    with, and, for a non-negative limit, at most [max_creators_per_hashtag]
    per hashtag; a hashtag whose page fails, at navigation or while
    scrolling, contributes nothing and does not stop the others: the run
    returns what it returns without that hashtag in the list. *)
Theorem discover_by_hashtag_spec
    (open_raises : bool) (tags : list tag_obs) (n : Z) (seen : gset string) :
  let r := discover_by_hashtag open_raises tags n seen in
  NoDup (handles (fst r))
  /\ Forall (filed seen) (fst r)
  /\ (forall h, h ∈ handles (fst r) -> h ∈ snd r)
  /\ seen ⊆ snd r
  /\ (0 <= n -> Z.of_nat (length (fst r)) <= Z.of_nat (length tags) * n)
  /\ (forall before after msg,
        tags = (before ++ TagGotoRaised msg :: after)%list ->
        r = discover_by_hashtag open_raises (before ++ after) n seen)
  /\ (forall before after msg,
        tags = (before ++ TagScrollRaised msg :: after)%list ->
        r = discover_by_hashtag open_raises (before ++ after) n seen).
Proof.
  destruct (hashtag_run_invariant open_raises tags n seen) as (H1 & H2 & H3 & H4 & H5).
  cbn zeta.
  split; [exact H1 |]. split; [exact H2 |]. split; [exact H3 |]. split; [exact H4 |].
  split; [exact H5 |].
  split; intros before after msg ->; unfold discover_by_hashtag;
    destruct open_raises; try reflexivity; apply hashtag_loop_skips; exact I.
Qed.

Lemma discover_by_hashtag_spec_witness :
  NoDup (handles (fst (discover_by_hashtag false sample_tags 3 ∅)))
  /\ Z.of_nat (length (fst (discover_by_hashtag false sample_tags 3 ∅))) <= 3 * 3
  /\ discover_by_hashtag false sample_tags 3 ∅
     = discover_by_hashtag false (firstn 1 sample_tags ++ skipn 2 sample_tags) 3 ∅.
Proof.
  destruct (discover_by_hashtag_spec false sample_tags 3 ∅)
    as (H1 & _ & _ & _ & H5 & H6 & _).
  split; [exact H1 |]. split; [apply H5; lia |].
  exact (H6 (firstn 1 sample_tags) (skipn 2 sample_tags) "timeout"%string eq_refl).
Defined.

(** The two overlapping pages yield each account once; the account whose
    profile visit fails is left out and not marked as seen. *)
Example sample_tags_run :
  handles (fst (discover_by_hashtag false sample_tags 3 ∅)) = ["ana"; "bo"; "dee"]%string.
Proof. vm_compute. reflexivity. Qed.

Lemma dedupe_spec (creators : list Creator) :
  forall (unique : list Creator) (sh : gset string),
    NoDup (handles unique) ->
    (forall h, h ∈ sh <-> h ∈ handles unique) ->
    let r := dedupe creators unique sh in
    NoDup (handles r)
    /\ (exists add, r = unique ++ add /\ sublist add creators)
    /\ (forall h, h ∈ handles r <-> h ∈ handles unique \/ h ∈ handles creators)
    /\ (NoDup (handles creators) ->
        (forall h, h ∈ handles creators -> h ∉ sh) ->
        r = unique ++ creators).
Proof.
  induction creators as [| c rest IH]; intros unique sh Hnd Hsh; simpl.
  - repeat split; auto.
    + exists []. rewrite app_nil_r. split; [reflexivity | constructor].
    + intros [H | H]; [exact H | apply elem_of_nil in H; contradiction].
    + intros _ _. rewrite app_nil_r. reflexivity.
  - destruct (decide (handle c ∈ sh)) as [Hin | Hnew].
    + destruct (IH unique sh Hnd Hsh) as (H1 & (add & H2 & H3) & H4 & H5).
      split; [exact H1 |]. split; [exists add; split; [exact H2 | apply sublist_cons, H3] |].
      split.
      * intros h. rewrite H4. rewrite elem_of_cons. split; [tauto |].
        intros [H | [-> | H]]; [tauto | left; apply Hsh, Hin | tauto].
      * intros _ Hdis. exfalso. apply (Hdis (handle c)); [left | exact Hin].
    + destruct (IH (unique ++ [c]) ({[handle c]} ∪ sh)) as (H1 & (add & H2 & H3) & H4 & H5).
      * unfold handles. rewrite map_app. simpl. apply NoDup_app. split; [exact Hnd |].
        split; [| apply NoDup_singleton].
        intros h Hh Hh'. apply list_elem_of_singleton in Hh'. subst h.
        apply Hnew, Hsh, Hh.
      * intros h. unfold handles. rewrite map_app. simpl.
        rewrite elem_of_union, elem_of_singleton, elem_of_app, list_elem_of_singleton.
        rewrite Hsh. unfold handles. tauto.
      * split; [exact H1 |]. split.
        { exists (c :: add). rewrite H2, <- app_assoc. split; [reflexivity |].
          apply sublist_skip, H3. }
        split.
        { intros h. rewrite H4. unfold handles. rewrite map_app. simpl.
          rewrite elem_of_app, list_elem_of_singleton, elem_of_cons. tauto. }
        intros Hnd' Hdis. rewrite H5.
        -- rewrite <- app_assoc. reflexivity.
        -- apply NoDup_cons in Hnd'. tauto.
        -- intros h Hh. rewrite elem_of_union, elem_of_singleton.
           intros [-> | Hs].
           ++ apply NoDup_cons in Hnd'. tauto.
           ++ apply (Hdis h); [right; exact Hh | exact Hs].
Qed.

Lemma dedupe_first (creators : list Creator) :
  forall (unique : list Creator) (sh : gset string) (c : Creator),
    c ∈ dedupe creators unique sh ->
    c ∈ unique
    \/ exists pre post,
         creators = (pre ++ c :: post)%list
         /\ (handle c ∉ handles pre) /\ (handle c ∉ sh).
Proof.
  induction creators as [| c0 rest IH]; intros unique sh c Hc; simpl in Hc; [left; exact Hc |].
  destruct (decide (handle c0 ∈ sh)) as [Hin | Hnew].
  - destruct (IH unique sh c Hc) as [Hu | (pre & post & -> & Hpre & Hsh)]; [left; exact Hu |].
    right. exists (c0 :: pre), post. split; [reflexivity |]. split; [| exact Hsh].
    simpl. rewrite not_elem_of_cons. split; [| exact Hpre].
    intros Heq. rewrite Heq in Hsh. contradiction.
  - destruct (IH (unique ++ [c0])%list ({[handle c0]} ∪ sh) c Hc)
      as [Hu | (pre & post & -> & Hpre & Hsh)].
    + apply elem_of_app in Hu. destruct Hu as [Hu | Hu]; [left; exact Hu |].
      apply list_elem_of_singleton in Hu. subst c.
      right. exists [], rest. split; [reflexivity |]. split; [| exact Hnew].
      apply not_elem_of_nil.
    + apply not_elem_of_union in Hsh. destruct Hsh as [Hne Hsh].
      right. exists (c0 :: pre), post. split; [reflexivity |]. split; [| exact Hsh].
      simpl. rewrite not_elem_of_cons. split; [| exact Hpre].
      intros Heq. apply Hne, elem_of_singleton. exact Heq.
Qed.

Lemma remove_duplicates_first_occurrences (creators : list Creator) :
  NoDup (handles (remove_duplicates creators))
  /\ sublist (remove_duplicates creators) creators
  /\ (forall h, h ∈ handles (remove_duplicates creators) <-> h ∈ handles creators)
  /\ (NoDup (handles creators) -> remove_duplicates creators = creators).
Proof.
  unfold remove_duplicates.
  destruct (dedupe_spec creators [] ∅) as (H1 & (add & H2 & H3) & H4 & H5).
  { constructor. }
  { intros h. split; intros H; [apply elem_of_empty in H | apply elem_of_nil in H];
      contradiction. }
  split; [exact H1 |]. split; [rewrite H2; exact H3 |]. split.
  - intros h. rewrite H4. split; [| tauto].
    intros [H | H]; [apply elem_of_nil in H; contradiction | exact H].
  - intros Hnd. apply H5; [exact Hnd |]. intros h _ H. apply elem_of_empty in H. exact H.
Qed.

(** X16. The callers' "remove duplicates" pass keeps the first occurrence
    of every handle and nothing else: its result has pairwise distinct
    handles, is a subsequence of its input, mentions exactly the handles
    of the input, every entry it keeps is preceded in the input by no
    entry with the same handle, and it equals the input when the input
    has no repeated handle. *)
Theorem remove_duplicates_spec (creators : list Creator) :
  NoDup (handles (remove_duplicates creators))
  /\ sublist (remove_duplicates creators) creators
  /\ (forall h, h ∈ handles (remove_duplicates creators) <-> h ∈ handles creators)
  /\ (forall c, c ∈ remove_duplicates creators ->
        exists pre post,
          creators = (pre ++ c :: post)%list /\ handle c ∉ handles pre)
  /\ (NoDup (handles creators) -> remove_duplicates creators = creators).
Proof.
  destruct (remove_duplicates_first_occurrences creators) as (H1 & H2 & H3 & H4).
  split; [exact H1 |]. split; [exact H2 |]. split; [exact H3 |]. split; [| exact H4].
  intros c Hc. unfold remove_duplicates in Hc.
  destruct (dedupe_first creators [] ∅ c Hc) as [Hnil | (pre & post & Heq & Hpre & _)].
  - apply elem_of_nil in Hnil. contradiction.
  - exists pre, post. split; assumption.
Qed.

(** Of two entries with one handle the earlier one is kept. *)
Example remove_duplicates_keeps_first :
  remove_duplicates [creator "ana" 5000; creator "bo" 20000; creator "ana" 9]
  = [creator "ana" 5000; creator "bo" 20000].
Proof. reflexivity. Qed.

Lemma run_nodup (cfg : Config) (seen : gset string) (w : Session)
    (out : list Creator) (seen' : gset string) :
  discover_creators cfg seen w = Some (out, seen') -> NoDup (handles out).
Proof.
  unfold discover_creators, _discover_from_reels.
  destruct (open_raises w); [intros [= <- _]; constructor |].
  pose proof (loop_inv cfg seen (start_time w) (steps w)
                {| creators := []; discovered_creators := seen;
                   last_scroll_time := start_time w; reloads := [] |}
                (inv_init cfg seen)) as Hinv.
  destruct (loop cfg (start_time w) (steps w) _) as [st | msg st | st];
    [| intros [= <- _]; constructor | discriminate].
  destruct (close_raises w); intros [= <- _]; [constructor |].
  apply Hinv.
Qed.

(** X17. In [AutoScraperSystem.discover_creators] the Reels run and the hashtag
    run use the same engine, so their outputs never share a handle and the
    duplicate removal that follows removes nothing: the caller returns the
    Reels candidates followed by the hashtag candidates. *)
Theorem auto_discovery_has_no_duplicates
    (cfg : Config) (seen : gset string) (w : Session)
    (reels_out : list Creator) (seen1 : gset string)
    (open_raises : bool) (tags : list tag_obs) (n : Z) :
  discover_creators cfg seen w = Some (reels_out, seen1) ->
  let hashtag_out := fst (discover_by_hashtag open_raises tags n seen1) in
  remove_duplicates (reels_out ++ hashtag_out) = reels_out ++ hashtag_out.
Proof.
  intros Hrun hashtag_out.
  apply remove_duplicates_first_occurrences.
  destruct (hashtag_run_invariant open_raises tags n seen1) as (H1 & H2 & _).
  fold hashtag_out in H1, H2.
  destruct (run_seen _ _ _ _ _ Hrun) as [Hs _].
  unfold handles. rewrite map_app. apply NoDup_app.
  split; [exact (run_nodup _ _ _ _ _ Hrun) |]. split; [| exact H1].
  intros h Hh Hh'. apply list_elem_of_fmap in Hh'. destruct Hh' as (c & -> & Hc).
  rewrite Forall_forall in H2. destruct (H2 c Hc) as [_ Hnot].
  destruct (Hs _ Hh) as [_ Hin]. exact (Hnot Hin).
Qed.

Lemma auto_discovery_has_no_duplicates_witness :
  exists reels_out seen1,
    discover_creators five_of_ten ∅ ten_candidates = Some (reels_out, seen1)
    /\ remove_duplicates (reels_out ++ fst (discover_by_hashtag false sample_tags 3 seen1))
       = reels_out ++ fst (discover_by_hashtag false sample_tags 3 seen1).
Proof.
  destruct (ten_candidates_return ∅) as (out & seen1 & Hrun).
  exists out, seen1. split; [exact Hrun |].
  exact (auto_discovery_has_no_duplicates five_of_ten ∅ ten_candidates out seen1
           false sample_tags 3 Hrun).
Defined.

Lemma remove_duplicates_spec_witness :
  remove_duplicates [creator "ana" 5000; creator "bo" 20000]
  = [creator "ana" 5000; creator "bo" 20000].
Proof.
  apply (remove_duplicates_spec [creator "ana" 5000; creator "bo" 20000]).
  simpl. apply NoDup_cons. split.
  - intros H. apply list_elem_of_singleton in H. discriminate.
  - apply NoDup_singleton.
Defined.

(** X18. Every candidate that hashtag discovery returns, for handles that
    are non-empty and free of ['/'] and ['?'], carries a profile URL from
    which the scraper extracts exactly the candidate's handle. *)
Theorem hashtag_candidates_are_scrapable
    (open_raises : bool) (tags : list tag_obs) (n : Z) (seen : gset string) (c : Creator) :
  c ∈ fst (discover_by_hashtag open_raises tags n seen) ->
  handle c <> ""%string -> Handles.no_sep (handle c) = true ->
  Instagram._extract_handle (profile_url c) = Some (handle c).
Proof.
  intros Hc Hne Hsep.
  destruct (hashtag_run_invariant open_raises tags n seen) as (_ & Hf & _).
  rewrite Forall_forall in Hf. destruct (Hf c Hc) as [Hurl _].
  rewrite Hurl. apply HandleFacts.profile_url_round_trip; assumption.
Qed.

Lemma hashtag_candidates_are_scrapable_witness :
  Instagram._extract_handle (profile_url sample_filed) = Some (handle sample_filed).
Proof.
  apply (hashtag_candidates_are_scrapable false sample_tags 3 ∅ sample_filed).
  - vm_compute. apply elem_of_cons. left. reflexivity.
  - discriminate.
  - reflexivity.
Defined.

End DiscoveryMore.

(** ** Engagement rates and profile construction, continued *)

Module SchemaMore.

Import Schemas Parsers EngagementFacts.

Local Open Scope Q_scope.

(** X19. [parse_engagement_rate] gives no rate exactly when the follower
    count is missing, zero or negative (missing likes or comments count as
    0); for non-negative counts the rate lies in [0, 1], it is the exact
    ratio when the engagement does not exceed the followers and 1
    otherwise. *)
Theorem parse_engagement_rate_spec (likes comments followers : option Z) :
  (parse_engagement_rate likes comments followers = None
   <-> (followers = None \/ exists f, followers = Some f /\ (f <= 0)%Z))
  /\ forall q,
       (0 <= or0 likes)%Z -> (0 <= or0 comments)%Z ->
       parse_engagement_rate likes comments followers = Some q ->
       0 <= q /\ q <= 1
       /\ ((or0 likes + or0 comments <= or0 followers)%Z ->
           q == inject_Z (or0 likes + or0 comments) / inject_Z (or0 followers))
       /\ ((or0 followers <= or0 likes + or0 comments)%Z -> q == 1).
Proof.
  unfold parse_engagement_rate. split.
  - destruct followers as [f |]; [| split; auto].
    destruct (f <=? 0)%Z eqn:Hf.
    + apply Z.leb_le in Hf. split; [eauto | reflexivity].
    + apply Z.leb_gt in Hf. split; [discriminate |].
      intros [[=] | (f' & [= <-] & Hle)]. lia.
  - intros q Hl Hc. destruct followers as [f |]; [| discriminate].
    destruct (f <=? 0)%Z eqn:Hf; [discriminate |]. apply Z.leb_gt in Hf.
    intros [= <-]. simpl or0.
    assert (Hf' : 0 < inject_Z f).
    { change 0 with (inject_Z 0). rewrite <- Zlt_Qlt. exact Hf. }
    assert (Hratio : 0 <= inject_Z (or0 likes + or0 comments) / inject_Z f)
      by (apply ratio_nonneg; lia).
    destruct (clamp_in_unit _ Hratio) as [H0 H1].
    split; [exact H0 |]. split; [exact H1 |]. split.
    + intros Hle. apply Q.min_r. apply Qle_shift_div_r; [exact Hf' |].
      rewrite Qmult_1_l. rewrite <- Zle_Qle. exact Hle.
    + intros Hge. apply Q.min_l. apply Qle_shift_div_l; [exact Hf' |].
      rewrite Qmult_1_l. rewrite <- Zle_Qle. exact Hge.
Qed.

Lemma parse_engagement_rate_spec_witness :
  exists q, parse_engagement_rate None (Some 50%Z) (Some 1000%Z) = Some q
            /\ 0 <= q /\ q <= 1.
Proof.
  eexists. split; [reflexivity |].
  destruct (parse_engagement_rate_spec None (Some 50%Z) (Some 1000%Z)) as [_ H].
  destruct (H _ ltac:(simpl; lia) ltac:(simpl; lia) eq_refl) as (H0 & H1 & _).
  split; assumption.
Defined.

(** X20. A profile that the constructor accepts has a lower-cased source
    that is one of the two platforms, an http(s) URL and post lists of at
    most ten entries.  It carries exactly the engagement rate that was
    passed to the constructor, which lies in [0, 1] when there is one; a
    profile accepted without a rate has no top post, since the root
    validator raises on every other input without a rate. *)
Theorem constructed_profile_valid {L : StrLower} (fields p : CreatorProfile) :
  make_profile fields = Ret p ->
  (source p = "instagram"%string \/ source p = "linkedin"%string)
  /\ is_http (profile_url p) = true
  /\ validate_posts (top_posts p) = true
  /\ validate_posts (recent_posts_sample p) = true
  /\ engagement_rate p = engagement_rate fields
  /\ (forall q, engagement_rate p = Some q -> 0 <= q /\ q <= 1)
  /\ (engagement_rate p = None -> top_posts p = None \/ top_posts p = Some []).
Proof.
  intros Hp.
  destruct (EngagementFacts.make_profile_ret fields p Hp)
    as (Hs & Hu & He & Ht & Hr & -> & Hnone).
  simpl.
  assert (Hsrc : lower (source fields) = "instagram"%string
                 \/ lower (source fields) = "linkedin"%string).
  { unfold validate_source in Hs. apply orb_prop in Hs.
    destruct Hs as [H | H]; apply String.eqb_eq in H; auto. }
  split; [exact Hsrc |]. split; [exact Hu |]. split; [exact Ht |].
  split; [exact Hr |]. split; [reflexivity |]. split; [| exact Hnone].
  intros q Hq. rewrite Hq in He.
  apply EngagementFacts.validate_engagement_rate_in_unit. exact He.
Qed.

Lemma constructed_profile_valid_witness :
  exists p, make_profile rated_profile = Ret p
            /\ source p = "linkedin"%string
            /\ is_http (profile_url p) = true
            /\ engagement_rate p = engagement_rate rated_profile.
Proof.
  eexists. split; [reflexivity |].
  destruct (constructed_profile_valid (L := lower_utf8_instance) rated_profile _ eq_refl)
    as (H1 & H2 & _ & _ & H5 & _).
  split; [reflexivity |]. split; assumption.
Defined.

End SchemaMore.

(** ** The orchestrator's unit, the CSV entry point and the worker *)

Module BatchMore.

Import Schemas Batch BatchFacts BatchCallers.

Local Open Scope string_scope.

Section Facts.

Context {World : Type} {L : StrLower} (svc : Services World).

Lemma scrape_creator_cases (source profile_url : string) (w : World) :
  exists r,
    fst (scrape_creator svc source profile_url w) = Ret r
    /\ (lower source <> "instagram" -> lower source <> "linkedin" ->
        r = failure ("Unsupported source: " ++ source) "none"
        /\ snd (scrape_creator svc source profile_url w) = w)
    /\ (success r = true ->
        (lower source = "instagram"
         /\ fst (instagram_scrape_profile svc profile_url (use_api svc) w) = Ret r)
        \/ (lower source = "linkedin"
            /\ fst (linkedin_scrape_profile svc profile_url (use_api svc) w) = Ret r)).
Proof.
  unfold scrape_creator.
  assert (Hleaf : forall (r : ScrapingResult) (w' : World),
             (lower source = "instagram" \/ lower source = "linkedin") ->
             (success r = true ->
              (lower source = "instagram"
               /\ fst (instagram_scrape_profile svc profile_url (use_api svc) w) = Ret r)
              \/ (lower source = "linkedin"
                  /\ fst (linkedin_scrape_profile svc profile_url (use_api svc) w) = Ret r)) ->
             exists r0,
               fst (Ret r, w') = Ret r0
               /\ (lower source <> "instagram" -> lower source <> "linkedin" ->
                   r0 = failure ("Unsupported source: " ++ source) "none"
                   /\ snd (Ret r, w') = w)
               /\ (success r0 = true ->
                   (lower source = "instagram"
                    /\ fst (instagram_scrape_profile svc profile_url (use_api svc) w) = Ret r0)
                   \/ (lower source = "linkedin"
                       /\ fst (linkedin_scrape_profile svc profile_url (use_api svc) w)
                          = Ret r0))).
  { intros r w' Hsrc Hsucc. exists r. split; [reflexivity |]. split; [| exact Hsucc].
    intros H1 H2. destruct Hsrc; contradiction. }
  destruct (String.eqb (lower source) "instagram") eqn:Hig.
  - apply String.eqb_eq in Hig.
    destruct (instagram_scrape_profile svc profile_url (use_api svc) w)
      as [[r | e] w1] eqn:Hrun; [| apply Hleaf; [auto | discriminate]].
    destruct (success r) eqn:Hs; [| apply Hleaf; [auto | congruence]].
    destruct (profile r) as [p |]; [| apply Hleaf; auto].
    destruct (upsert_creator svc p w1) as [[ok | e] w2];
      apply Hleaf; auto; discriminate.
  - destruct (String.eqb (lower source) "linkedin") eqn:Hli.
    + apply String.eqb_eq in Hli.
      destruct (linkedin_scrape_profile svc profile_url (use_api svc) w)
        as [[r | e] w1] eqn:Hrun; [| apply Hleaf; [auto | discriminate]].
      destruct (success r) eqn:Hs; [| apply Hleaf; [auto | congruence]].
      destruct (profile r) as [p |]; [| apply Hleaf; auto].
      destruct (upsert_creator svc p w1) as [[ok | e] w2];
        apply Hleaf; auto; discriminate.
    + eexists. split; [reflexivity |]. split; [split; reflexivity | discriminate].
Qed.

(** X21. [scrape_creator] never raises: an exception of the scraper or of
    the store becomes a failure carrying its text, with method "none".  A
    source whose [lower()] is neither instagram nor linkedin is refused
    without touching scraper, store or world, and a success is always the
    very result the selected scraper returned. *)
Theorem scrape_creator_total (source profile_url : string) (w : World) :
  exists r,
    fst (scrape_creator svc source profile_url w) = Ret r
    /\ (lower source <> "instagram" -> lower source <> "linkedin" ->
        r = failure ("Unsupported source: " ++ source) "none"
        /\ snd (scrape_creator svc source profile_url w) = w)
    /\ (success r = true ->
        (lower source = "instagram"
         /\ fst (instagram_scrape_profile svc profile_url (use_api svc) w) = Ret r)
        \/ (lower source = "linkedin"
            /\ fst (linkedin_scrape_profile svc profile_url (use_api svc) w) = Ret r))
    /\ (forall e w1,
          (lower source = "instagram"
           /\ instagram_scrape_profile svc profile_url (use_api svc) w = (Raise e, w1))
          \/ (lower source = "linkedin"
              /\ linkedin_scrape_profile svc profile_url (use_api svc) w = (Raise e, w1)) ->
          r = failure e "none")
    /\ (forall sr p w1 e w2,
          (lower source = "instagram"
           /\ instagram_scrape_profile svc profile_url (use_api svc) w = (Ret sr, w1))
          \/ (lower source = "linkedin"
              /\ linkedin_scrape_profile svc profile_url (use_api svc) w = (Ret sr, w1)) ->
          success sr = true -> profile sr = Some p ->
          upsert_creator svc p w1 = (Raise e, w2) ->
          r = failure e "none").
Proof.
  destruct (scrape_creator_cases source profile_url w) as (r & Hr & Hun & Hs).
  exists r. split; [exact Hr |]. split; [exact Hun |]. split; [exact Hs |].
  assert (Hneq : lower source = "linkedin" -> lower source = "instagram" -> False)
    by (intros H1 H2; rewrite H1 in H2; discriminate).
  assert (Hsel : forall x,
            (lower source = "instagram"
             /\ instagram_scrape_profile svc profile_url (use_api svc) w = x)
            \/ (lower source = "linkedin"
                /\ linkedin_scrape_profile svc profile_url (use_api svc) w = x) ->
            fst (scrape_creator svc source profile_url w)
            = fst (match x with
                   | (Raise e, w1) => (Ret (failure e "none"), w1)
                   | (Ret result, w1) =>
                       match success result, profile result with
                       | true, Some p =>
                           match upsert_creator svc p w1 with
                           | (Raise e, w2) => (Ret (failure e "none"), w2)
                           | (Ret _, w2) => (Ret result, w2)
                           end
                       | _, _ => (Ret result, w1)
                       end
                   end)).
  { intros x [[Hig <-] | [Hli <-]]; unfold scrape_creator.
    - rewrite Hig. reflexivity.
    - destruct (String.eqb (lower source) "instagram") eqn:Hig.
      + apply String.eqb_eq in Hig. exfalso. exact (Hneq Hli Hig).
      + rewrite Hli. reflexivity. }
  split.
  - intros e w1 Hc. rewrite (Hsel _ Hc) in Hr. simpl in Hr. congruence.
  - intros sr p w1 e w2 Hc Hsucc Hp Hup. rewrite (Hsel _ Hc) in Hr.
    rewrite Hsucc, Hp, Hup in Hr. simpl in Hr. congruence.
Qed.

Lemma filter_sources_matches (sources : option (list string))
    (creators : list (string * string)) (c : string * string) :
  In c (filter_sources sources creators)
  <-> In c creators
      /\ (Discovery.truthy_list sources = true ->
          exists s l, sources = Some l /\ In s l /\ lower (fst c) = lower s).
Proof.
  unfold filter_sources. destruct sources as [[| s l] |]; simpl Discovery.truthy_list;
    try (split; [intros H; split; [exact H | discriminate] | tauto]).
  rewrite List.filter_In. unfold source_matches. rewrite existsb_exists. split.
  - intros [Hin (x & Hx & Heq)]. split; [exact Hin |]. intros _.
    apply String.eqb_eq in Heq.
    apply List.in_map_iff in Hx. destruct Hx as (s0 & <- & Hs0).
    exists s0, (s :: l). auto.
  - intros [Hin Hm]. split; [exact Hin |].
    destruct (Hm eq_refl) as (s0 & l0 & [= <-] & Hs0 & Heq).
    exists (lower s0). split; [apply List.in_map; exact Hs0 |].
    apply String.eqb_eq. exact Heq.
Qed.

Lemma filter_sources_sublist (sources : option (list string))
    (creators : list (string * string)) :
  sublist (filter_sources sources creators) creators.
Proof.
  unfold filter_sources. destruct sources as [[| s l] |]; try reflexivity.
  induction creators as [| c rest IH]; simpl; [constructor |].
  destruct (source_matches (s :: l) c); [apply sublist_skip | apply sublist_cons]; exact IH.
Qed.


Variable connect_store : World -> option string.
Variable close_scrapers : World -> option string * World.


(** X24. One job per candidate and the orchestrator's unit agree: when
    the store connects, the scrapers close without error and successful
    scraper results carry a profile, a worker job on a candidate reports
    success exactly when [scrape_creator], configured with the same
    [use_api], returns a success for it. *)
Theorem worker_agrees_with_orchestrator
    (source profile_url : string) (api store_raw : bool) (w : World) :
  scrapers_well_formed svc ->
  connect_store w = None ->
  (forall w1, fst (close_scrapers w1) = None) ->
  exists r,
    fst (scrape_creator (with_use_api api svc) source profile_url w) = Ret r
    /\ success r
       = w_success (fst (scrape_creator_profile svc connect_store close_scrapers
                           source profile_url api store_raw w)).
Proof.
  intros Hwf Hconn Hclose.
  unfold scrape_creator_profile, scrape_creator, _scrape_profile_async. rewrite Hconn.
  simpl use_api. simpl instagram_scrape_profile. simpl linkedin_scrape_profile.
  simpl upsert_creator.
  assert (Hc : forall (x : WorkerResult) (w1 : World),
             w_success (fst (let '(result, w1) := (x, w1) in
                             match close_scrapers w1 with
                             | (Some e, w2) =>
                                 (worker_failure (Some e) None source profile_url, w2)
                             | (None, w2) => (result, w2)
                             end)) = w_success x).
  { intros x w1. simpl. specialize (Hclose w1).
    destruct (close_scrapers w1) as [[e |] w2]; simpl in *; [discriminate | reflexivity]. }
  destruct (String.eqb (lower source) "instagram").
  - destruct (instagram_scrape_profile svc profile_url api w) as [[sr | e] w1] eqn:Hrun.
    + destruct (success sr) eqn:Hs.
      * destruct (Hwf profile_url api w sr) as [Hig _].
        destruct (Hig ltac:(rewrite Hrun; reflexivity) Hs) as [p Hp]. rewrite Hp.
        destruct (upsert_creator svc p w1) as [[ok | e] w2];
          eexists; (split; [reflexivity |]); rewrite Hc; simpl; auto.
      * exists sr. split; [reflexivity |]. rewrite Hc. simpl. exact Hs.
    + eexists. split; [reflexivity |]. rewrite Hc. reflexivity.
  - destruct (String.eqb (lower source) "linkedin").
    + destruct (linkedin_scrape_profile svc profile_url api w) as [[sr | e] w1] eqn:Hrun.
      * destruct (success sr) eqn:Hs.
        -- destruct (Hwf profile_url api w sr) as [_ Hli].
           destruct (Hli ltac:(rewrite Hrun; reflexivity) Hs) as [p Hp]. rewrite Hp.
           destruct (upsert_creator svc p w1) as [[ok | e] w2];
             eexists; (split; [reflexivity |]); rewrite Hc; simpl; auto.
        -- exists sr. split; [reflexivity |]. rewrite Hc. simpl. exact Hs.
      * eexists. split; [reflexivity |]. rewrite Hc. reflexivity.
    + eexists. split; [reflexivity |]. rewrite Hc. reflexivity.
Qed.

End Facts.

Lemma swapped_perm : [1; 0]%nat ≡ₚ seq 0 (length (filter_sources (Some ["instagram"]) three_rows)).
Proof. apply perm_swap. Defined.


Lemma sample_svc_well_formed : scrapers_well_formed sample_svc.
Proof.
  intros u api w r. split; simpl.
  - intros [= <-]. intros _. eexists. reflexivity.
  - discriminate.
Defined.

Lemma worker_agrees_with_orchestrator_witness :
  exists r,
    fst (scrape_creator (with_use_api true sample_svc) "Instagram"
           "https://www.instagram.com/ana/" 0%nat) = Ret r
    /\ success r
       = w_success (fst (scrape_creator_profile sample_svc (fun _ => None)
                           (fun w => (None, w)) "Instagram"
                           "https://www.instagram.com/ana/" true false 0%nat)).
Proof.
  apply (worker_agrees_with_orchestrator sample_svc (fun _ => None) (fun w => (None, w))
           "Instagram" "https://www.instagram.com/ana/" true false 0%nat).
  - exact sample_svc_well_formed.
  - reflexivity.
  - reflexivity.
Defined.

(** The rows of three sources, restricted to Instagram: the two Instagram
    rows are scraped, whatever the case of their source. *)
Example three_rows_instagram :
  fst (scrape_creators_from_csv sample_svc three_rows (Some ["INSTAGRAM"]) [1; 0]%nat 0%nat)
  = Some [ succeeded (Batch.sample_profile "https://www.instagram.com/ana/") "scraping";
           succeeded (Batch.sample_profile "https://www.instagram.com/cy/") "scraping" ].
Proof. reflexivity. Qed.

(** [str.lower()] turns the Kelvin sign into [k]: the source is LinkedIn,
    whose scraper is called (and crashes, in the sample services). *)
Example kelvin_sign_selects_linkedin :
  lower kelvin_linkedin = "linkedin"
  /\ fst (scrape_creator sample_svc kelvin_linkedin "https://www.linkedin.com/in/bo/" 0%nat)
     = Ret (failure "browser crashed" "none").
Proof. split; reflexivity. Qed.

(** A store that refuses the record leaves the job successful. *)
Example refused_record_is_still_a_success :
  let r := fst (scrape_creator_profile refusing_svc (fun _ => None) (fun w => (None, w))
                  "Instagram" "https://www.instagram.com/ana/" true false 0%nat) in
  w_success r = true /\ w_db_saved r = Some false.
Proof. split; reflexivity. Qed.

End BatchMore.

(** ** Proxy rotation *)

Module ProxyFacts.

Import ProxyManager.

Lemma working_spec (self : t) (p : string) :
  In p (working self) <-> In p (proxies self) /\ p ∉ failed_proxies self.
Proof.
  unfold working. rewrite List.filter_In. rewrite bool_decide_eq_true. reflexivity.
Qed.

Lemma lookup_mod_in (l : list string) (i : nat) (p : string) :
  l !! (i mod length l) = Some p -> In p l.
Proof. intros H. apply list_elem_of_In. eapply list_elem_of_lookup_2. exact H. Qed.

(** X25. A proxy handed out by [get_next_proxy] or [get_random_proxy] is
    always one of the configured proxies and never one marked as failed;
    both answer [None] exactly when no configured proxy is unmarked. *)
Theorem served_proxy_is_working (self : t) (pick : nat) :
  (forall p, fst (get_next_proxy self) = Some p ->
             In p (proxies self) /\ p ∉ failed_proxies self)
  /\ (forall p, get_random_proxy self pick = Some p ->
                In p (proxies self) /\ p ∉ failed_proxies self)
  /\ (fst (get_next_proxy self) = None <-> working self = [])
  /\ (get_random_proxy self pick = None <-> working self = []).
Proof.
  unfold get_next_proxy, get_random_proxy.
  destruct (working self) as [| w ws] eqn:Hw; simpl fst.
  - repeat split; auto; discriminate.
  - assert (Hlt : forall i, (i mod length (w :: ws) < length (w :: ws))%nat).
    { intros i. apply Nat.mod_upper_bound. simpl. lia. }
    assert (Hserved : forall i p, (w :: ws) !! (i mod length (w :: ws)) = Some p ->
                       In p (proxies self) /\ p ∉ failed_proxies self).
    { intros i p Hp. apply working_spec. rewrite Hw. eapply lookup_mod_in; eauto. }
    split; [intros p Hp; exact (Hserved _ p Hp) |].
    split; [intros p Hp; exact (Hserved _ p Hp) |].
    split; (split; [| discriminate]); intros H; apply lookup_ge_None in H.
    + exfalso. specialize (Hlt (current_index self)). simpl in *. lia.
    + exfalso. specialize (Hlt pick). simpl in *. lia.
Qed.

Lemma working_next (self : t) : working (snd (get_next_proxy self)) = working self.
Proof.
  unfold get_next_proxy. destruct (working self) eqn:Hw; simpl snd; [exact Hw |].
  unfold working in *. simpl. exact Hw.
Qed.

Lemma index_next (self : t) :
  working self <> [] -> current_index (snd (get_next_proxy self)) = S (current_index self).
Proof.
  unfold get_next_proxy. destruct (working self); [contradiction | reflexivity].
Qed.

Lemma next_n_lookup (n : nat) :
  forall (self : t) (j : nat),
    working self <> [] -> (j < n)%nat ->
    next_n n self !! j
    = Some (working self !! ((current_index self + j) mod length (working self))).
Proof.
  induction n as [| n IH]; intros self j Hw Hj; [lia |].
  simpl next_n. destruct j as [| j].
  - simpl. rewrite Nat.add_0_r. unfold get_next_proxy.
    destruct (working self); [contradiction | reflexivity].
  - simpl. rewrite IH; [| rewrite working_next; exact Hw | lia].
    rewrite working_next, (index_next self Hw).
    replace (S (current_index self) + j)%nat with (current_index self + S j)%nat by lia.
    reflexivity.
Qed.

(** X26. Rotation is fair: as long as the failed set does not change,
    the j-th of consecutive [get_next_proxy] calls returns the unmarked
    proxy at position [(current_index + j) mod k] of the k unmarked ones, so
    any k consecutive calls hand out every unmarked proxy. *)
Theorem rotation_is_fair (self : t) :
  working self <> [] ->
  (forall n j, (j < n)%nat ->
     next_n n self !! j
     = Some (working self !! ((current_index self + j) mod length (working self))))
  /\ forall p, In p (working self) ->
       In (Some p) (next_n (length (working self)) self).
Proof.
  intros Hw. split; [intros n j Hj; apply next_n_lookup; assumption |].
  intros p Hp. set (k := length (working self)).
  assert (Hk : (0 < k)%nat).
  { unfold k. destruct (working self); [contradiction | simpl; lia]. }
  apply list_elem_of_In, list_elem_of_lookup_1 in Hp. destruct Hp as [i Hi].
  assert (Hik : (i < k)%nat) by (eapply lookup_lt_Some; eauto).
  set (c := (current_index self mod k)%nat).
  assert (Hc : (c < k)%nat) by (apply Nat.mod_upper_bound; lia).
  set (j := ((i + k - c) mod k)%nat).
  assert (Hj : (j < k)%nat) by (apply Nat.mod_upper_bound; lia).
  assert (Hpos : ((current_index self + j) mod k = i)%nat).
  { unfold j. rewrite Nat.Div0.add_mod_idemp_r.
    rewrite <- Nat.Div0.add_mod_idemp_l. fold c.
    replace (c + (i + k - c))%nat with (i + 1 * k)%nat by lia.
    rewrite Nat.Div0.mod_add. apply Nat.mod_small. exact Hik. }
  apply list_elem_of_In. apply list_elem_of_lookup_2 with (i := j).
  rewrite (next_n_lookup k self j Hw Hj). fold k. rewrite Hpos, Hi. reflexivity.
Qed.

Lemma rotation_is_fair_witness :
  In (Some "socks5://c:3"%string) (next_n (length (working three_proxies)) three_proxies).
Proof.
  apply (rotation_is_fair three_proxies).
  - vm_compute. discriminate.
  - vm_compute. right. left. reflexivity.
Defined.

Lemma test_loop_spec (tested : list (string * bool)) :
  forall (acc : list string) (failed : gset string),
    let r := test_loop tested acc failed in
    fst r = acc ++ map fst (List.filter snd tested)
    /\ forall p, p ∈ snd r <->
         p ∈ failed \/ In (p, false) tested.
Proof.
  induction tested as [| [proxy ok] rest IH]; intros acc failed; simpl.
  - rewrite app_nil_r. split; [reflexivity |]. intros p. tauto.
  - destruct ok; simpl.
    + destruct (IH (acc ++ [proxy]) failed) as [H1 H2].
      split; [rewrite H1, <- app_assoc; reflexivity |].
      intros p. rewrite H2. split; [tauto |].
      intros [H | [[=] | H]]; tauto.
    + destruct (IH acc ({[proxy]} ∪ failed)) as [H1 H2].
      split; [exact H1 |].
      intros p. rewrite H2, elem_of_union, elem_of_singleton. split.
      * intros [[-> | H] | H]; auto.
      * intros [H | [[= ->] | H]]; auto.
Qed.

(** X27. [test_all_proxies] returns, in order, the proxies whose test
    passed and marks every proxy whose test failed; marks made earlier are
    kept, so a proxy that passes now but had been marked before is
    reported as working and still left out of the rotation.  Afterwards
    the rotation only contains proxies that were unmarked before and had
    no failing test. *)
Theorem test_all_proxies_spec (self : t) (answers : list bool) :
  length answers = length (proxies self) ->
  let r := test_all_proxies self answers in
  fst r = map fst (List.filter snd (combine (proxies self) answers))
  /\ failed_proxies self ⊆ failed_proxies (snd r)
  /\ (forall p, In (p, false) (combine (proxies self) answers) ->
                p ∈ failed_proxies (snd r))
  /\ forall p, In p (working (snd r)) ->
       In p (working self)
       /\ ~ In (p, false) (combine (proxies self) answers)
       /\ In p (fst r).
Proof.
  intros Hlen. unfold test_all_proxies.
  pose proof (test_loop_spec (combine (proxies self) answers) [] (failed_proxies self))
    as [H1 H2].
  destruct (test_loop (combine (proxies self) answers) [] (failed_proxies self))
    as [ws failed]. simpl in *.
  split; [exact H1 |]. split; [intros p Hp; apply H2; auto |].
  split; [intros p Hp; apply H2; auto |].
  intros p Hp. apply working_spec in Hp. simpl in Hp. destruct Hp as [Hin Hnot].
  assert (Hold : p ∉ failed_proxies self) by (intros H; apply Hnot, H2; auto).
  assert (Hnf : ~ In (p, false) (combine (proxies self) answers))
    by (intros H; apply Hnot, H2; auto).
  split; [apply working_spec; auto |]. split; [exact Hnf |].
  rewrite H1.
  (* p occurs in proxies, so it is paired with some answer, which is true *)
  assert (Hpair : exists b, In (p, b) (combine (proxies self) answers)).
  { apply list_elem_of_In, list_elem_of_lookup_1 in Hin. destruct Hin as [i Hi].
    destruct (lookup_lt_is_Some_2 answers i) as [b Hb].
    { rewrite Hlen. eapply lookup_lt_Some; eauto. }
    exists b. apply list_elem_of_In. apply list_elem_of_lookup_2 with (i := i).
    change (combine (proxies self) answers) with (zip (proxies self) answers).
    rewrite lookup_zip_with, Hi. simpl. rewrite Hb. reflexivity. }
  destruct Hpair as [[|] Hb]; [| contradiction].
  apply List.in_map_iff. exists (p, true). split; [reflexivity |].
  apply List.filter_In. split; [exact Hb | reflexivity].
Qed.

Lemma test_all_proxies_spec_witness :
  fst (test_all_proxies three_proxies [true; true; false])
  = ["http://a:1"; "http://b:2"]%string.
Proof.
  destruct (test_all_proxies_spec three_proxies [true; true; false] eq_refl) as [H _].
  rewrite H. reflexivity.
Defined.

(** After that test the proxy marked earlier is reported as working but
    not served. *)
Example marked_proxy_stays_out :
  working (snd (test_all_proxies three_proxies [true; true; false]))
  = ["http://a:1"]%string.
Proof. vm_compute. reflexivity. Qed.

(** X28. The number of working proxies never exceeds the number of
    proxies, marking a proxy as failed never raises it, and after
    [reset_failed_proxies] the two counts are equal. *)
Theorem proxy_counts (self : t) (proxy_url : string) :
  (get_working_proxy_count self <= get_proxy_count self)%nat
  /\ (get_working_proxy_count (mark_proxy_failed self proxy_url)
      <= get_working_proxy_count self)%nat
  /\ get_working_proxy_count (reset_failed_proxies self) = get_proxy_count self.
Proof.
  unfold get_working_proxy_count, get_proxy_count, working. split; [| split].
  - apply List.filter_length_le.
  - simpl. induction (proxies self) as [| p l IH]; simpl; [lia |].
    destruct (bool_decide (p ∉ failed_proxies self)) eqn:H1;
      destruct (bool_decide (p ∉ {[proxy_url]} ∪ failed_proxies self)) eqn:H2;
      simpl; try lia.
    apply bool_decide_eq_true in H2. apply bool_decide_eq_false in H1.
    exfalso. apply H1. intros Hc. apply H2, elem_of_union. right. exact Hc.
  - simpl. induction (proxies self) as [| p l IH]; simpl; [reflexivity |].
    rewrite bool_decide_eq_true_2 by apply not_elem_of_empty. simpl. rewrite IH.
    reflexivity.
Qed.

End ProxyFacts.

(** ** User agents *)

Module UserAgentFacts.

Import UserAgent.

Local Open Scope string_scope.

Lemma choice_in (seq : list string) (pick : nat) :
  seq <> [] -> exists a, choice seq pick = Ret a /\ In a seq.
Proof.
  intros Hne. unfold choice. destruct seq as [| a l]; [contradiction |].
  destruct ((a :: l) !! (pick mod length (a :: l))) as [x |] eqn:Hx.
  - exists x. split; [reflexivity |].
    apply list_elem_of_In. eapply list_elem_of_lookup_2. exact Hx.
  - apply lookup_ge_None in Hx.
    pose proof (Nat.mod_upper_bound pick (length (a :: l)) ltac:(simpl; lia)). lia.
Qed.

(** X29. With at least one agent configured, [get_agent_for_platform]
    always returns a configured agent; for Instagram it is a Chrome agent
    that is not Edge whenever one is configured, for LinkedIn a Firefox
    agent whenever one is configured. *)
Theorem agent_for_platform_spec {L : StrLower} (self : t) (platform : string) (pick : nat) :
  agents self <> [] ->
  exists a,
    get_agent_for_platform self platform pick = Ret a
    /\ In a (agents self)
    /\ (lower platform = "instagram" ->
        (exists c, In c (agents self) /\ is_chrome c = true) -> is_chrome a = true)
    /\ (lower platform = "linkedin" ->
        (exists f, In f (agents self) /\ is_firefox f = true) -> is_firefox a = true).
Proof.
  intros Hne. unfold get_agent_for_platform, get_random_agent.
  assert (Hsub : forall (f : string -> bool),
             List.filter f (agents self) <> [] ->
             exists a, choice (List.filter f (agents self)) pick = Ret a
                       /\ In a (agents self) /\ f a = true).
  { intros f Hf. destruct (choice_in _ pick Hf) as (a & Ha & Hin).
    apply List.filter_In in Hin. exists a. tauto. }
  assert (Hempty : forall (f : string -> bool),
             List.filter f (agents self) = [] ->
             ~ exists c, In c (agents self) /\ f c = true).
  { intros f Hf (c & Hc & Hfc).
    assert (In c (List.filter f (agents self))) by (apply List.filter_In; auto).
    rewrite Hf in H. contradiction. }
  destruct (String.eqb (lower platform) "instagram") eqn:Hig.
  - apply String.eqb_eq in Hig.
    destruct (List.filter is_chrome (agents self)) as [| c l] eqn:Hf.
    + destruct (choice_in _ pick Hne) as (a & Ha & Hin). exists a.
      split; [exact Ha |]. split; [exact Hin |]. split.
      * intros _ Hex. exfalso. exact (Hempty is_chrome Hf Hex).
      * rewrite Hig. discriminate.
    + destruct (Hsub is_chrome) as (a & Ha & Hin & Hc); [rewrite Hf; discriminate |].
      rewrite Hf in Ha. exists a. split; [exact Ha |]. split; [exact Hin |]. split; auto.
      rewrite Hig. discriminate.
  - apply String.eqb_neq in Hig.
    destruct (String.eqb (lower platform) "linkedin") eqn:Hli.
    + destruct (List.filter is_firefox (agents self)) as [| c l] eqn:Hf.
      * destruct (choice_in _ pick Hne) as (a & Ha & Hin). exists a.
        split; [exact Ha |]. split; [exact Hin |]. split; [contradiction |].
        intros _ Hex. exfalso. exact (Hempty is_firefox Hf Hex).
      * destruct (Hsub is_firefox) as (a & Ha & Hin & Hc); [rewrite Hf; discriminate |].
        rewrite Hf in Ha. exists a. split; [exact Ha |]. split; [exact Hin |].
        split; [contradiction | auto].
    + apply String.eqb_neq in Hli.
      destruct (choice_in _ pick Hne) as (a & Ha & Hin). exists a.
      split; [exact Ha |]. split; [exact Hin |]. split; contradiction.
Qed.

Lemma agent_for_platform_spec_witness :
  exists a, get_agent_for_platform three_agents "Instagram" 5 = Ret a
            /\ In a (agents three_agents).
Proof.
  destruct (agent_for_platform_spec three_agents "Instagram" 5 ltac:(discriminate))
    as (a & Ha & Hin & _).
  exists a. split; assumption.
Defined.

Lemma remove_first_length (x : string) (l : list string) :
  In x l -> length l = S (length (remove_first x l)).
Proof.
  induction l as [| y l IH]; simpl; [contradiction |].
  destruct (String.eqb x y) eqn:Hxy; [reflexivity |].
  apply String.eqb_neq in Hxy. intros [-> | Hin]; [contradiction |].
  simpl. rewrite <- IH by exact Hin. reflexivity.
Qed.

(** X30. [get_next_agent] and [add_agent] keep the index a valid
    subscript, and with a valid index [get_next_agent] never raises; but
    [remove_agent] does not adjust the index: removing an agent while the
    index points at the last position makes the next [get_next_agent]
    raise [IndexError]. *)
Theorem next_agent_index (self : t) (agent : string) :
  index_ok self ->
  (exists a, fst (get_next_agent self) = Ret a /\ In a (agents self))
  /\ index_ok (snd (get_next_agent self))
  /\ index_ok (add_agent self agent)
  /\ (In agent (agents self) ->
      S (current_index self) = length (agents self) ->
      fst (get_next_agent (remove_agent self agent)) = Raise "IndexError").
Proof.
  unfold index_ok. intros Hok. split; [| split; [| split]].
  - unfold get_next_agent.
    destruct (lookup_lt_is_Some_2 (agents self) (current_index self) Hok) as [a Ha].
    rewrite Ha. exists a. split; [reflexivity |].
    apply list_elem_of_In. eapply list_elem_of_lookup_2. exact Ha.
  - unfold get_next_agent.
    destruct (lookup_lt_is_Some_2 (agents self) (current_index self) Hok) as [a Ha].
    rewrite Ha. simpl. apply Nat.mod_upper_bound. lia.
  - unfold add_agent. destruct (bool_decide (agent ∈ agents self)); [exact Hok |].
    simpl. rewrite length_app. simpl. lia.
  - intros Hin Hlast. unfold remove_agent.
    rewrite bool_decide_eq_true_2 by (apply list_elem_of_In; exact Hin).
    unfold get_next_agent. simpl.
    pose proof (remove_first_length agent (agents self) Hin) as Hlen.
    rewrite (proj2 (lookup_ge_None _ _)) by lia. reflexivity.
Qed.

Lemma next_agent_index_witness :
  fst (get_next_agent (remove_agent three_agents "Mozilla Firefox/121")) = Raise "IndexError".
Proof.
  apply (next_agent_index three_agents "Mozilla Firefox/121").
  - unfold index_ok. simpl. lia.
  - simpl. right. left. reflexivity.
  - reflexivity.
Defined.

End UserAgentFacts.
